(** * dkb2actual: the DKB statement transformation, embedded and verified

    The development follows [dkb.ts], the parsing and transformation
    engine of the importer: [parseGermanDecimal], [parseGermanDate],
    [amountToInteger], [generateImportedId], [parseDkbCsv],
    [getOpposingName] and [transformToActualTransactions].  Host-language
    values are modelled the way the program sees them:

    - a JavaScript string is its sequence of UTF-16 code units;
    - a JavaScript number is an IEEE-754 binary64 value ([spec_float] with
      precision 53 and maximal exponent 1024), and [parseFloat], the
      product, [Math.round] and the conversion to a string are those of
      ECMAScript on such values;
    - the hash is SHA-256 over the UTF-8 encoding of the string;
    - a field of a parsed CSV row that may be missing is an [option];
    - a function that may throw returns a [result].

    Two things the program takes from outside are parameters: the CSV
    parser of the [csv-parse] package and [String.prototype.toUpperCase].

    The rest of the program is followed as well: [findDkbFile], the
    configuration read by [config.ts], the account lookup of [actual.ts] and
    the run of [index.ts].  For the run, the Actual API, the file system,
    the clock and the environment are the host: a record of functions over
    the state of the outside world, and what the program does to the outside
    is kept as a list of events. *)

From Stdlib Require Import ZArith Bool Ascii String List Lia QArith Lqa.
From Stdlib Require Import SpecFloat.
Import ListNotations.
Local Open Scope Z_scope.

(** ** Results of code that may throw *)

Inductive result (A : Type) : Type :=
| Ok (a : A)
| Throw (msg : list Z).

Arguments Ok {A} a.
Arguments Throw {A} msg.

Definition bind {A B : Type} (r : result A) (k : A -> result B) : result B :=
  match r with
  | Ok a => k a
  | Throw m => Throw m
  end.

Notation "'try' x <- r ; k" := (bind r (fun x => k))
  (at level 10, x name, r at level 100, k at level 200).

(** ** JavaScript strings *)

Module JsString.

(** A string is the list of its UTF-16 code units. *)
Definition jsstring := list Z.

(** An ASCII literal as a JavaScript string. *)
Definition lit (s : string) : jsstring :=
  map (fun a => Z.of_N (N_of_ascii a)) (list_ascii_of_string s).

Definition eqb (a b : jsstring) : bool :=
  if list_eq_dec Z.eq_dec a b then true else false.

Definition is_empty (s : jsstring) : bool :=
  match s with [] => true | _ => false end.

(** [WhiteSpace] and [LineTerminator] code points of ECMAScript, the
    characters [String.prototype.trim] and [parseFloat] strip. *)
Definition is_white_space (c : Z) : bool :=
  (c =? 9) || (c =? 10) || (c =? 11) || (c =? 12) || (c =? 13) || (c =? 32)
  || (c =? 160) || (c =? 5760) || ((8192 <=? c) && (c <=? 8202))
  || (c =? 8232) || (c =? 8233) || (c =? 8239) || (c =? 8287)
  || (c =? 12288) || (c =? 65279).

Fixpoint trimStart (s : jsstring) : jsstring :=
  match s with
  | c :: r => if is_white_space c then trimStart r else s
  | [] => []
  end.

Definition trimEnd (s : jsstring) : jsstring := rev (trimStart (rev s)).

(** [s.trim()] *)
Definition trim (s : jsstring) : jsstring := trimEnd (trimStart s).

(** [s.split(sep)] for a separator of one code unit; never empty. *)
Fixpoint split (sep : Z) (s : jsstring) : list jsstring :=
  match s with
  | [] => [[]]
  | c :: r =>
      if c =? sep then [] :: split sep r
      else match split sep r with
           | h :: t => (c :: h) :: t
           | [] => [[c]]
           end
  end.

(** [parts.join(sep)] *)
Fixpoint join (sep : jsstring) (parts : list jsstring) : jsstring :=
  match parts with
  | [] => []
  | [p] => p
  | p :: rest => p ++ sep ++ join sep rest
  end.

(** [s.replace(/c/g, "")]: every occurrence of the code unit is removed. *)
Definition remove_all (c : Z) (s : jsstring) : jsstring :=
  filter (fun x => negb (x =? c)) s.

(** [s.replace(c, d)] with string arguments of one code unit: only the
    first occurrence is replaced. *)
Fixpoint replace_first (c d : Z) (s : jsstring) : jsstring :=
  match s with
  | [] => []
  | x :: r => if x =? c then d :: r else x :: replace_first c d r
  end.

(** [s.padStart(n, fill)] for a fill string of one code unit. *)
Definition padStart (n : nat) (fill : Z) (s : jsstring) : jsstring :=
  repeat fill (n - List.length s) ++ s.

(** [arr.includes(s)] on an array of strings. *)
Definition includes (arr : list jsstring) (s : jsstring) : bool :=
  existsb (eqb s) arr.

Fixpoint starts_with (p s : jsstring) : bool :=
  match p, s with
  | [], _ => true
  | a :: p', b :: s' => (a =? b) && starts_with p' s'
  | _ :: _, [] => false
  end.

(** Truthiness of a value that is a string or [undefined]. *)
Definition truthy (v : option jsstring) : bool :=
  match v with
  | Some (_ :: _) => true
  | _ => false
  end.

(** [a || b] on such values. *)
Definition or (a b : option jsstring) : option jsstring :=
  if truthy a then a else b.

(** [a || ""] *)
Definition or_empty (a : option jsstring) : jsstring :=
  match a with
  | Some (c :: r) => c :: r
  | _ => []
  end.

(** [a?.trim() ?? ""] *)
Definition trim_or_empty (a : option jsstring) : jsstring :=
  match a with
  | Some s => trim s
  | None => []
  end.

End JsString.

Import JsString.

(** ** JavaScript numbers *)

Module JsNumber.

Definition prec : Z := 53.
Definition emax : Z := 1024.

(** A number is a binary64 value. *)
Definition number := spec_float.

Definition NaN : number := S754_nan.
Definition Infinity (neg : bool) : number := S754_infinity neg.

(** [x * y] *)
Definition mul (x y : number) : number := SFmul prec emax x y.

(** [x < y] *)
Definition lt (x y : number) : bool := SFltb x y.

(** [isNaN(x)] *)
Definition isNaN (x : number) : bool :=
  match x with S754_nan => true | _ => false end.

(** The number nearest to an integer (an integer literal of the source). *)
Definition of_Z (n : Z) : number := binary_normalize prec emax n 0 false.

(** The number nearest to [± n × 10^e] for [n >= 0], ties to even: the
    Number value of a decimal literal.  For a negative exponent the
    quotient is taken with enough bits for the rounding, and the remainder
    tells on which side of the half-way point the exact value lies. *)
Definition of_decimal (neg : bool) (n e : Z) : number :=
  if n <=? 0 then S754_zero neg
  else if 0 <=? e then binary_normalize prec emax (cond_Zopp neg (n * 10 ^ e)) 0 neg
  else
    let d := 10 ^ (- e) in
    let k := Z.max 0 (Z.log2 d + prec + 2 - Z.log2 n) in
    let '(q, r) := Z.div_eucl (Z.shiftl n k) d in
    binary_round_aux prec emax neg q (- k) (new_location d r).

(** *** [parseFloat] *)

Definition is_digit (c : Z) : bool := (48 <=? c) && (c <=? 57).

(** The longest prefix of decimal digits, and the rest. *)
Fixpoint span_digits (s : jsstring) : jsstring * jsstring :=
  match s with
  | c :: r =>
      if is_digit c
      then let '(ds, rest) := span_digits r in (c :: ds, rest)
      else ([], s)
  | [] => ([], [])
  end.

Definition digits_value (ds : jsstring) : Z :=
  fold_left (fun acc c => 10 * acc + (c - 48)) ds 0.

(** An optional sign: [+] is 43, [-] is 45. *)
Definition take_sign (s : jsstring) : bool * jsstring :=
  match s with
  | 45 :: r => (true, r)
  | 43 :: r => (false, r)
  | _ => (false, s)
  end.

(** The value of an [ExponentPart] at the head of [s], 0 when there is
    none: [e] or [E], an optional sign, and at least one digit. *)
Definition exponent_part (s : jsstring) : Z :=
  match s with
  | c :: r =>
      if (c =? 101) || (c =? 69) then
        let '(eneg, r1) := take_sign r in
        let '(ed, _) := span_digits r1 in
        if is_empty ed then 0 else cond_Zopp eneg (digits_value ed)
      else 0
  | [] => 0
  end.

(** [parseFloat(s)]: leading white space is skipped, the longest prefix
    that is a [StrDecimalLiteral] is read, and [NaN] is returned when
    there is none. *)
Definition parseFloat (input : jsstring) : number :=
  let '(neg, s1) := take_sign (trimStart input) in
  if starts_with (lit "Infinity") s1 then Infinity neg
  else
    let '(ip, s2) := span_digits s1 in
    let '(fp, s3) :=
      match s2 with
      | 46 :: r => span_digits r
      | _ => ([], s2)
      end in
    if is_empty ip && is_empty fp then NaN
    else of_decimal neg (digits_value (ip ++ fp))
                    (exponent_part s3 - Z.of_nat (List.length fp)).

(** *** [Math.round] *)

(** [floor(± m × 2^e + 1/2)] for [e < 0]. *)
Definition round_half_up (s : bool) (m : positive) (e : Z) : Z :=
  (2 * cond_Zopp s (Zpos m) + 2 ^ (- e)) / 2 ^ (1 - e).

(** [Math.round(x)]: the integral number closest to [x], the one closer
    to +Infinity in case of a tie; a result of zero keeps the sign of [x]. *)
Definition Math_round (x : number) : number :=
  match x with
  | S754_finite s m e =>
      if 0 <=? e then x
      else binary_normalize prec emax (round_half_up s m e) 0 s
  | _ => x
  end.

(** *** [Number::toString] (radix 10) *)

Fixpoint uint_units (d : Decimal.uint) : jsstring :=
  match d with
  | Decimal.Nil => []
  | Decimal.D0 r => 48 :: uint_units r
  | Decimal.D1 r => 49 :: uint_units r
  | Decimal.D2 r => 50 :: uint_units r
  | Decimal.D3 r => 51 :: uint_units r
  | Decimal.D4 r => 52 :: uint_units r
  | Decimal.D5 r => 53 :: uint_units r
  | Decimal.D6 r => 54 :: uint_units r
  | Decimal.D7 r => 55 :: uint_units r
  | Decimal.D8 r => 56 :: uint_units r
  | Decimal.D9 r => 57 :: uint_units r
  end.

(** The decimal digits of a non-negative integer. *)
Definition decimal_digits (n : Z) : jsstring :=
  uint_units (N.to_uint (Z.to_N n)).

(** [10^j <= p/q] for positive [p] and [q]. *)
Definition pow10_le (j p q : Z) : bool :=
  if 0 <=? j then 10 ^ j * q <=? p else q <=? p * 10 ^ (- j).

Fixpoint decade_from (fuel : nat) (p q n : Z) : Z :=
  match fuel with
  | O => n
  | S f => if pow10_le n p q then decade_from f p q (n + 1) else n
  end.

(** The [n] with [10^(n-1) <= p/q < 10^n], found upwards from an
    under-estimate taken from the binary logarithms. *)
Definition decade (p q : Z) : Z :=
  decade_from 8 p q (((Z.log2 p - Z.log2 q - 1) * 30103) / 100000 - 1).

(** [floor((p/q) / 10^j)] *)
Definition scaled_floor (p q j : Z) : Z :=
  if 0 <=? j then p / (q * 10 ^ j) else (p * 10 ^ (- j)) / q.

(** Whether [p/q] is nearer to [lo × 10^j] than to [(lo+1) × 10^j]
    ([Lt]), nearer to the latter ([Gt]), or half-way ([Eq]). *)
Definition nearer (p q j lo : Z) : comparison :=
  if 0 <=? j then 2 * p ?= (2 * lo + 1) * 10 ^ j * q
  else 2 * p * 10 ^ (- j) ?= (2 * lo + 1) * q.

(** The digits [s] and the exponent [n] of the shortest decimal
    [s × 10^(n-k)] with [k] digits, [k] counted up from [k], whose Number
    value is [x]; of two such decimals the one nearer to [x]. *)
Fixpoint shortest_digits (fuel : nat) (x : number) (p q n k : Z) : Z * Z :=
  let j := n - k in
  let lo := scaled_floor p q j in
  let '(hi, nhi) := if lo + 1 =? 10 ^ k then (10 ^ (k - 1), n + 1) else (lo + 1, n) in
  let lo_ok := SFeqb (of_decimal false lo j) x in
  let hi_ok := SFeqb (of_decimal false hi (nhi - k)) x in
  match fuel with
  | O => (lo, n)
  | S f =>
      if lo_ok && hi_ok then
        match nearer p q j lo with
        | Lt => (lo, n)
        | Gt => (hi, nhi)
        | Eq => if Z.even lo then (lo, n) else (hi, nhi)
        end
      else if lo_ok then (lo, n)
      else if hi_ok then (hi, nhi)
      else shortest_digits f x p q n (k + 1)
  end.

(** The characters of a decimal with digits [s] and exponent [n]. *)
Definition format_decimal (s n : Z) : jsstring :=
  let ds := decimal_digits s in
  let k := Z.of_nat (List.length ds) in
  if (k <=? n) && (n <=? 21) then ds ++ repeat 48 (Z.to_nat (n - k))
  else if (0 <? n) && (n <=? 21) then
    firstn (Z.to_nat n) ds ++ [46] ++ skipn (Z.to_nat n) ds
  else if (-6 <? n) && (n <=? 0) then
    [48; 46] ++ repeat 48 (Z.to_nat (- n)) ++ ds
  else
    let e := n - 1 in
    let es := (if e <? 0 then [45] else [43]) ++ decimal_digits (Z.abs e) in
    if k =? 1 then ds ++ [101] ++ es
    else firstn 1 ds ++ [46] ++ skipn 1 ds ++ [101] ++ es.

(** [String(x)], the text a template literal inserts for a number. *)
Definition Number_toString (x : number) : jsstring :=
  match x with
  | S754_nan => lit "NaN"
  | S754_zero _ => lit "0"
  | S754_infinity neg => (if neg then [45] else []) ++ lit "Infinity"
  | S754_finite neg m e =>
      let '(p, q) := if 0 <=? e then (Zpos m * 2 ^ e, 1) else (Zpos m, 2 ^ (- e)) in
      let '(s, n) := shortest_digits 17 (S754_finite false m e) p q (decade p q) 1 in
      (if neg then [45] else []) ++ format_decimal s n
  end.

End JsNumber.

Import JsNumber.

(** ** Hashing: UTF-8 and SHA-256

    [createHash("sha256").update(raw).digest("hex")] encodes the string as
    UTF-8 and returns the digest as 64 lower-case hexadecimal digits. *)

Module Sha256.

Definition replacement : list Z := [239; 191; 189].

Definition is_high_surrogate (c : Z) : bool := (55296 <=? c) && (c <=? 56319).
Definition is_low_surrogate (c : Z) : bool := (56320 <=? c) && (c <=? 57343).

Definition utf8_2 (c : Z) : list Z :=
  [Z.lor 192 (Z.shiftr c 6); Z.lor 128 (Z.land c 63)].

Definition utf8_3 (c : Z) : list Z :=
  [Z.lor 224 (Z.shiftr c 12); Z.lor 128 (Z.land (Z.shiftr c 6) 63);
   Z.lor 128 (Z.land c 63)].

Definition utf8_4 (c : Z) : list Z :=
  [Z.lor 240 (Z.shiftr c 18); Z.lor 128 (Z.land (Z.shiftr c 12) 63);
   Z.lor 128 (Z.land (Z.shiftr c 6) 63); Z.lor 128 (Z.land c 63)].

(** The UTF-8 bytes of a string; a surrogate without its partner is
    encoded as U+FFFD. *)
Fixpoint utf8_encode (s : jsstring) : list Z :=
  match s with
  | [] => []
  | c :: r =>
      if c <? 128 then c :: utf8_encode r
      else if c <? 2048 then utf8_2 c ++ utf8_encode r
      else if is_high_surrogate c then
        match r with
        | d :: r' =>
            if is_low_surrogate d
            then utf8_4 (65536 + Z.shiftl (c - 55296) 10 + (d - 56320)) ++ utf8_encode r'
            else replacement ++ utf8_encode r
        | [] => replacement
        end
      else if is_low_surrogate c then replacement ++ utf8_encode r
      else utf8_3 c ++ utf8_encode r
  end.

(** 32-bit words are integers below [2^32]; additions wrap around. *)
Definition w32 (x : Z) : Z := x mod 4294967296.
Definition add32 (x y : Z) : Z := w32 (x + y).
Definition rotr (n x : Z) : Z := Z.lor (Z.shiftr x n) (w32 (Z.shiftl x (32 - n))).
Definition not32 (x : Z) : Z := Z.lxor x 4294967295.

Definition Ch (x y z : Z) : Z := Z.lxor (Z.land x y) (Z.land (not32 x) z).
Definition Maj (x y z : Z) : Z :=
  Z.lxor (Z.lxor (Z.land x y) (Z.land x z)) (Z.land y z).
Definition Sigma0 (x : Z) : Z := Z.lxor (Z.lxor (rotr 2 x) (rotr 13 x)) (rotr 22 x).
Definition Sigma1 (x : Z) : Z := Z.lxor (Z.lxor (rotr 6 x) (rotr 11 x)) (rotr 25 x).
Definition sigma0 (x : Z) : Z := Z.lxor (Z.lxor (rotr 7 x) (rotr 18 x)) (Z.shiftr x 3).
Definition sigma1 (x : Z) : Z := Z.lxor (Z.lxor (rotr 17 x) (rotr 19 x)) (Z.shiftr x 10).

(** The round constants of FIPS 180-4, section 4.2.2, in decimal. *)
Definition K : list Z :=
  [ 1116352408; 1899447441; 3049323471; 3921009573; 961987163; 1508970993;
    2453635748; 2870763221; 3624381080; 310598401; 607225278; 1426881987;
    1925078388; 2162078206; 2614888103; 3248222580; 3835390401; 4022224774;
    264347078; 604807628; 770255983; 1249150122; 1555081692; 1996064986;
    2554220882; 2821834349; 2952996808; 3210313671; 3336571891; 3584528711;
    113926993; 338241895; 666307205; 773529912; 1294757372; 1396182291;
    1695183700; 1986661051; 2177026350; 2456956037; 2730485921; 2820302411;
    3259730800; 3345764771; 3516065817; 3600352804; 4094571909; 275423344;
    430227734; 506948616; 659060556; 883997877; 958139571; 1322822218;
    1537002063; 1747873779; 1955562222; 2024104815; 2227730452; 2361852424;
    2428436474; 2756734187; 3204031479; 3329325298 ].

(** The eight working variables, also the chaining value. *)
Record state := State { sa : Z; sb : Z; sc : Z; sd : Z; se : Z; sf : Z; sg : Z; sh : Z }.

Definition initial : state :=
  State 1779033703 3144134277 1013904242 2773480762
        1359893119 2600822924 528734635 1541459225.

(** The message with its padding: a 1 bit, zeros up to 56 modulo 64
    bytes, and the bit length as a 64-bit big-endian integer. *)
Definition be_bytes (n : nat) (x : Z) : list Z :=
  map (fun i => Z.land (Z.shiftr x (8 * Z.of_nat i)) 255) (rev (seq 0 n)).

Definition pad (msg : list Z) : list Z :=
  let len := Z.of_nat (List.length msg) in
  msg ++ [128] ++ repeat 0 (Z.to_nat ((55 - len) mod 64)) ++ be_bytes 8 (8 * len).

(** Big-endian 32-bit words of a byte sequence. *)
Fixpoint words (bs : list Z) : list Z :=
  match bs with
  | b0 :: b1 :: b2 :: b3 :: r =>
      (Z.shiftl b0 24 + Z.shiftl b1 16 + Z.shiftl b2 8 + b3) :: words r
  | _ => []
  end.

(** The message schedule, extended one word at a time. *)
Fixpoint extend (n : nat) (W : list Z) : list Z :=
  match n with
  | O => W
  | S n' =>
      let t := List.length W in
      let wt := add32 (add32 (add32 (sigma1 (nth (t - 2) W 0)) (nth (t - 7) W 0))
                             (sigma0 (nth (t - 15) W 0)))
                      (nth (t - 16) W 0) in
      extend n' (W ++ [wt])
  end.

Definition schedule (block : list Z) : list Z := extend 48 (firstn 16 block).

Definition round (st : state) (kw : Z * Z) : state :=
  let '(k, w) := kw in
  let t1 := add32 (add32 (add32 (add32 (sh st) (Sigma1 (se st)))
                                (Ch (se st) (sf st) (sg st))) k) w in
  let t2 := add32 (Sigma0 (sa st)) (Maj (sa st) (sb st) (sc st)) in
  State (add32 t1 t2) (sa st) (sb st) (sc st) (add32 (sd st) t1) (se st) (sf st) (sg st).

Definition compress (h : state) (block : list Z) : state :=
  let r := fold_left round (combine K (schedule block)) h in
  State (add32 (sa h) (sa r)) (add32 (sb h) (sb r)) (add32 (sc h) (sc r))
        (add32 (sd h) (sd r)) (add32 (se h) (se r)) (add32 (sf h) (sf r))
        (add32 (sg h) (sg r)) (add32 (sh h) (sh r)).

(** The chaining value after [n] blocks of 16 words. *)
Fixpoint blocks (n : nat) (ws : list Z) (h : state) : state :=
  match n with
  | O => h
  | S n' => blocks n' (skipn 16 ws) (compress h (firstn 16 ws))
  end.

Definition sha256 (msg : list Z) : state :=
  let ws := words (pad msg) in
  blocks (List.length ws / 16) ws initial.

Definition hex_digit (n : Z) : Z :=
  nth (Z.to_nat n) (lit "0123456789abcdef") 48.

Definition hex_word (x : Z) : jsstring :=
  map (fun i => hex_digit (Z.land (Z.shiftr x i) 15)) [28; 24; 20; 16; 12; 8; 4; 0].

(** [digest("hex")] *)
Definition hex (h : state) : jsstring :=
  hex_word (sa h) ++ hex_word (sb h) ++ hex_word (sc h) ++ hex_word (sd h) ++
  hex_word (se h) ++ hex_word (sf h) ++ hex_word (sg h) ++ hex_word (sh h).

(** [createHash("sha256").update(s).digest("hex")] *)
Definition sha256_hex (s : jsstring) : jsstring := hex (sha256 (utf8_encode s)).

End Sha256.

(** ** The data model of [dkb.ts] *)

(** [DkbRawRow]: a row as the CSV parser returns it with [columns: true],
    an object keyed by the header's column names.  A column the header
    does not have, or a trailing field the line does not have, is
    [undefined] ([None]).  The columns written [Zahlungspflichtige*r],
    [Zahlungsempfänger*in], [Betrag (€)] and [Gläubiger-ID] in the source
    are named in ASCII here. *)
Record DkbRawRow := {
  Buchungsdatum : option jsstring;
  Wertstellung : option jsstring;
  Status : option jsstring;
  Zahlungspflichtige_r : option jsstring;
  Zahlungsempfaenger_in : option jsstring;
  Verwendungszweck : option jsstring;
  Umsatztyp : option jsstring;
  IBAN : option jsstring;
  Betrag : option jsstring;
  Glaeubiger_ID : option jsstring;
  Mandatsreferenz : option jsstring;
  Kundenreferenz : option jsstring
}.

(** [ActualTransaction] *)
Record ActualTransaction := {
  account : jsstring;
  date : jsstring;
  amount : number;
  payee_name : jsstring;
  imported_payee : jsstring;
  notes : jsstring;
  imported_id : jsstring;
  cleared : bool
}.

(** ** CSV parsing *)

(** [parseGermanDecimal] *)
Definition parseGermanDecimal (value : jsstring) : result number :=
  let cleaned := replace_first 44 46 (remove_all 46 value) in
  let num := parseFloat cleaned in
  if isNaN num
  then Throw (lit "Cannot parse amount: " ++ [34] ++ value ++ [34])
  else Ok num.

(** [parseGermanDate] *)
Definition parseGermanDate (value : jsstring) : result jsstring :=
  match split 46 value with
  | [dd; mm; yy] =>
      let yyyy := if (List.length yy =? 2)%nat then lit "20" ++ yy else yy in
      Ok (yyyy ++ lit "-" ++ padStart 2 48 mm ++ lit "-" ++ padStart 2 48 dd)
  | _ => Throw (lit "Cannot parse date: " ++ [34] ++ value ++ [34])
  end.

(** [amountToInteger] *)
Definition amountToInteger (value : number) : number :=
  Math_round (mul value (of_Z 100)).

(** [generateImportedId] *)
Definition generateImportedId (date : jsstring) (amount : number)
    (payee notes : jsstring) : jsstring :=
  let raw := date ++ lit "|" ++ Number_toString amount ++ lit "|"
             ++ payee ++ lit "|" ++ notes in
  firstn 32 (Sha256.sha256_hex raw).

(** A call that passes one argument more than the function has
    parameters: the argument is evaluated, and the function never sees it. *)
Definition call_with_extra_argument {A B : Type} (returned : A) (extra : B) : A :=
  returned.

Section Reader.

(** [parse] of the [csv-parse/sync] package with the options of the
    source ([columns: true], [delimiter: ";"], [skip_empty_lines: true],
    [relax_column_count: true]).  The package is not part of the
    repository: it is a parameter here. *)
Variable csv_parse : jsstring -> result (list DkbRawRow).

(** [parseDkbCsv], from the content [readFileSync] returned. *)
Definition parseDkbCsv (content : jsstring) : result (list DkbRawRow) :=
  let lines := split 10 content in
  let csvWithoutHeader := join [10] (skipn 4 lines) in
  csv_parse csvWithoutHeader.

End Reader.

(** ** Transformation *)

(** [getOpposingName] *)
Definition getOpposingName (row : DkbRawRow) (amount : number) : jsstring :=
  if lt amount (of_Z 0)
  then or_empty (or (Zahlungsempfaenger_in row) (Zahlungspflichtige_r row))
  else or_empty (or (Zahlungspflichtige_r row) (Zahlungsempfaenger_in row)).

Section Transformation.

(** [String.prototype.toUpperCase], a built-in of the host: a parameter. *)
Variable toUpperCase : jsstring -> jsstring.

Variable actualAccountId : jsstring.
Variable ownIbans : list jsstring.

(** [counterpartIban] of the loop body. *)
Definition counterpartIban (row : DkbRawRow) : jsstring :=
  trim_or_empty (IBAN row).

(** [isOwnAccount] of the loop body. *)
Definition isOwnAccount (row : DkbRawRow) : bool :=
  negb (JsString.eqb (counterpartIban row) []) && includes ownIbans (counterpartIban row).

(** [payeeName] of the loop body, as resolved and before it is trimmed. *)
Definition payeeName (row : DkbRawRow) (amountFloat : number) : jsstring :=
  if isOwnAccount row
  then toUpperCase (counterpartIban row)
  else getOpposingName row amountFloat.

(** [importedPayee] of the loop body. *)
Definition importedPayee (row : DkbRawRow) (amountFloat : number) : jsstring :=
  if is_empty (counterpartIban row)
  then payeeName row amountFloat
  else payeeName row amountFloat ++ lit " (" ++ counterpartIban row ++ lit ")".

(** One turn of the loop of [transformToActualTransactions]: [Ok None]
    when the row is skipped ([continue]), [Ok (Some t)] when [t] is
    pushed, [Throw] when a parser throws. *)
Definition transformRow (row : DkbRawRow) : result (option ActualTransaction) :=
  match Betrag row, Buchungsdatum row with
  | Some (a :: amountRest), Some (d :: dateRest) =>
      let amountRaw := a :: amountRest in
      try amountFloat <- parseGermanDecimal amountRaw;
      let amount := amountToInteger amountFloat in
      try date <- parseGermanDate (d :: dateRest);
      let notes := or_empty (Verwendungszweck row) in
      Ok (Some {|
        account := actualAccountId;
        date := date;
        amount := amount;
        payee_name := trim (payeeName row amountFloat);
        imported_payee := trim (importedPayee row amountFloat);
        notes := notes;
        imported_id :=
          call_with_extra_argument
            (generateImportedId date amount (payeeName row amountFloat) notes)
            (trim_or_empty (Kundenreferenz row));
        cleared := true
      |})
  | _, _ => Ok None
  end.

(** The loop: the transactions pushed so far are threaded through, and a
    thrown error ends it. *)
Fixpoint transformLoop (rows : list DkbRawRow) (transactions : list ActualTransaction)
    : result (list ActualTransaction) :=
  match rows with
  | [] => Ok transactions
  | row :: rest =>
      try r <- transformRow row;
      match r with
      | None => transformLoop rest transactions
      | Some t => transformLoop rest (transactions ++ [t])
      end
  end.

(** [transformToActualTransactions(rows, actualAccountId, ownIbans)]; a
    caller that leaves [ownIbans] out passes the empty array. *)
Definition transformToActualTransactions (rows : list DkbRawRow)
    : result (list ActualTransaction) :=
  transformLoop rows [].

End Transformation.

(** ** Vocabulary of the statements *)

(** Two rows that are identical except in the customer reference. *)
Definition same_except_Kundenreferenz (r1 r2 : DkbRawRow) : Prop :=
  Buchungsdatum r1 = Buchungsdatum r2 /\
  Wertstellung r1 = Wertstellung r2 /\
  Status r1 = Status r2 /\
  Zahlungspflichtige_r r1 = Zahlungspflichtige_r r2 /\
  Zahlungsempfaenger_in r1 = Zahlungsempfaenger_in r2 /\
  Verwendungszweck r1 = Verwendungszweck r2 /\
  Umsatztyp r1 = Umsatztyp r2 /\
  IBAN r1 = IBAN r2 /\
  Betrag r1 = Betrag r2 /\
  Glaeubiger_ID r1 = Glaeubiger_ID r2 /\
  Mandatsreferenz r1 = Mandatsreferenz r2.

(** A field that is absent or empty. *)
Definition absent_or_empty (field : option jsstring) : bool :=
  match field with
  | None => true
  | Some [] => true
  | Some (_ :: _) => false
  end.

(** The rows the loop skips: no amount, or no booking date. *)
Definition skipped (row : DkbRawRow) : bool :=
  absent_or_empty (Betrag row) || absent_or_empty (Buchungsdatum row).


(** The exact value of a finite number; 0 for the others. *)
Definition value (x : number) : Q :=
  match x with
  | S754_finite s m e =>
      if 0 <=? e then inject_Z (cond_Zopp s (Zpos m) * 2 ^ e)
      else Qmake (cond_Zopp s (Zpos m)) (Z.to_pos (2 ^ (- e)))
  | _ => 0%Q
  end.

Definition is_finite (x : number) : bool :=
  match x with
  | S754_finite _ _ _ | S754_zero _ => true
  | _ => false
  end.

(** A number is zero, of either sign. *)
Definition is_zero (x : number) : bool :=
  match x with S754_zero _ => true | _ => false end.

(** [String.prototype.toUpperCase] on the letters a to z; it is the
    built-in on strings of ASCII characters, and serves to run the
    definitions on rows. *)
Definition toUpperCase_ascii (s : jsstring) : jsstring :=
  map (fun c => if (97 <=? c) && (c <=? 122) then c - 32 else c) s.

(** A row of an export, for running the definitions. *)
Definition example_row (payer recipient iban amountRaw kundenreferenz : option jsstring)
    : DkbRawRow :=
  {| Buchungsdatum := Some (lit "05.03.24");
     Wertstellung := Some (lit "05.03.24");
     Status := Some (lit "Gebucht");
     Zahlungspflichtige_r := payer;
     Zahlungsempfaenger_in := recipient;
     Verwendungszweck := Some (lit "Miete");
     Umsatztyp := Some (lit "Ausgang");
     IBAN := iban;
     Betrag := amountRaw;
     Glaeubiger_ID := None;
     Mandatsreferenz := None;
     Kundenreferenz := kundenreferenz |}.

(** A summary line at the end of an export: no amount. *)
Definition summary_row : DkbRawRow :=
  {| Buchungsdatum := Some (lit "Kontostand");
     Wertstellung := None; Status := None; Zahlungspflichtige_r := None;
     Zahlungsempfaenger_in := None; Verwendungszweck := None; Umsatztyp := None;
     IBAN := None; Betrag := None; Glaeubiger_ID := None; Mandatsreferenz := None;
     Kundenreferenz := None |}.

(** A stand-in for the CSV package that has its answer for the empty
    text, an empty array of rows, and rejects every other text; it serves to
    run [parseDkbCsv] on contents that leave no text to parse. *)
Definition csv_parse_empty_text_only (text : jsstring) : result (list DkbRawRow) :=
  if is_empty text then Ok [] else Throw (lit "text is not empty").

(** A file of two metadata lines, and a file of four lines followed by
    an empty fifth line. *)
Definition two_line_content : jsstring :=
  lit "Girokonto;DE02120300000000202051" ++ 10 :: lit "Kontostand".

Definition empty_header_content : jsstring :=
  lit "a" ++ 10 :: lit "b" ++ 10 :: lit "c" ++ 10 :: lit "d" ++ 10 :: [].

(** ** File discovery *)

(** [x + y] on numbers. *)
Definition number_add (x y : number) : number := SFadd prec emax x y.

(** A [Date] as [findDkbFile] reads it: what [getDate], [getMonth] and
    [getFullYear] return in local time (all three are [NaN] for an
    invalid date). *)
Record JsDate := {
  getDate : number;
  getMonth : number;
  getFullYear : number
}.

Section FileDiscovery.

(** The clock ([new Date()]), the home directory ([homedir()]), [join]
    of [node:path] on two segments and [existsSync] of [node:fs]. *)
Variable now : JsDate.
Variable homedir : jsstring.
Variable path_join : jsstring -> jsstring -> jsstring.
Variable existsSync : jsstring -> bool.

(** [dateStr] of [findDkbFile]. *)
Definition dateStr (d : JsDate) : jsstring :=
  let dd := padStart 2 48 (Number_toString (getDate d)) in
  let mm := padStart 2 48 (Number_toString (number_add (getMonth d) (of_Z 1))) in
  let yyyy := getFullYear d in
  dd ++ lit "-" ++ mm ++ lit "-" ++ Number_toString yyyy.

(** [patterns] of [findDkbFile]. *)
Definition patterns (iban : jsstring) (d : JsDate) : list jsstring :=
  [ dateStr d ++ lit "_Umsatzliste_Girokonto_" ++ iban ++ lit ".csv";
    dateStr d ++ lit "_Umsatzliste_Tagesgeld_" ++ iban ++ lit ".csv" ].

(** The loop over the patterns: the first path that exists. *)
Fixpoint firstExisting (downloads : jsstring) (filenames : list jsstring)
    : option jsstring :=
  match filenames with
  | [] => None
  | filename :: rest =>
      let filePath := path_join downloads filename in
      if existsSync filePath then Some filePath else firstExisting downloads rest
  end.

(** [findDkbFile(iban, date)]; [None] is [null], and a caller that leaves
    the date out passes [None]. *)
Definition findDkbFile (iban : jsstring) (date : option JsDate) : option jsstring :=
  let d := match date with Some d => d | None => now end in
  let downloads := path_join homedir (lit "Downloads") in
  firstExisting downloads (patterns iban d).

End FileDiscovery.

(** ** Configuration ([config.ts]) *)

Module Config.

(** [DkbAccount] *)
Record DkbAccount := {
  name : jsstring;
  iban : jsstring;
  syncId : jsstring
}.

(** [Config] *)
Record Config := {
  serverURL : jsstring;
  password : jsstring;
  dataDir : jsstring;
  accounts : list DkbAccount;
  ownIbans : list jsstring
}.

(** [process.env]: a variable that is not set is [undefined]. *)
Definition Env := jsstring -> option jsstring.

(** [ACCOUNT_${i}_NAME] and its like; the counter of the loop is printed
    as a number is. *)
Definition account_variable (i : Z) (field : jsstring) : jsstring :=
  lit "ACCOUNT_" ++ Number_toString (of_Z i) ++ lit "_" ++ field.

(** [[!a && "A", !b && "B", ...].filter(Boolean)]: the names of the
    variables that are unset or empty. *)
Definition missing_variables (vars : list (option jsstring * jsstring)) : list jsstring :=
  map snd (filter (fun v => negb (truthy (fst v))) vars).

Definition no_accounts_message : jsstring :=
  lit "No accounts configured. Add ACCOUNT_0_NAME, ACCOUNT_0_IBAN, ACCOUNT_0_SYNC_ID to .env".

(** The loop of [loadAccounts] from index [i] on, and the check that
    follows it.  The loop has no bound of its own: [fuel] bounds the
    number of turns, and [None] is a loop that has not ended within it. *)
Fixpoint loadAccountsFrom (fuel : nat) (env : Env) (i : Z) (accounts : list DkbAccount)
    : option (result (list DkbAccount)) :=
  match fuel with
  | O => None
  | S fuel' =>
      let name := env (account_variable i (lit "NAME")) in
      let iban := env (account_variable i (lit "IBAN")) in
      let syncId := env (account_variable i (lit "SYNC_ID")) in
      if negb (truthy name) && negb (truthy iban) && negb (truthy syncId) then
        match accounts with
        | [] => Some (Throw no_accounts_message)
        | _ :: _ => Some (Ok accounts)
        end
      else
        match missing_variables
                [ (name, account_variable i (lit "NAME"));
                  (iban, account_variable i (lit "IBAN"));
                  (syncId, account_variable i (lit "SYNC_ID")) ] with
        | [] =>
            loadAccountsFrom fuel' env (i + 1)
              (accounts ++ [ {| name := or_empty name;
                                iban := or_empty iban;
                                syncId := or_empty syncId |} ])
        | missing =>
            Some (Throw (lit "Incomplete account config, missing: "
                         ++ join (lit ", ") missing))
        end
  end.

(** [loadAccounts] *)
Definition loadAccounts (fuel : nat) (env : Env) : option (result (list DkbAccount)) :=
  loadAccountsFrom fuel env 0 [].

(** [[...new Set(values)]]: the values in the order of their first
    occurrence, each once. *)
Fixpoint setOf (seen values : list jsstring) : list jsstring :=
  match values with
  | [] => seen
  | v :: rest => setOf (if includes seen v then seen else seen ++ [v]) rest
  end.

(** [extraIbans] of [loadConfig]. *)
Definition extraIbans (env : Env) : list jsstring :=
  filter (fun s => negb (is_empty s))
    (map trim (split 44 (match env (lit "OWN_IBANS") with Some s => s | None => [] end))).

(** [loadConfig] *)
Definition loadConfig (fuel : nat) (env : Env) : option (result Config) :=
  let serverURL := env (lit "ACTUAL_SERVER_URL") in
  let password := env (lit "ACTUAL_PASSWORD") in
  if negb (truthy serverURL) || negb (truthy password) then
    Some (Throw (lit "Missing required environment variables: "
                 ++ join (lit ", ")
                      (missing_variables
                         [ (serverURL, lit "ACTUAL_SERVER_URL");
                           (password, lit "ACTUAL_PASSWORD") ])))
  else
    match loadAccounts fuel env with
    | None => None
    | Some (Throw msg) => Some (Throw msg)
    | Some (Ok accounts) =>
        Some (Ok {|
          serverURL := or_empty serverURL;
          password := or_empty password;
          dataDir := match env (lit "ACTUAL_DATA_DIR") with
                     | Some dir => dir
                     | None => lit "./cache"
                     end;
          accounts := accounts;
          ownIbans := setOf [] (map iban accounts ++ extraIbans env)
        |})
    end.

End Config.

(** ** Grouping the accounts by budget ([index.ts]) *)

Module Main.

(** A [Map] with string keys: its entries in the order of insertion. *)
Fixpoint map_get {V : Type} (m : list (jsstring * V)) (key : jsstring) : option V :=
  match m with
  | [] => None
  | (k, v) :: rest => if JsString.eqb k key then Some v else map_get rest key
  end.

(** [m.set(key, value)]: the value of a key already in the map is
    replaced in place, a new key is added at the end. *)
Fixpoint map_set {V : Type} (m : list (jsstring * V)) (key : jsstring) (value : V)
    : list (jsstring * V) :=
  match m with
  | [] => [(key, value)]
  | (k, v) :: rest =>
      if JsString.eqb k key then (k, value) :: rest else (k, v) :: map_set rest key value
  end.

(** [byBudget] of [main] after its loop over [config.accounts]. *)
Definition byBudget (accounts : list Config.DkbAccount)
    : list (jsstring * list Config.DkbAccount) :=
  fold_left
    (fun m account =>
       let group := match map_get m (Config.syncId account) with
                    | Some g => g
                    | None => []
                    end in
       map_set m (Config.syncId account) (group ++ [account]))
    accounts [].

End Main.

(** ** Looking an account up by name ([actual.ts]) *)

Section AccountLookup.

(** [String.prototype.toLowerCase], a built-in of the host. *)
Variable toLowerCase : jsstring -> jsstring.

(** [getActualAccountId], from the accounts [api.getAccounts()] returned,
    each an id and a name. *)
Definition getActualAccountId (accounts : list (jsstring * jsstring)) (name : jsstring)
    : result jsstring :=
  match find (fun a => JsString.eqb (toLowerCase (snd a)) (toLowerCase name)) accounts with
  | Some a => Ok (fst a)
  | None =>
      let available :=
        join (lit ", ") (map (fun a => [34] ++ snd a ++ [34]) accounts) in
      Throw (lit "Konto " ++ [34] ++ name ++ [34]
             ++ lit " nicht in Actual Budget gefunden. Verf" ++ [252]
             ++ lit "gbare Konten: " ++ available)
  end.

End AccountLookup.

(** ** The run ([index.ts] and [actual.ts]) *)

Module Run.

(** What [api.importTransactions] resolves to; a field the API leaves out
    is [undefined]. *)
Record ImportResult := {
  errors : option (list jsstring);
  added : option (list jsstring);
  updated : option (list jsstring)
}.

(** What the program does to the outside, in the order in which it does
    it: the calls of the Actual API, the lines written to the console, and
    the exit of the process. *)
Inductive Event :=
  | ApiInit (dataDir serverURL password : jsstring)
  | ApiDownloadBudget (syncId : jsstring)
  | ApiSync
  | ApiGetAccounts
  | ApiImportTransactions (accountId : jsstring) (transactions : list ActualTransaction)
  | ApiShutdown
  | ConsoleLog (line : jsstring)
  | ConsoleError (label : jsstring) (details : list jsstring)
  | ProcessExit (code : Z).

(** The host of the program: the Actual API, the file system, the clock
    and the environment, over the state of the outside world.  A call of
    the API answers or throws, and changes the world. *)
Record Host (World : Type) := {
  api_init : jsstring -> jsstring -> jsstring -> World -> result unit * World;
  api_downloadBudget : jsstring -> World -> result unit * World;
  api_sync : World -> result unit * World;
  api_getAccounts : World -> result (list (jsstring * jsstring)) * World;
  api_importTransactions :
    jsstring -> list ActualTransaction -> World -> result ImportResult * World;
  api_shutdown : World -> result unit * World;
  now : World -> JsDate;
  homedir : World -> jsstring;
  path_join : jsstring -> jsstring -> jsstring;
  existsSync : World -> jsstring -> bool;
  readFileSync : World -> jsstring -> result jsstring;
  csv_parse : jsstring -> result (list DkbRawRow);
  toUpperCase : jsstring -> jsstring;
  toLowerCase : jsstring -> jsstring;
  env : Config.Env
}.

Arguments api_init {World}.
Arguments api_downloadBudget {World}.
Arguments api_sync {World}.
Arguments api_getAccounts {World}.
Arguments api_importTransactions {World}.
Arguments api_shutdown {World}.
Arguments now {World}.
Arguments homedir {World}.
Arguments path_join {World}.
Arguments existsSync {World}.
Arguments readFileSync {World}.
Arguments csv_parse {World}.
Arguments toUpperCase {World}.
Arguments toLowerCase {World}.
Arguments env {World}.

Section Program.

Variable World : Type.
Variable host : Host World.

(** The state of a run: the world, and what has been done so far. *)
Record State := { world : World; trace : list Event }.

(** A step of the program: it returns or throws, and leaves a state. *)
Definition M (A : Type) : Type := State -> result A * State.

Definition ret {A : Type} (a : A) : M A := fun st => (Ok a, st).

Definition bindM {A B : Type} (m : M A) (k : A -> M B) : M B :=
  fun st =>
    match m st with
    | (Ok a, st') => k a st'
    | (Throw msg, st') => (Throw msg, st')
    end.

Notation "'run' x <- m ; k" := (bindM m (fun x => k))
  (at level 10, x name, m at level 100, k at level 200).

(** A value computed without the outside, or an error thrown. *)
Definition lift {A : Type} (r : result A) : M A := fun st => (r, st).

(** Something read from the world. *)
Definition read {A : Type} (f : World -> A) : M A := fun st => (Ok (f (world st)), st).

Definition emit (e : Event) : M unit :=
  fun st => (Ok tt, {| world := world st; trace := trace st ++ [e] |}).

(** An awaited call of the API. *)
Definition call {A : Type} (e : Event) (f : World -> result A * World) : M A :=
  fun st =>
    let '(r, w) := f (world st) in
    (r, {| world := w; trace := trace st ++ [e] |}).

(** [console.log(line)] *)
Definition log (line : jsstring) : M unit := emit (ConsoleLog line).

(** [for (const x of items) body] *)
Fixpoint forEach {A : Type} (body : A -> M unit) (items : list A) : M unit :=
  match items with
  | [] => ret tt
  | x :: rest => run _ <- body x; forEach body rest
  end.

(** [try { body } finally { cleanup }]: the cleanup runs however the
    body ends; what it throws replaces the outcome of the body. *)
Definition finally {A : Type} (body : M A) (cleanup : M unit) : M A :=
  fun st =>
    let '(r, st1) := body st in
    match cleanup st1 with
    | (Ok _, st2) => (r, st2)
    | (Throw msg, st2) => (Throw msg, st2)
    end.

(** [String(items.length)] *)
Definition length_text {A : Type} (items : list A) : jsstring :=
  Number_toString (of_Z (Z.of_nat (List.length items))).

(** *** [actual.ts] *)

Definition init (config : Config.Config) : M unit :=
  call (ApiInit (Config.dataDir config) (Config.serverURL config) (Config.password config))
       (api_init host (Config.dataDir config) (Config.serverURL config)
          (Config.password config)).

Definition connectToBudget (syncId : jsstring) : M unit :=
  run _ <- call (ApiDownloadBudget syncId) (api_downloadBudget host syncId);
  run _ <- call ApiSync (api_sync host);
  log (lit "  Budget geladen und synchronisiert: " ++ syncId).

(** [getActualAccountId], with the call that fetches the accounts. *)
Definition fetchActualAccountId (name : jsstring) : M jsstring :=
  run accounts <- call ApiGetAccounts (api_getAccounts host);
  lift (getActualAccountId (toLowerCase host) accounts name).

Definition importToAccount (accountId : jsstring) (transactions : list ActualTransaction)
    : M (list jsstring * list jsstring) :=
  run result <- call (ApiImportTransactions accountId transactions)
                     (api_importTransactions host accountId transactions);
  run _ <- match errors result with
           | Some (e :: rest) => emit (ConsoleError (lit "Import errors:") (e :: rest))
           | _ => ret tt
           end;
  ret (match added result with Some a => a | None => [] end,
       match updated result with Some u => u | None => [] end).

Definition syncBudget : M unit := call ApiSync (api_sync host).

Definition shutdown : M unit :=
  run _ <- call ApiShutdown (api_shutdown host);
  log (lit "Actual Budget API beendet.").

(** *** [index.ts] *)

(** [parseDkbCsv(filePath)], with the read of the file. *)
Definition readDkbCsv (filePath : jsstring) : M (list DkbRawRow) :=
  run content <- (fun st => (readFileSync host (world st) filePath, st));
  lift (parseDkbCsv (csv_parse host) content).

(** The body of the loop over the accounts of a budget. *)
Definition processAccount (config : Config.Config) (account : Config.DkbAccount) : M unit :=
  run _ <- log (10 :: lit "--- " ++ Config.name account ++ lit " ("
                ++ Config.iban account ++ lit ") ---");
  run found <- read (fun w => findDkbFile (now host w) (homedir host w) (path_join host)
                                (existsSync host w) (Config.iban account) None);
  match found with
  | Some (c :: p) =>
      let filePath := c :: p in
      run _ <- log (lit "  Gefunden: " ++ filePath);
      run rows <- readDkbCsv filePath;
      run _ <- log (lit "  " ++ length_text rows ++ lit " Zeilen geparst.");
      match rows with
      | [] => log (lit "  Keine Transaktionen. " ++ 220 :: lit "berspringe.")
      | _ :: _ =>
          run actualAccountId <- fetchActualAccountId (Config.name account);
          run _ <- log (lit "  Actual-Konto-ID: " ++ actualAccountId);
          run transactions <-
            lift (transformToActualTransactions (toUpperCase host) actualAccountId
                    (Config.ownIbans config) rows);
          run _ <- log (lit "  " ++ length_text transactions
                        ++ lit " Transaktionen transformiert.");
          run result <- importToAccount actualAccountId transactions;
          log (lit "  Importiert: " ++ length_text (fst result) ++ lit " neu, "
               ++ length_text (snd result) ++ lit " aktualisiert.")
      end
  | _ => log (lit "  Keine CSV-Datei in ~/Downloads gefunden. " ++ 220 :: lit "berspringe.")
  end.

(** The body of the loop over the budgets. *)
Definition processBudget (config : Config.Config)
    (budget : jsstring * list Config.DkbAccount) : M unit :=
  run _ <- log (10 :: lit "=== Budget: " ++ fst budget ++ lit " ===");
  run _ <- connectToBudget (fst budget);
  run _ <- forEach (processAccount config) (snd budget);
  run _ <- syncBudget;
  log (lit "  Budget synchronisiert.").

(** [main], after [loadConfig] has returned [config]. *)
Definition mainWith (config : Config.Config) : M unit :=
  run _ <- init config;
  run _ <- finally (forEach (processBudget config) (Main.byBudget (Config.accounts config)))
                   shutdown;
  log (10 :: lit "Fertig.").

(** [main]; [None] is a loop of [loadAccounts] that has not ended within
    the fuel. *)
Definition main (fuel : nat) : option (M unit) :=
  match Config.loadConfig fuel (env host) with
  | None => None
  | Some (Throw msg) => Some (lift (Throw msg))
  | Some (Ok config) => Some (mainWith config)
  end.

(** The program: [main().catch(...)], from a state of the world to the
    state in which the process ends. *)
Definition program (fuel : nat) (st : State) : option State :=
  match main fuel with
  | None => None
  | Some m =>
      match m st with
      | (Ok _, st') => Some st'
      | (Throw msg, st') =>
          Some {| world := world st';
                  trace := trace st' ++ [ConsoleError (lit "Fataler Fehler:") [msg];
                                         ProcessExit 1] |}
      end
  end.

End Program.

Arguments world {World}.
Arguments trace {World}.

End Run.

(** ** Vocabulary of the further statements *)

(** The transaction a turn of the loop pushes, if any. *)
Definition pushed_of (r : result (option ActualTransaction)) : list ActualTransaction :=
  match r with
  | Ok (Some t) => [t]
  | _ => []
  end.

(** A turn of the loop that throws. *)
Definition throws {A : Type} (r : result A) : bool :=
  match r with
  | Throw _ => true
  | Ok _ => false
  end.

(** Two rows that agree on the six columns the transformation reads. *)
Definition same_read_columns (r1 r2 : DkbRawRow) : Prop :=
  Buchungsdatum r1 = Buchungsdatum r2 /\
  Zahlungspflichtige_r r1 = Zahlungspflichtige_r r2 /\
  Zahlungsempfaenger_in r1 = Zahlungsempfaenger_in r2 /\
  Verwendungszweck r1 = Verwendungszweck r2 /\
  IBAN r1 = IBAN r2 /\
  Betrag r1 = Betrag r2.

(** A string that neither starts nor ends with white space. *)
Definition no_outer_white_space (s : jsstring) : Prop :=
  match s with c :: _ => is_white_space c = false | [] => True end /\
  match rev s with c :: _ => is_white_space c = false | [] => True end.

(** A transaction of an export, its fields as the loop fills them in
    whatever the row holds. *)
Definition well_formed_for (acct : jsstring) (t : ActualTransaction) : Prop :=
  account t = acct /\
  cleared t = true /\
  no_outer_white_space (payee_name t) /\
  no_outer_white_space (imported_payee t).

(** An own IBAN with a white-space character at one of its ends, an
    unpadded one, and the empty string. *)
Definition padded_iban : jsstring := lit " DE02120300000000202051".
Definition plain_iban : jsstring := lit "DE02120300000000202051".

(** The two and the four decimal digits of a number below 100 and
    below 10000. *)
Definition two_digits (k : Z) : jsstring := [48 + k / 10; 48 + k mod 10].

Definition four_digits (y : Z) : jsstring :=
  [48 + y / 1000; 48 + (y / 100) mod 10; 48 + (y / 10) mod 10; 48 + y mod 10].

(** The name DKB gives the export of an account on a day; [month] counts
    from 0 as [getMonth] does. *)
Definition export_name (kind iban : jsstring) (day month year : Z) : jsstring :=
  two_digits day ++ lit "-" ++ two_digits (month + 1) ++ lit "-" ++ four_digits year
  ++ lit "_Umsatzliste_" ++ kind ++ lit "_" ++ iban ++ lit ".csv".

(** The integers from [lo], [n] of them. *)
Definition range (lo n : Z) : list Z :=
  map (fun i => lo + Z.of_nat i) (seq 0 (Z.to_nat n)).

(** A file system with one file, and [path.join] on two relative-free
    segments, for running [findDkbFile]. *)
Definition join_with_slash (a b : jsstring) : jsstring := a ++ lit "/" ++ b.

Definition only_file (path : jsstring) (p : jsstring) : bool := JsString.eqb p path.

(** The exports of 5 March 2024 of an account, where a user of the
    name [u] has downloaded them. *)
Definition giro_export : jsstring :=
  lit "/home/u/Downloads/05-03-2024_Umsatzliste_Girokonto_DE02120300000000202051.csv".

Definition tagesgeld_export : jsstring :=
  lit "/home/u/Downloads/05-03-2024_Umsatzliste_Tagesgeld_DE02120300000000202051.csv".

(** The three variables of the account of index [i]: none of them set,
    all of them set, and the account they describe. *)
Definition account_unset (env : Config.Env) (i : Z) : bool :=
  negb (truthy (env (Config.account_variable i (lit "NAME"))))
  && negb (truthy (env (Config.account_variable i (lit "IBAN"))))
  && negb (truthy (env (Config.account_variable i (lit "SYNC_ID")))).

Definition account_complete (env : Config.Env) (i : Z) : bool :=
  truthy (env (Config.account_variable i (lit "NAME")))
  && truthy (env (Config.account_variable i (lit "IBAN")))
  && truthy (env (Config.account_variable i (lit "SYNC_ID"))).

Definition account_at (env : Config.Env) (i : Z) : Config.DkbAccount :=
  {| Config.name := or_empty (env (Config.account_variable i (lit "NAME")));
     Config.iban := or_empty (env (Config.account_variable i (lit "IBAN")));
     Config.syncId := or_empty (env (Config.account_variable i (lit "SYNC_ID"))) |}.

(** The names of the variables of the account of index [i] that are not
    set, in the order of the source. *)
Definition account_missing (env : Config.Env) (i : Z) : list jsstring :=
  (if truthy (env (Config.account_variable i (lit "NAME"))) then []
   else [Config.account_variable i (lit "NAME")])
  ++ (if truthy (env (Config.account_variable i (lit "IBAN"))) then []
      else [Config.account_variable i (lit "IBAN")])
  ++ (if truthy (env (Config.account_variable i (lit "SYNC_ID"))) then []
      else [Config.account_variable i (lit "SYNC_ID")]).

(** An environment given by the list of its variables. *)
Fixpoint env_of (vars : list (jsstring * jsstring)) : Config.Env :=
  fun key =>
    match vars with
    | [] => None
    | (k, v) :: rest => if JsString.eqb k key then Some v else env_of rest key
    end.

(** Two accounts of one budget, and a third account after a gap in the
    numbering. *)
Definition example_env : Config.Env :=
  env_of [ (lit "ACTUAL_SERVER_URL", lit "https://budget.example");
           (lit "ACTUAL_PASSWORD", lit "secret");
           (lit "ACCOUNT_0_NAME", lit "Giro");
           (lit "ACCOUNT_0_IBAN", lit "DE02120300000000202051");
           (lit "ACCOUNT_0_SYNC_ID", lit "budget-1");
           (lit "ACCOUNT_1_NAME", lit "Tagesgeld");
           (lit "ACCOUNT_1_IBAN", lit "DE02500105170137075030");
           (lit "ACCOUNT_1_SYNC_ID", lit "budget-1");
           (lit "ACCOUNT_3_NAME", lit "Depot");
           (lit "ACCOUNT_3_IBAN", lit "DE02100500000054540402");
           (lit "ACCOUNT_3_SYNC_ID", lit "budget-2");
           (lit "OWN_IBANS", lit " DE02300209000106531065 ,,DE02120300000000202051") ].

(** The same with the IBAN of the second account left out. *)
Definition incomplete_env : Config.Env :=
  env_of [ (lit "ACCOUNT_0_NAME", lit "Giro");
           (lit "ACCOUNT_0_IBAN", lit "DE02120300000000202051");
           (lit "ACCOUNT_0_SYNC_ID", lit "budget-1");
           (lit "ACCOUNT_1_NAME", lit "Tagesgeld");
           (lit "ACCOUNT_1_IBAN", []) ].

(** The accounts of a budget, and the budgets of a list of accounts in
    the order in which they first occur. *)
Definition in_budget (syncId : jsstring) (account : Config.DkbAccount) : bool :=
  JsString.eqb (Config.syncId account) syncId.

Definition budgets (accounts : list Config.DkbAccount) : list jsstring :=
  Config.setOf [] (map Config.syncId accounts).

(** The amount in cents that a field of digits with two decimals
    stands for: [digits] are the digits with the comma left out. *)
Definition cents (neg : bool) (digits : jsstring) : number :=
  if digits_value digits =? 0 then S754_zero neg
  else of_Z (cond_Zopp neg (digits_value digits)).

(** The calls of the Actual API among the events of a run. *)
Definition is_api_call (e : Run.Event) : bool :=
  match e with
  | Run.ConsoleLog _ | Run.ConsoleError _ _ | Run.ProcessExit _ => false
  | _ => true
  end.

(** The events between the initialisation and the shutdown. *)
Definition inside_a_run (e : Run.Event) : bool :=
  match e with
  | Run.ApiInit _ _ _ | Run.ApiShutdown | Run.ProcessExit _ => false
  | _ => true
  end.

(** The events of the work on one account. *)
Definition account_event (e : Run.Event) : bool :=
  match e with
  | Run.ApiGetAccounts | Run.ApiImportTransactions _ _
  | Run.ConsoleLog _ | Run.ConsoleError _ _ => true
  | _ => false
  end.

(** The events of the work on one budget after its download. *)
Definition budget_event (e : Run.Event) : bool :=
  match e with
  | Run.ApiSync => true
  | _ => account_event e
  end.

(** The budgets downloaded, in the order of the downloads. *)
Definition downloaded (events : list Run.Event) : list jsstring :=
  flat_map (fun e => match e with Run.ApiDownloadBudget syncId => [syncId] | _ => [] end)
           events.

(** A step that only adds events, all of them of one kind. *)
Definition emits {World A : Type} (kind : Run.Event -> bool) (m : Run.M World A) : Prop :=
  forall st, exists events,
    Run.trace (snd (m st)) = Run.trace st ++ events /\ forallb kind events = true.

(** [String.prototype.toLowerCase] on the letters A to Z. *)
Definition toLowerCase_ascii (s : jsstring) : jsstring :=
  map (fun c => if (65 <=? c) && (c <=? 90) then c + 32 else c) s.

(** A host for running the program: the export of the first account of
    [example_env] has been downloaded and holds one payment, the budget has
    the accounts given, and every call of the API answers. *)
Definition example_host (budgetAccounts : list (jsstring * jsstring)) : Run.Host unit :=
  {| Run.api_init := fun _ _ _ w => (Ok tt, w);
     Run.api_downloadBudget := fun _ w => (Ok tt, w);
     Run.api_sync := fun w => (Ok tt, w);
     Run.api_getAccounts := fun w => (Ok budgetAccounts, w);
     Run.api_importTransactions := fun _ transactions w =>
       (Ok {| Run.errors := None;
              Run.added := Some (map imported_id transactions);
              Run.updated := None |}, w);
     Run.api_shutdown := fun w => (Ok tt, w);
     Run.now := fun _ => {| getDate := of_Z 5; getMonth := of_Z 2; getFullYear := of_Z 2024 |};
     Run.homedir := fun _ => lit "/home/u";
     Run.path_join := join_with_slash;
     Run.existsSync := fun _ => only_file giro_export;
     Run.readFileSync := fun _ _ => Ok two_line_content;
     Run.csv_parse := fun _ =>
       Ok [example_row None (Some (lit "Bob")) None (Some (lit "-12,50")) None];
     Run.toUpperCase := toUpperCase_ascii;
     Run.toLowerCase := toLowerCase_ascii;
     Run.env := example_env |}.

(** The state in which a run starts. *)
Definition initial_state : Run.State unit := {| Run.world := tt; Run.trace := [] |}.

(** * Properties *)

(** ** The loop body *)

Section TransformationFacts.

Variable toUpperCase : jsstring -> jsstring.
Variable actualAccountId : jsstring.
Variable ownIbans : list jsstring.

(** A skipped row is passed over: nothing is pushed, nothing is thrown. *)
Lemma transformRow_skipped (row : DkbRawRow) :
  skipped row = true ->
  transformRow toUpperCase actualAccountId ownIbans row = Ok None.
Proof.
  unfold skipped, transformRow.
  destruct (Betrag row) as [[|a ar]|]; destruct (Buchungsdatum row) as [[|d dr]|];
    simpl; intros H; try reflexivity; discriminate.
Qed.

(** What a row that is not skipped does: both fields are parsed, and the
    transaction is assembled from the parsed values. *)
Lemma transformRow_kept (row : DkbRawRow) :
  skipped row = false ->
  transformRow toUpperCase actualAccountId ownIbans row =
    try amountFloat <- parseGermanDecimal (or_empty (Betrag row));
    try date <- parseGermanDate (or_empty (Buchungsdatum row));
    Ok (Some {|
      account := actualAccountId;
      date := date;
      amount := amountToInteger amountFloat;
      payee_name := trim (payeeName toUpperCase ownIbans row amountFloat);
      imported_payee := trim (importedPayee toUpperCase ownIbans row amountFloat);
      notes := or_empty (Verwendungszweck row);
      imported_id :=
        generateImportedId date (amountToInteger amountFloat)
          (payeeName toUpperCase ownIbans row amountFloat)
          (or_empty (Verwendungszweck row));
      cleared := true |}).
Proof.
  unfold skipped, transformRow.
  destruct (Betrag row) as [[|a ar]|]; destruct (Buchungsdatum row) as [[|d dr]|];
    simpl; intros H; try discriminate; reflexivity.
Qed.

(** Inversion of a pushed transaction. *)
Lemma transformRow_pushed (row : DkbRawRow) (t : ActualTransaction) :
  transformRow toUpperCase actualAccountId ownIbans row = Ok (Some t) ->
  skipped row = false /\
  exists amountFloat dateIso,
    parseGermanDecimal (or_empty (Betrag row)) = Ok amountFloat /\
    parseGermanDate (or_empty (Buchungsdatum row)) = Ok dateIso /\
    account t = actualAccountId /\
    date t = dateIso /\
    amount t = amountToInteger amountFloat /\
    payee_name t = trim (payeeName toUpperCase ownIbans row amountFloat) /\
    imported_payee t = trim (importedPayee toUpperCase ownIbans row amountFloat) /\
    notes t = or_empty (Verwendungszweck row) /\
    imported_id t =
      generateImportedId dateIso (amountToInteger amountFloat)
        (payeeName toUpperCase ownIbans row amountFloat)
        (or_empty (Verwendungszweck row)) /\
    cleared t = true.
Proof.
  intros H.
  destruct (skipped row) eqn:Hs.
  - rewrite (transformRow_skipped row Hs) in H. discriminate.
  - split; [reflexivity|].
    rewrite (transformRow_kept row Hs) in H.
    destruct (parseGermanDecimal (or_empty (Betrag row))) as [v|m]; simpl in H;
      [|discriminate].
    destruct (parseGermanDate (or_empty (Buchungsdatum row))) as [d|m]; simpl in H;
      [|discriminate].
    injection H as <-. exists v, d. simpl. repeat split; reflexivity.
Qed.

End TransformationFacts.

(** Runs the loop body on a row that is listed in full and is pushed:
    the transaction and the equation of the run are named. *)
Tactic Notation "run_row" constr(run) "as" ident(t) ident(Hrun) :=
  destruct run as [[t|]|?] eqn:Hrun;
  [ | exfalso; vm_compute in Hrun; discriminate
    | exfalso; vm_compute in Hrun; discriminate ].

(** ** The customer reference and the deduplication key *)

(** The loop sees a row only through [transformRow]: rows with equal
    outcomes can be exchanged anywhere in the input. *)
Lemma transformLoop_exchange (up : jsstring -> jsstring) (acct : jsstring)
    (own : list jsstring) (r1 r2 : DkbRawRow) (before after : list DkbRawRow) :
  transformRow up acct own r1 = transformRow up acct own r2 ->
  forall pushed,
    transformLoop up acct own (before ++ r1 :: after) pushed =
    transformLoop up acct own (before ++ r2 :: after) pushed.
Proof.
  intros Heq. induction before as [|b before IH]; intros pushed; simpl.
  - rewrite Heq. reflexivity.
  - destruct (transformRow up acct own b) as [[t|]|m]; simpl; auto.
Qed.

(** C1. Rows that are identical except in the Kundenreferenz field have
    the same outcome in the loop, so the transactions pushed for them carry
    the same imported_id, and exchanging one row for the other anywhere in
    the input leaves the output of transformToActualTransactions unchanged:
    the fifth argument of the call of generateImportedId is dropped. *)
Theorem customer_reference_never_affects_imported_id
    (up : jsstring -> jsstring) (acct : jsstring) (own : list jsstring)
    (r1 r2 : DkbRawRow) :
  same_except_Kundenreferenz r1 r2 ->
  transformRow up acct own r1 = transformRow up acct own r2 /\
  (forall t1 t2,
      transformRow up acct own r1 = Ok (Some t1) ->
      transformRow up acct own r2 = Ok (Some t2) ->
      imported_id t1 = imported_id t2) /\
  (forall before after,
      transformToActualTransactions up acct own (before ++ r1 :: after) =
      transformToActualTransactions up acct own (before ++ r2 :: after)).
Proof.
  intros Hsame.
  assert (Heq : transformRow up acct own r1 = transformRow up acct own r2).
  { destruct r1, r2. unfold same_except_Kundenreferenz in Hsame. simpl in Hsame.
    destruct Hsame as (-> & -> & -> & -> & -> & -> & -> & -> & -> & -> & ->).
    reflexivity. }
  split; [exact Heq|]. split.
  - intros t1 t2 H1 H2. rewrite Heq in H1. rewrite H1 in H2.
    injection H2 as ->. reflexivity.
  - intros before after. unfold transformToActualTransactions.
    apply transformLoop_exchange. exact Heq.
Qed.

(** Two rows of one export that differ in the customer reference only:
    both are pushed, with one imported_id. *)
Lemma customer_reference_never_affects_imported_id_witness :
  same_except_Kundenreferenz
    (example_row None (Some (lit "Bob")) None (Some (lit "-12,50")) (Some (lit "REF-1")))
    (example_row None (Some (lit "Bob")) None (Some (lit "-12,50")) (Some (lit "REF-2"))) /\
  exists t1 t2,
    transformRow toUpperCase_ascii (lit "acct") []
      (example_row None (Some (lit "Bob")) None (Some (lit "-12,50")) (Some (lit "REF-1")))
      = Ok (Some t1) /\
    transformRow toUpperCase_ascii (lit "acct") []
      (example_row None (Some (lit "Bob")) None (Some (lit "-12,50")) (Some (lit "REF-2")))
      = Ok (Some t2) /\
    imported_id t1 = imported_id t2.
Proof.
  assert (Hsame : same_except_Kundenreferenz
    (example_row None (Some (lit "Bob")) None (Some (lit "-12,50")) (Some (lit "REF-1")))
    (example_row None (Some (lit "Bob")) None (Some (lit "-12,50")) (Some (lit "REF-2")))).
  { unfold same_except_Kundenreferenz. simpl. repeat split. }
  split; [exact Hsame|].
  destruct (customer_reference_never_affects_imported_id
              toUpperCase_ascii (lit "acct") [] _ _ Hsame) as (Heq & Hid & _).
  run_row (transformRow toUpperCase_ascii (lit "acct") []
              (example_row None (Some (lit "Bob")) None (Some (lit "-12,50"))
                 (Some (lit "REF-1"))))
    as t1 H1.
  exists t1, t1. split; [reflexivity|]. split; [symmetry; exact Heq|reflexivity].
Defined.

(** ** Skipped rows and pushed rows *)

(** The loop over rows all of which are skipped or parse: every kept row
    pushes one transaction after those pushed before. *)
Lemma transformLoop_parsed (up : jsstring -> jsstring) (acct : jsstring)
    (own : list jsstring) (rows : list DkbRawRow) :
  (forall row, In row rows -> skipped row = false ->
     (exists v, parseGermanDecimal (or_empty (Betrag row)) = Ok v) /\
     (exists d, parseGermanDate (or_empty (Buchungsdatum row)) = Ok d)) ->
  forall pushed, exists txs,
    transformLoop up acct own rows pushed = Ok (pushed ++ txs) /\
    List.length txs = List.length (filter (fun r => negb (skipped r)) rows).
Proof.
  induction rows as [|row rows IH]; intros Hparse pushed.
  - exists []. simpl. rewrite app_nil_r. split; reflexivity.
  - assert (Hrest : forall r, In r rows -> skipped r = false ->
       (exists v, parseGermanDecimal (or_empty (Betrag r)) = Ok v) /\
       (exists d, parseGermanDate (or_empty (Buchungsdatum r)) = Ok d)).
    { intros r Hin. apply Hparse. right. exact Hin. }
    simpl. destruct (skipped row) eqn:Hs.
    + rewrite (transformRow_skipped up acct own row Hs). simpl.
      destruct (IH Hrest pushed) as (txs & Hloop & Hlen).
      exists txs. split; assumption.
    + destruct (Hparse row (or_introl eq_refl) Hs) as ((v & Hv) & (d & Hd)).
      rewrite (transformRow_kept up acct own row Hs), Hv, Hd. simpl.
      match goal with
      | |- context [transformLoop _ _ _ _ (pushed ++ [?t])] =>
          destruct (IH Hrest (pushed ++ [t])) as (txs & Hloop & Hlen);
          exists (t :: txs)
      end.
      rewrite Hloop, <- app_assoc. simpl. split; [reflexivity|].
      f_equal. exact Hlen.
Qed.

(** C9. A row whose amount field or booking-date field is absent or empty
    is skipped: nothing is pushed for it and nothing is thrown.  Every other
    row whose amount and date parse pushes exactly one transaction; over a
    whole input in which every kept row parses, the output has one
    transaction per kept row. *)
Theorem skipped_rows_push_nothing_parsed_rows_push_one
    (up : jsstring -> jsstring) (acct : jsstring) (own : list jsstring) :
  (forall row,
      absent_or_empty (Betrag row) = true \/ absent_or_empty (Buchungsdatum row) = true ->
      transformRow up acct own row = Ok None /\
      forall before after,
        transformToActualTransactions up acct own (before ++ row :: after) =
        transformToActualTransactions up acct own (before ++ after)) /\
  (forall row v d,
      absent_or_empty (Betrag row) = false ->
      absent_or_empty (Buchungsdatum row) = false ->
      parseGermanDecimal (or_empty (Betrag row)) = Ok v ->
      parseGermanDate (or_empty (Buchungsdatum row)) = Ok d ->
      exists t,
        transformRow up acct own row = Ok (Some t) /\
        transformToActualTransactions up acct own [row] = Ok [t]) /\
  (forall rows,
      (forall row, In row rows -> skipped row = false ->
         (exists v, parseGermanDecimal (or_empty (Betrag row)) = Ok v) /\
         (exists d, parseGermanDate (or_empty (Buchungsdatum row)) = Ok d)) ->
      exists txs,
        transformToActualTransactions up acct own rows = Ok txs /\
        List.length txs = List.length (filter (fun r => negb (skipped r)) rows)).
Proof.
  split; [|split].
  - intros row Hrow.
    assert (Hs : skipped row = true).
    { unfold skipped. destruct Hrow as [-> | ->]; [reflexivity | apply orb_true_r]. }
    split; [apply transformRow_skipped; exact Hs|].
    intros before after. unfold transformToActualTransactions.
    generalize (@nil ActualTransaction).
    induction before as [|b before IH]; intros pushed; simpl.
    + rewrite (transformRow_skipped up acct own row Hs). reflexivity.
    + destruct (transformRow up acct own b) as [[t|]|m]; simpl; auto.
  - intros row v d Ha Hb Hv Hd.
    assert (Hs : skipped row = false).
    { unfold skipped. rewrite Ha, Hb. reflexivity. }
    unfold transformToActualTransactions. simpl.
    rewrite (transformRow_kept up acct own row Hs), Hv, Hd. simpl.
    eexists. split; reflexivity.
  - intros rows Hparse.
    destruct (transformLoop_parsed up acct own rows Hparse []) as (txs & Hloop & Hlen).
    exists txs. split; assumption.
Qed.

(** An export of two transactions and a summary line: two transactions
    are pushed, none for the summary line. *)
Lemma skipped_rows_push_nothing_parsed_rows_push_one_witness :
  absent_or_empty (Betrag summary_row) = true /\
  transformRow toUpperCase_ascii (lit "acct") [] summary_row = Ok None /\
  exists txs,
    transformToActualTransactions toUpperCase_ascii (lit "acct") []
      [example_row None (Some (lit "Bob")) None (Some (lit "-12,50")) None;
       summary_row;
       example_row (Some (lit "Alice")) None None (Some (lit "1.234,56")) None] = Ok txs /\
    List.length txs = 2%nat.
Proof.
  destruct (skipped_rows_push_nothing_parsed_rows_push_one
              toUpperCase_ascii (lit "acct") []) as (Hskip & _ & Hall).
  split; [reflexivity|].
  split; [apply (Hskip summary_row); left; reflexivity|].
  apply (Hall [example_row None (Some (lit "Bob")) None (Some (lit "-12,50")) None;
               summary_row;
               example_row (Some (lit "Alice")) None None (Some (lit "1.234,56")) None]).
  intros row [<- | [<- | [<- | []]]] Hs.
  - split; eexists; vm_compute; reflexivity.
  - vm_compute in Hs. discriminate.
  - split; eexists; vm_compute; reflexivity.
Defined.

(** ** Resolving the payee *)

Lemma eqb_eq (a b : jsstring) : JsString.eqb a b = true <-> a = b.
Proof.
  unfold JsString.eqb. destruct (list_eq_dec Z.eq_dec a b); split; intros H;
    try reflexivity; try assumption; try discriminate. contradiction.
Qed.

Lemma includes_In (arr : list jsstring) (s : jsstring) :
  includes arr s = true <-> In s arr.
Proof.
  unfold includes. rewrite existsb_exists. split.
  - intros (x & Hin & Heq). apply eqb_eq in Heq. subst x. exact Hin.
  - intros Hin. exists s. split; [exact Hin | apply eqb_eq; reflexivity].
Qed.

(** C10. A row whose counterpart IBAN trims to the empty string (or is
    absent) is never treated as an own-account transfer, whatever ownIbans
    holds, the empty string included: its payee is the one getOpposingName
    picks from the payer and recipient fields by the sign of the amount, and
    its imported_payee is the trimmed payee name alone, with no parenthesised
    IBAN after it. *)
Theorem empty_counterpart_iban_is_never_masked
    (up : jsstring -> jsstring) (acct : jsstring) (own : list jsstring)
    (row : DkbRawRow) :
  trim_or_empty (IBAN row) = [] ->
  isOwnAccount own row = false /\
  (forall v, payeeName up own row v = getOpposingName row v) /\
  (forall t,
      transformRow up acct own row = Ok (Some t) ->
      imported_payee t = payee_name t /\
      exists v,
        parseGermanDecimal (or_empty (Betrag row)) = Ok v /\
        payee_name t = trim (getOpposingName row v)).
Proof.
  intros Hiban.
  assert (Hown : isOwnAccount own row = false).
  { unfold isOwnAccount, counterpartIban. rewrite Hiban. reflexivity. }
  assert (Hpayee : forall v, payeeName up own row v = getOpposingName row v).
  { intros v. unfold payeeName. rewrite Hown. reflexivity. }
  split; [exact Hown|]. split; [exact Hpayee|].
  intros t Ht.
  destruct (transformRow_pushed up acct own row t Ht)
    as (_ & v & d & Hv & _ & _ & _ & _ & Hp & Hip & _).
  split.
  - rewrite Hip, Hp. unfold importedPayee, counterpartIban. rewrite Hiban. reflexivity.
  - exists v. split; [exact Hv|]. rewrite Hp, Hpayee. reflexivity.
Qed.

(** A row with a blank IBAN field, with the empty string among the own
    IBANs: the payee is the recipient, and imported_payee is the name alone. *)
Lemma empty_counterpart_iban_is_never_masked_witness :
  trim_or_empty
    (IBAN (example_row None (Some (lit "Bob")) (Some (lit "  ")) (Some (lit "-12,50")) None))
    = [] /\
  In [] [lit "DE02120300000000202051"; []] /\
  exists t,
    transformRow toUpperCase_ascii (lit "acct") [lit "DE02120300000000202051"; []]
      (example_row None (Some (lit "Bob")) (Some (lit "  ")) (Some (lit "-12,50")) None)
      = Ok (Some t) /\
    payee_name t = lit "Bob" /\
    imported_payee t = payee_name t.
Proof.
  split; [reflexivity|]. split; [right; left; reflexivity|].
  run_row (transformRow toUpperCase_ascii (lit "acct")
              [lit "DE02120300000000202051"; []]
              (example_row None (Some (lit "Bob")) (Some (lit "  "))
                 (Some (lit "-12,50")) None))
    as t Ht.
  exists t. split; [reflexivity|].
  destruct (empty_counterpart_iban_is_never_masked toUpperCase_ascii (lit "acct")
              [lit "DE02120300000000202051"; []]
              (example_row None (Some (lit "Bob")) (Some (lit "  "))
                 (Some (lit "-12,50")) None) eq_refl) as (_ & _ & Hpushed).
  destruct (Hpushed t Ht) as (Himp & v & Hv & Hname).
  split; [|exact Himp].
  rewrite Hname. vm_compute in Hv. injection Hv as <-. reflexivity.
Defined.



(** C6, as amended. For a row whose trimmed counterpart IBAN is not empty
    and is a member of ownIbans, the resolved payee is the upper-cased
    counterpart IBAN, whatever the payer and recipient fields hold; the
    payee_name of the pushed transaction is that name, trimmed. *)
Theorem own_account_transfer_is_masked
    (up : jsstring -> jsstring) (acct : jsstring) (own : list jsstring)
    (row : DkbRawRow) :
  trim_or_empty (IBAN row) <> [] ->
  In (trim_or_empty (IBAN row)) own ->
  isOwnAccount own row = true /\
  (forall signedAmount,
      payeeName up own row signedAmount = up (trim_or_empty (IBAN row))) /\
  (forall t,
      transformRow up acct own row = Ok (Some t) ->
      payee_name t = trim (up (trim_or_empty (IBAN row)))).
Proof.
  intros Hne Hin.
  assert (Hown : isOwnAccount own row = true).
  { unfold isOwnAccount, counterpartIban.
    apply includes_In in Hin. rewrite Hin, andb_true_r.
    destruct (JsString.eqb (trim_or_empty (IBAN row)) []) eqn:E; [|reflexivity].
    apply eqb_eq in E. contradiction. }
  assert (Hpayee : forall v, payeeName up own row v = up (trim_or_empty (IBAN row))).
  { intros v. unfold payeeName. rewrite Hown. reflexivity. }
  split; [exact Hown|]. split; [exact Hpayee|].
  intros t Ht.
  destruct (transformRow_pushed up acct own row t Ht)
    as (_ & v & d & _ & _ & _ & _ & _ & Hp & _).
  rewrite Hp, Hpayee. reflexivity.
Qed.

(** A transfer to an own account, the IBAN written in lower case and
    padded: the payee is the IBAN in upper case, not the recipient. *)
Lemma own_account_transfer_is_masked_witness :
  trim_or_empty
    (IBAN (example_row None (Some (lit "Bob")) (Some (lit " de02120300000000202051 "))
             (Some (lit "-12,50")) None)) <> [] /\
  exists t,
    transformRow toUpperCase_ascii (lit "acct") [lit "de02120300000000202051"]
      (example_row None (Some (lit "Bob")) (Some (lit " de02120300000000202051 "))
         (Some (lit "-12,50")) None) = Ok (Some t) /\
    payee_name t = lit "DE02120300000000202051".
Proof.
  assert (Hne : trim_or_empty
    (IBAN (example_row None (Some (lit "Bob")) (Some (lit " de02120300000000202051 "))
             (Some (lit "-12,50")) None)) <> []).
  { vm_compute. discriminate. }
  split; [exact Hne|].
  run_row (transformRow toUpperCase_ascii (lit "acct") [lit "de02120300000000202051"]
              (example_row None (Some (lit "Bob"))
                 (Some (lit " de02120300000000202051 "))
                 (Some (lit "-12,50")) None))
    as t Ht.
  exists t. split; [reflexivity|].
  destruct (own_account_transfer_is_masked toUpperCase_ascii (lit "acct")
              [lit "de02120300000000202051"]
              (example_row None (Some (lit "Bob"))
                 (Some (lit " de02120300000000202051 "))
                 (Some (lit "-12,50")) None) Hne (or_introl eq_refl))
    as (_ & _ & Hpushed).
  rewrite (Hpushed t Ht). reflexivity.
Defined.

(** C6 as stated fails: with the empty string among the own IBANs, two
    rows without a counterpart IBAN have a trimmed IBAN that is a member of
    ownIbans, and yet the payees of the transactions pushed for them are the
    payer fields, which differ: not both are the upper-cased IBAN. *)
Lemma own_account_transfer_is_masked_counterexample :
  exists tA tB,
    In (trim_or_empty
          (IBAN (example_row (Some (lit "Alice")) None (Some []) (Some (lit "5,00")) None)))
       [[]] /\
    In (trim_or_empty
          (IBAN (example_row (Some (lit "Carol")) None (Some []) (Some (lit "5,00")) None)))
       [[]] /\
    (forall up,
       transformRow up (lit "acct") [[]]
         (example_row (Some (lit "Alice")) None (Some []) (Some (lit "5,00")) None)
         = Ok (Some tA)) /\
    (forall up,
       transformRow up (lit "acct") [[]]
         (example_row (Some (lit "Carol")) None (Some []) (Some (lit "5,00")) None)
         = Ok (Some tB)) /\
    payee_name tA = lit "Alice" /\
    payee_name tB = lit "Carol" /\
    (forall up : jsstring -> jsstring,
       payee_name tA <> up [] \/ payee_name tB <> up []).
Proof.
  eexists. eexists.
  split; [left; reflexivity|]. split; [left; reflexivity|].
  split; [intros up; vm_compute; reflexivity|].
  split; [intros up; vm_compute; reflexivity|].
  split; [reflexivity|]. split; [reflexivity|].
  intros up. simpl payee_name.
  destruct (list_eq_dec Z.eq_dec (lit "Alice") (up [])) as [E|E]; [right|left; exact E].
  rewrite <- E. vm_compute. discriminate.
Qed.

(** ** The deduplication key *)









(** C3, as amended. The imported_id of a pushed transaction is
    generateImportedId of its date, its amount, its notes and the payee name
    as resolved, before trimming: two pushed transactions, of any rows,
    accounts and own IBANs, that agree on date, amount and notes and whose
    resolved payee names are equal have equal imported_id.  Agreement on the
    payee_name field is enough when the resolved names carry no surrounding
    white space.  In particular the same row yields the same imported_id
    each time. *)
Theorem imported_id_is_a_function_of_the_resolved_fields
    (up : jsstring -> jsstring) (acct1 acct2 : jsstring) (own1 own2 : list jsstring)
    (r1 r2 : DkbRawRow) (t1 t2 : ActualTransaction) :
  transformRow up acct1 own1 r1 = Ok (Some t1) ->
  transformRow up acct2 own2 r2 = Ok (Some t2) ->
  exists v1 v2,
    parseGermanDecimal (or_empty (Betrag r1)) = Ok v1 /\
    parseGermanDecimal (or_empty (Betrag r2)) = Ok v2 /\
    payee_name t1 = trim (payeeName up own1 r1 v1) /\
    payee_name t2 = trim (payeeName up own2 r2 v2) /\
    imported_id t1 =
      generateImportedId (date t1) (amount t1) (payeeName up own1 r1 v1) (notes t1) /\
    imported_id t2 =
      generateImportedId (date t2) (amount t2) (payeeName up own2 r2 v2) (notes t2) /\
    (date t1 = date t2 -> amount t1 = amount t2 -> notes t1 = notes t2 ->
     payeeName up own1 r1 v1 = payeeName up own2 r2 v2 ->
     imported_id t1 = imported_id t2) /\
    (date t1 = date t2 -> amount t1 = amount t2 -> notes t1 = notes t2 ->
     payee_name t1 = payee_name t2 ->
     trim (payeeName up own1 r1 v1) = payeeName up own1 r1 v1 ->
     trim (payeeName up own2 r2 v2) = payeeName up own2 r2 v2 ->
     imported_id t1 = imported_id t2) /\
    (r1 = r2 -> own1 = own2 -> imported_id t1 = imported_id t2).
Proof.
  intros H1 H2.
  destruct (transformRow_pushed up acct1 own1 r1 t1 H1)
    as (_ & v1 & d1 & Hv1 & _ & _ & Hd1 & Ha1 & Hp1 & _ & Hn1 & Hid1 & _).
  destruct (transformRow_pushed up acct2 own2 r2 t2 H2)
    as (_ & v2 & d2 & Hv2 & _ & _ & Hd2 & Ha2 & Hp2 & _ & Hn2 & Hid2 & _).
  assert (E1 : imported_id t1 =
    generateImportedId (date t1) (amount t1) (payeeName up own1 r1 v1) (notes t1)).
  { rewrite Hid1, Hd1, Ha1, Hn1. reflexivity. }
  assert (E2 : imported_id t2 =
    generateImportedId (date t2) (amount t2) (payeeName up own2 r2 v2) (notes t2)).
  { rewrite Hid2, Hd2, Ha2, Hn2. reflexivity. }
  exists v1, v2. repeat (split; [assumption|]). split; [|split].
  - intros Hd Ha Hn Hp. rewrite E1, E2, Hd, Ha, Hn, Hp. reflexivity.
  - intros Hd Ha Hn Hp Ht1 Ht2.
    rewrite E1, E2, Hd, Ha, Hn, <- Ht1, <- Ht2, <- Hp1, <- Hp2, Hp. reflexivity.
  - intros -> ->. rewrite Hv1 in Hv2. injection Hv2 as ->.
    assert (Hd : d1 = d2).
    { destruct (transformRow_pushed up acct1 own2 r2 t1 H1)
        as (_ & _ & d1' & _ & Hd1' & _ & Hd1'' & _).
      destruct (transformRow_pushed up acct2 own2 r2 t2 H2)
        as (_ & _ & d2' & _ & Hd2' & _ & Hd2'' & _).
      congruence. }
    rewrite Hid1, Hid2, Hd. reflexivity.
Qed.

(** The same payment read from two exports, imported into two accounts:
    one imported_id. *)
Lemma imported_id_is_a_function_of_the_resolved_fields_witness :
  exists t1 t2,
    transformRow toUpperCase_ascii (lit "giro") []
      (example_row None (Some (lit "Bob")) None (Some (lit "-12,50")) (Some (lit "A")))
      = Ok (Some t1) /\
    transformRow toUpperCase_ascii (lit "tagesgeld") [lit "DE02120300000000202051"]
      (example_row (Some (lit "Alice")) (Some (lit "Bob")) None (Some (lit "-12,5")) None)
      = Ok (Some t2) /\
    imported_id t1 = imported_id t2.
Proof.
  run_row (transformRow toUpperCase_ascii (lit "giro") []
      (example_row None (Some (lit "Bob")) None (Some (lit "-12,50")) (Some (lit "A"))))
    as t1 H1.
  run_row (transformRow toUpperCase_ascii (lit "tagesgeld") [lit "DE02120300000000202051"]
      (example_row (Some (lit "Alice")) (Some (lit "Bob")) None (Some (lit "-12,5")) None))
    as t2 H2.
  exists t1, t2. split; [reflexivity|]. split; [reflexivity|].
  destruct (imported_id_is_a_function_of_the_resolved_fields _ _ _ _ _ _ _ _ _ H1 H2)
    as (v1 & v2 & Hv1 & Hv2 & _ & _ & _ & _ & Hsame & _).
  vm_compute in Hv1. injection Hv1 as <-.
  vm_compute in Hv2. injection Hv2 as <-.
  vm_compute in H1. injection H1 as <-.
  vm_compute in H2. injection H2 as <-.
  apply Hsame; reflexivity.
Defined.

(** C3 as stated fails: a recipient field with a leading space and one
    without give transactions that agree on date, amount, payee_name and
    notes, with different imported_id. *)
Lemma imported_id_is_a_function_of_the_resolved_fields_counterexample :
  exists t1 t2,
    (forall up,
       transformRow up (lit "acct") []
         (example_row None (Some (lit " Bob")) None (Some (lit "-12,50")) None)
         = Ok (Some t1)) /\
    (forall up,
       transformRow up (lit "acct") []
         (example_row None (Some (lit "Bob")) None (Some (lit "-12,50")) None)
         = Ok (Some t2)) /\
    date t1 = date t2 /\
    amount t1 = amount t2 /\
    payee_name t1 = payee_name t2 /\
    notes t1 = notes t2 /\
    imported_id t1 = lit "d19f541a511daee0ad7f14f586649fa6" /\
    imported_id t2 = lit "d1b7901c7cd1f12f08df5f4de2b16b6f" /\
    JsString.eqb (imported_id t1) (imported_id t2) = false.
Proof.
  eexists. eexists.
  split; [intros up; vm_compute; reflexivity|].
  split; [intros up; vm_compute; reflexivity|].
  repeat split; vm_compute; reflexivity.
Qed.

(** ** Reading the export *)

Lemma split_line (sep : Z) (line rest : jsstring) :
  ~ In sep line ->
  split sep (line ++ sep :: rest) = line :: split sep rest.
Proof.
  induction line as [|c line IH]; intros Hnot; simpl.
  - rewrite Z.eqb_refl. reflexivity.
  - destruct (Z.eqb_spec c sep) as [->|Hc].
    + exfalso. apply Hnot. left. reflexivity.
    + rewrite IH; [reflexivity|]. intros Hin. apply Hnot. right. exact Hin.
Qed.

Lemma split_not_nil (sep : Z) (s : jsstring) : split sep s <> [].
Proof.
  destruct s as [|c r]; simpl; [discriminate|].
  destruct (c =? sep); [discriminate|].
  destruct (split sep r); discriminate.
Qed.

Lemma join_split (sep : Z) (s : jsstring) : join [sep] (split sep s) = s.
Proof.
  induction s as [|c r IH]; simpl; [reflexivity|].
  destruct (Z.eqb_spec c sep) as [->|Hc].
  - simpl. destruct (split sep r) eqn:E.
    + exfalso. exact (split_not_nil sep r E).
    + rewrite IH. reflexivity.
  - destruct (split sep r) as [|h t] eqn:E.
    + exfalso. exact (split_not_nil sep r E).
    + simpl. simpl in IH. destruct t; rewrite <- IH; reflexivity.
Qed.

(** C2, as amended. parseDkbCsv has no check of its own: it drops the
    first four lines and returns or throws what the CSV parser does on the
    text that follows them.  A content of at most four lines leaves the
    empty text, so the result is whatever the parser gives for the empty
    text (no rows, when the parser returns none for it); a fifth line that
    is empty is handed to the parser with the rest. *)
Theorem parseDkbCsv_leaves_every_check_to_the_csv_parser
    (csv_parse : jsstring -> result (list DkbRawRow)) :
  (forall content,
      (List.length (split 10 content) <= 4)%nat ->
      parseDkbCsv csv_parse content = csv_parse [] /\
      (csv_parse [] = Ok [] -> parseDkbCsv csv_parse content = Ok [])) /\
  (forall l1 l2 l3 l4 text,
      ~ In 10 l1 -> ~ In 10 l2 -> ~ In 10 l3 -> ~ In 10 l4 ->
      parseDkbCsv csv_parse (l1 ++ 10 :: l2 ++ 10 :: l3 ++ 10 :: l4 ++ 10 :: text)
      = csv_parse text) /\
  (forall content msg,
      parseDkbCsv csv_parse content = Throw msg ->
      exists text, csv_parse text = Throw msg).
Proof.
  split; [|split].
  - intros content Hshort.
    assert (E : parseDkbCsv csv_parse content = csv_parse []).
    { unfold parseDkbCsv. rewrite skipn_all2 by exact Hshort. reflexivity. }
    split; [exact E|]. intros Hempty. rewrite E. exact Hempty.
  - intros l1 l2 l3 l4 text H1 H2 H3 H4. unfold parseDkbCsv.
    rewrite (split_line 10 l1 _ H1), (split_line 10 l2 _ H2),
            (split_line 10 l3 _ H3), (split_line 10 l4 _ H4).
    simpl skipn. rewrite join_split. reflexivity.
  - intros content msg H. unfold parseDkbCsv in H. eexists. exact H.
Qed.

(** A file of two metadata lines: the parser is given the empty text, and
    its empty array of rows is returned. *)
Lemma parseDkbCsv_leaves_every_check_to_the_csv_parser_witness :
  (List.length (split 10 two_line_content) <= 4)%nat /\
  parseDkbCsv csv_parse_empty_text_only
    two_line_content = Ok [] /\
  parseDkbCsv csv_parse_empty_text_only
    empty_header_content = csv_parse_empty_text_only [].
Proof.
  assert (Hshort :
    (List.length (split 10 two_line_content)
     <= 4)%nat).
  { vm_compute. repeat constructor. }
  destruct (parseDkbCsv_leaves_every_check_to_the_csv_parser csv_parse_empty_text_only)
    as (Hfew & Hlines & _).
  split; [exact Hshort|]. split.
  - apply (proj2 (Hfew _ Hshort)). reflexivity.
  - apply (Hlines (lit "a") (lit "b") (lit "c") (lit "d") []);
      vm_compute; intros H; repeat (destruct H as [H|H]; [discriminate H|]); exact H.
Defined.

(** C2 as stated fails: for a content of two lines, fewer than the four
    lines skipped, and for a content whose header line is empty, with a
    parser that returns no rows for the empty text, parseDkbCsv returns the
    empty sequence of rows and throws nothing. *)
Lemma parseDkbCsv_leaves_every_check_to_the_csv_parser_counterexample :
  (List.length (split 10 two_line_content) < 4)%nat /\
  csv_parse_empty_text_only [] = Ok [] /\
  parseDkbCsv csv_parse_empty_text_only
    two_line_content = Ok [] /\
  nth 4 (split 10 empty_header_content) (lit "none") = [] /\
  parseDkbCsv csv_parse_empty_text_only empty_header_content = Ok [].
Proof.
  split; [vm_compute; repeat constructor|].
  repeat split; reflexivity.
Qed.

(** ** Numbers: canonical results and rounding

    The arithmetic of the program stays within the binary64 numbers
    ([valid_binary]): what [parseFloat] returns is one, the product of two
    is one, and so is what [Math.round] returns. *)

Lemma digits2_pos_bounds (m : positive) :
  2 ^ (Zpos (digits2_pos m) - 1) <= Zpos m < 2 ^ Zpos (digits2_pos m).
Proof.
  induction m as [m IH|m IH|]; simpl digits2_pos.
  - rewrite Pos2Z.inj_succ.
    replace (Z.succ (Zpos (digits2_pos m)) - 1) with (Z.succ (Zpos (digits2_pos m) - 1)) by lia.
    rewrite !Z.pow_succ_r by lia. lia.
  - rewrite Pos2Z.inj_succ.
    replace (Z.succ (Zpos (digits2_pos m)) - 1) with (Z.succ (Zpos (digits2_pos m) - 1)) by lia.
    rewrite !Z.pow_succ_r by lia. lia.
  - simpl. lia.
Qed.

Lemma digits2_pos_le (m : positive) (d : Z) :
  Zpos m < 2 ^ d -> Zpos (digits2_pos m) <= d.
Proof.
  intros H. destruct (Z_lt_le_dec d (Zpos (digits2_pos m))) as [Hlt|Hle]; [|exact Hle].
  exfalso. destruct (Z_lt_le_dec d 0) as [Hneg|Hpos].
  - rewrite Z.pow_neg_r in H by exact Hneg. lia.
  - assert (2 ^ d <= 2 ^ (Zpos (digits2_pos m) - 1)) by (apply Z.pow_le_mono_r; lia).
    pose proof (digits2_pos_bounds m). lia.
Qed.

Lemma digits2_pos_shift (m : positive) (k : positive) :
  digits2_pos (Pos.iter xO m k) = (digits2_pos m + k)%positive.
Proof.
  induction k as [|k IH] using Pos.peano_ind.
  - simpl. lia.
  - rewrite Pos.iter_succ. simpl. rewrite IH. lia.
Qed.

Lemma shift_value (m k : positive) : Zpos (Pos.iter xO m k) = Zpos m * 2 ^ Zpos k.
Proof.
  induction k as [|k IH] using Pos.peano_ind.
  - simpl. lia.
  - rewrite Pos.iter_succ, Pos2Z.inj_xO, IH, Pos2Z.inj_succ, Z.pow_succ_r by lia. lia.
Qed.

Lemma binary_round_aux_canonical (s : bool) (m : positive) (e : Z) :
  fexp prec emax (Zpos (digits2_pos m) + e) = e ->
  e <= emax - prec ->
  binary_round_aux prec emax s (Zpos m) e loc_Exact = S754_finite s m e.
Proof.
  intros Hc He. unfold binary_round_aux, shr_fexp, Zdigits2.
  rewrite Hc, Z.sub_diag.
  cbn [shr shr_record_of_loc shr_m loc_of_shr_record round_nearest_even].
  rewrite Hc, Z.sub_diag. cbn [shr shr_record_of_loc shr_m].
  destruct (Z.leb_spec e (emax - prec)); [reflexivity|lia].
Qed.

(** binary_round of a mantissa of at most 53 bits at exponent 0 *)
Lemma binary_round_small (s : bool) (m : positive) :
  Zpos m < 2 ^ 53 ->
  exists m' e',
    binary_round prec emax s m 0 = S754_finite s m' e' /\
    e' <= 0 /\ Zpos m' = Zpos m * 2 ^ (- e').
Proof.
  intros Hm. pose proof (digits2_pos_le m 53 Hm) as Hd.
  unfold binary_round.
  assert (Hf : fexp prec emax (Zpos (digits2_pos m) + 0) = Zpos (digits2_pos m) - 53).
  { unfold fexp, emin, prec, emax. lia. }
  rewrite Hf. unfold shl_align.
  destruct (Zpos (digits2_pos m) - 53 - 0) as [|k|k] eqn:Ek.
  - exists m, 0. rewrite binary_round_aux_canonical.
    + split; [reflexivity|]. split; [lia|]. simpl. lia.
    + rewrite Hf. lia.
    + unfold emax, prec. lia.
  - lia.
  - exists (Pos.iter xO m k), (Zpos (digits2_pos m) - 53).
    rewrite binary_round_aux_canonical.
    + split; [reflexivity|]. split; [lia|].
      rewrite shift_value. f_equal. f_equal. lia.
    + rewrite digits2_pos_shift. unfold fexp, emin, prec, emax. lia.
    + unfold emax, prec. lia.
Qed.

(** ** Shifting right *)

Lemma shr_1_m (mrs : shr_record) :
  0 <= shr_m mrs -> shr_m (shr_1 mrs) = shr_m mrs / 2.
Proof.
  destruct mrs as [m r s]. simpl. intros Hm.
  destruct m as [|p|p]; [reflexivity| |lia].
  destruct p as [p|p|]; simpl shr_m.
  - rewrite Pos2Z.inj_xI. apply Z.div_unique with (r := 1); lia.
  - rewrite Pos2Z.inj_xO. apply Z.div_unique with (r := 0); lia.
  - reflexivity.
Qed.

Lemma iter_shr_1_m (n : positive) (mrs : shr_record) :
  0 <= shr_m mrs ->
  shr_m (iter_pos shr_1 n mrs) = shr_m mrs / 2 ^ Zpos n.
Proof.
  revert mrs. induction n as [n IH|n IH|]; intros mrs Hm; simpl iter_pos.
  - assert (H1 : 0 <= shr_m (shr_1 mrs)).
    { rewrite shr_1_m by exact Hm. apply Z.div_pos; lia. }
    assert (H2 : 0 <= shr_m (iter_pos shr_1 n (shr_1 mrs))).
    { rewrite IH by exact H1. apply Z.div_pos; [exact H1|lia]. }
    rewrite IH by exact H2. rewrite IH by exact H1. rewrite shr_1_m by exact Hm.
    rewrite !Z.div_div by lia. f_equal.
    rewrite <- Z.pow_add_r, <- (Z.pow_succ_r 2) by lia. f_equal. lia.
  - assert (H2 : 0 <= shr_m (iter_pos shr_1 n mrs)).
    { rewrite IH by exact Hm. apply Z.div_pos; [exact Hm|lia]. }
    rewrite IH by exact H2. rewrite IH by exact Hm.
    rewrite !Z.div_div by lia. f_equal.
    rewrite <- Z.pow_add_r by lia. f_equal. lia.
  - rewrite shr_1_m by exact Hm. reflexivity.
Qed.

Lemma shr_record_of_loc_m (m : Z) (l : location) : shr_m (shr_record_of_loc m l) = m.
Proof. destruct l as [|[| |]]; reflexivity. Qed.

(** What [shr_fexp] does to the mantissa and the exponent. *)
Lemma shr_fexp_spec (m e : Z) (l : location) :
  0 <= m ->
  let n := Z.max 0 (fexp prec emax (Zdigits2 m + e) - e) in
  shr_m (fst (shr_fexp prec emax m e l)) = m / 2 ^ n /\
  snd (shr_fexp prec emax m e l) = e + n.
Proof.
  intros Hm. unfold shr_fexp, shr.
  destruct (fexp prec emax (Zdigits2 m + e) - e) as [|p|p] eqn:E; simpl fst; simpl snd.
  - rewrite shr_record_of_loc_m. simpl. rewrite Z.div_1_r. lia.
  - rewrite iter_shr_1_m by (rewrite shr_record_of_loc_m; exact Hm).
    rewrite shr_record_of_loc_m. replace (Z.max 0 (Zpos p)) with (Zpos p) by lia.
    split; reflexivity.
  - rewrite shr_record_of_loc_m. replace (Z.max 0 (Zneg p)) with 0 by lia.
    simpl. rewrite Z.div_1_r. lia.
Qed.

Lemma round_nearest_even_cases (m : Z) (l : location) :
  round_nearest_even m l = m \/ round_nearest_even m l = m + 1.
Proof.
  destruct l as [|[| |]]; simpl; auto. destruct (Z.even m); auto.
Qed.

(** A positive mantissa never rounds to [NaN], and the sign is kept. *)
Lemma binary_round_aux_sign (s : bool) (m e : Z) (l : location) :
  0 <= m ->
  binary_round_aux prec emax s m e l = S754_zero s \/
  binary_round_aux prec emax s m e l = S754_infinity s \/
  exists m' e', binary_round_aux prec emax s m e l = S754_finite s m' e'.
Proof.
  intros Hm. unfold binary_round_aux.
  pose proof (shr_fexp_spec m e l Hm) as [H1 _].
  destruct (shr_fexp prec emax m e l) as [mrs' e'] eqn:E1. simpl fst in H1.
  assert (H1' : 0 <= shr_m mrs') by (rewrite H1; apply Z.div_pos; lia).
  assert (Hr : 0 <= round_nearest_even (shr_m mrs') (loc_of_shr_record mrs')).
  { destruct (round_nearest_even_cases (shr_m mrs') (loc_of_shr_record mrs')) as [-> | ->]; lia. }
  pose proof (shr_fexp_spec _ e' loc_Exact Hr) as [H2 _].
  destruct (shr_fexp prec emax _ e' loc_Exact) as [mrs'' e''] eqn:E2. simpl fst in H2.
  assert (H2' : 0 <= shr_m mrs'') by (rewrite H2; apply Z.div_pos; lia).
  destruct (shr_m mrs'') as [|p|p]; [left; reflexivity| |lia].
  destruct (e'' <=? emax - prec); right; [right; eauto|left; reflexivity].
Qed.

(** ** Canonical results *)

Lemma Zdigits2_bounds (z : Z) :
  0 < z -> 2 ^ (Zdigits2 z - 1) <= z < 2 ^ Zdigits2 z.
Proof.
  destruct z as [|p|p]; intros Hz; try lia. apply digits2_pos_bounds.
Qed.

Lemma Zdigits2_unique (z d : Z) :
  0 < z -> 2 ^ (d - 1) <= z < 2 ^ d -> Zdigits2 z = d.
Proof.
  intros Hz [Hlo Hhi]. pose proof (Zdigits2_bounds z Hz) as [Hlo' Hhi'].
  destruct (Z.lt_trichotomy (Zdigits2 z) d) as [Hlt|[Heq|Hgt]]; [exfalso|exact Heq|exfalso].
  - assert (2 ^ Zdigits2 z <= 2 ^ (d - 1)) by (apply Z.pow_le_mono_r; lia). lia.
  - assert (2 ^ d <= 2 ^ (Zdigits2 z - 1)) by (apply Z.pow_le_mono_r; lia). lia.
Qed.

Lemma Zdigits2_pos (z : Z) : 0 < z -> 0 < Zdigits2 z.
Proof. destruct z; simpl; lia. Qed.

Lemma Zdigits2_mono (a b : Z) : 0 < a -> a <= b -> Zdigits2 a <= Zdigits2 b.
Proof.
  intros Ha Hab. pose proof (Zdigits2_bounds a Ha) as [Hlo _].
  assert (Hb : 0 < b) by lia. pose proof (Zdigits2_bounds b Hb) as [_ Hhi].
  destruct (Z_lt_le_dec (Zdigits2 b) (Zdigits2 a)) as [Hlt|Hle]; [exfalso|exact Hle].
  assert (2 ^ Zdigits2 b <= 2 ^ (Zdigits2 a - 1)) by (apply Z.pow_le_mono_r; lia). lia.
Qed.

Lemma Zdigits2_shr (m n : Z) :
  0 < m -> 0 <= n -> 0 < m / 2 ^ n -> Zdigits2 (m / 2 ^ n) = Zdigits2 m - n.
Proof.
  intros Hm Hn Hq. pose proof (Zdigits2_bounds m Hm) as [Hlo Hhi].
  assert (Hp : 0 < 2 ^ n) by (apply Z.pow_pos_nonneg; lia).
  assert (Hmn : 2 ^ n <= m).
  { destruct (Z_lt_le_dec m (2 ^ n)) as [Hlt|Hle]; [|exact Hle].
    rewrite Z.div_small in Hq by lia. lia. }
  assert (Hnd : n < Zdigits2 m).
  { destruct (Z_lt_le_dec n (Zdigits2 m)) as [Hlt|Hle]; [exact Hlt|exfalso].
    assert (2 ^ Zdigits2 m <= 2 ^ n) by (apply Z.pow_le_mono_r; lia). lia. }
  apply Zdigits2_unique; [exact Hq|]. split.
  - apply Z.div_le_lower_bound; [exact Hp|].
    rewrite Z.mul_comm, <- Z.pow_add_r by lia.
    replace (Zdigits2 m - n - 1 + n) with (Zdigits2 m - 1) by lia. exact Hlo.
  - apply Z.div_lt_upper_bound; [exact Hp|].
    rewrite <- Z.pow_add_r by lia.
    replace (n + (Zdigits2 m - n)) with (Zdigits2 m) by lia. exact Hhi.
Qed.

(** A mantissa with enough digits for its exponent is shifted to the
    canonical exponent. *)
Lemma shr_fexp_canonical (m e : Z) (l : location) :
  0 < m -> e <= fexp prec emax (Zdigits2 m + e) ->
  0 < shr_m (fst (shr_fexp prec emax m e l)) ->
  fexp prec emax (Zdigits2 (shr_m (fst (shr_fexp prec emax m e l)))
                  + snd (shr_fexp prec emax m e l))
  = snd (shr_fexp prec emax m e l).
Proof.
  intros Hm He. pose proof (shr_fexp_spec m e l (Z.lt_le_incl _ _ Hm)) as [H1 H2].
  rewrite H1, H2. intros Hq.
  rewrite Zdigits2_shr by lia.
  replace (Zdigits2 m - Z.max 0 (fexp prec emax (Zdigits2 m + e) - e)
           + (e + Z.max 0 (fexp prec emax (Zdigits2 m + e) - e)))
    with (Zdigits2 m + e) by lia.
  lia.
Qed.

Lemma fexp_mono (a b : Z) : a <= b -> fexp prec emax a <= fexp prec emax b.
Proof. unfold fexp, emin. lia. Qed.

Lemma binary_round_aux_valid (s : bool) (m e : Z) (l : location) :
  0 < m -> e <= fexp prec emax (Zdigits2 m + e) ->
  valid_binary prec emax (binary_round_aux prec emax s m e l) = true.
Proof.
  intros Hm He. unfold binary_round_aux.
  pose proof (shr_fexp_spec m e l (Z.lt_le_incl _ _ Hm)) as [H1 H1e].
  pose proof (shr_fexp_canonical m e l Hm He) as Hc1.
  destruct (shr_fexp prec emax m e l) as [mrs' e'] eqn:E1.
  simpl fst in *; simpl snd in *.
  set (m1 := round_nearest_even (shr_m mrs') (loc_of_shr_record mrs')).
  assert (Hq : 0 <= shr_m mrs') by (rewrite H1; apply Z.div_pos; lia).
  assert (Hm1 : m1 = shr_m mrs' \/ m1 = shr_m mrs' + 1)
    by apply round_nearest_even_cases.
  assert (Hm1' : 0 <= m1) by lia.
  pose proof (shr_fexp_spec m1 e' loc_Exact Hm1') as [H2 H2e].
  destruct (Z.eq_dec m1 0) as [Hz|Hnz].
  - (* the mantissa rounds to zero *)
    destruct (shr_fexp prec emax m1 e' loc_Exact) as [mrs'' e''] eqn:E2.
    simpl fst in *. rewrite H2, Hz, Z.div_0_l; [reflexivity|].
    apply Z.pow_nonzero; lia.
  - assert (Hm1p : 0 < m1) by lia.
    assert (He1 : e' <= fexp prec emax (Zdigits2 m1 + e')).
    { destruct (Z.eq_dec (shr_m mrs') 0) as [Hq0|Hq0].
      - (* everything was shifted out, and the mantissa rounded up to 1 *)
        assert (m1 = 1) by lia. subst m1. replace (round_nearest_even _ _) with 1.
        simpl Zdigits2.
        assert (Hsmall : m < 2 ^ Z.max 0 (fexp prec emax (Zdigits2 m + e) - e)).
        { destruct (Z_lt_le_dec m (2 ^ Z.max 0 (fexp prec emax (Zdigits2 m + e) - e)))
            as [Hlt|Hle]; [exact Hlt|exfalso].
          assert (0 < m / 2 ^ Z.max 0 (fexp prec emax (Zdigits2 m + e) - e)).
          { apply Z.div_str_pos. split; [apply Z.pow_pos_nonneg; lia|exact Hle]. }
          lia. }
        pose proof (Zdigits2_bounds m Hm) as [Hlo _].
        assert (Hdn : Zdigits2 m - 1 < Z.max 0 (fexp prec emax (Zdigits2 m + e) - e)).
        { destruct (Z_lt_le_dec (Zdigits2 m - 1)
                      (Z.max 0 (fexp prec emax (Zdigits2 m + e) - e))) as [Hlt|Hle];
            [exact Hlt|exfalso].
          assert (2 ^ Z.max 0 (fexp prec emax (Zdigits2 m + e) - e)
                  <= 2 ^ (Zdigits2 m - 1)) by (apply Z.pow_le_mono_r; lia).
          lia. }
        pose proof (Zdigits2_pos m Hm).
        unfold fexp, emin, prec, emax in *. lia.
      - assert (Hqp : 0 < shr_m mrs') by lia.
        specialize (Hc1 Hqp). rewrite <- Hc1 at 1.
        apply fexp_mono. pose proof (Zdigits2_mono (shr_m mrs') m1 Hqp). lia. }
    pose proof (shr_fexp_canonical m1 e' loc_Exact Hm1p He1) as Hc2.
    destruct (shr_fexp prec emax m1 e' loc_Exact) as [mrs'' e''] eqn:E2.
    simpl fst in *; simpl snd in *.
    destruct (shr_m mrs'') as [|p|p] eqn:Ep; [reflexivity| |reflexivity].
    destruct (Z.leb_spec e'' (emax - prec)) as [Hle|Hgt]; [|reflexivity].
    simpl. unfold bounded, canonical_mantissa.
    assert (Hc : fexp prec emax (Zpos (digits2_pos p) + e'') = e'').
    { apply Hc2. lia. }
    rewrite Hc, Z.eqb_refl. simpl. apply Z.leb_le. exact Hle.
Qed.

Lemma binary_round_valid (s : bool) (m : positive) (e : Z) :
  valid_binary prec emax (binary_round prec emax s m e) = true.
Proof.
  unfold binary_round, shl_align.
  destruct (fexp prec emax (Zpos (digits2_pos m) + e) - e) as [|d|d] eqn:E.
  - apply binary_round_aux_valid; [lia|]. simpl Zdigits2. lia.
  - apply binary_round_aux_valid; [lia|]. simpl Zdigits2. lia.
  - apply binary_round_aux_valid; [lia|]. simpl Zdigits2.
    rewrite digits2_pos_shift, Pos2Z.inj_add.
    replace (Zpos (digits2_pos m) + Zpos d + fexp prec emax (Zpos (digits2_pos m) + e))
      with (Zpos (digits2_pos m) + e) by lia.
    lia.
Qed.

Lemma binary_normalize_valid (n e : Z) (s : bool) :
  valid_binary prec emax (binary_normalize prec emax n e s) = true.
Proof.
  destruct n as [|p|p]; simpl; [reflexivity| |]; apply binary_round_valid.
Qed.

Lemma bounded_canonical (m : positive) (e : Z) :
  bounded prec emax m e = true ->
  fexp prec emax (Zpos (digits2_pos m) + e) = e /\ e <= emax - prec.
Proof.
  unfold bounded, canonical_mantissa. intros H.
  apply andb_true_iff in H. destruct H as [H1 H2].
  apply Z.eqb_eq in H1. apply Z.leb_le in H2. split; assumption.
Qed.

(** The product of two numbers is a number. *)
Lemma mul_valid (x y : number) :
  valid_binary prec emax x = true -> valid_binary prec emax y = true ->
  valid_binary prec emax (mul x y) = true.
Proof.
  intros Hx Hy. unfold mul.
  destruct x as [sx|sx| |sx mx ex], y as [sy|sy| |sy my ey]; try reflexivity.
  simpl in Hx, Hy. simpl SFmul.
  apply bounded_canonical in Hx, Hy. destruct Hx as [Hx _], Hy as [Hy _].
  apply binary_round_aux_valid; [lia|].
  pose proof (digits2_pos_bounds mx) as [Hlx _].
  pose proof (digits2_pos_bounds my) as [Hly _].
  pose proof (Zdigits2_bounds (Zpos (mx * my)) ltac:(lia)) as [_ Hhp].
  assert (Hd : Zpos (digits2_pos mx) + Zpos (digits2_pos my) - 2
               < Zdigits2 (Zpos (mx * my))).
  { destruct (Z_lt_le_dec (Zpos (digits2_pos mx) + Zpos (digits2_pos my) - 2)
                (Zdigits2 (Zpos (mx * my)))) as [Hlt|Hle]; [exact Hlt|exfalso].
    assert (2 ^ Zdigits2 (Zpos (mx * my))
            <= 2 ^ (Zpos (digits2_pos mx) + Zpos (digits2_pos my) - 2))
      by (apply Z.pow_le_mono_r; lia).
    assert (2 ^ (Zpos (digits2_pos mx) - 1) * 2 ^ (Zpos (digits2_pos my) - 1)
            <= Zpos mx * Zpos my) by (apply Z.mul_le_mono_nonneg; lia).
    rewrite <- Z.pow_add_r in H0 by lia.
    replace (Zpos (digits2_pos mx) - 1 + (Zpos (digits2_pos my) - 1))
      with (Zpos (digits2_pos mx) + Zpos (digits2_pos my) - 2) in H0 by lia.
    pose proof (Pos2Z.inj_mul mx my). lia. }
  unfold fexp, emin, prec, emax in *. lia.
Qed.

Lemma Math_round_valid (x : number) :
  valid_binary prec emax x = true -> valid_binary prec emax (Math_round x) = true.
Proof.
  intros Hx. destruct x as [s|s| |s m e]; try exact Hx.
  unfold Math_round. destruct (0 <=? e); [exact Hx|apply binary_normalize_valid].
Qed.

Lemma of_decimal_valid (neg : bool) (n e : Z) :
  valid_binary prec emax (of_decimal neg n e) = true.
Proof.
  unfold of_decimal.
  destruct (Z.leb_spec n 0) as [Hn|Hn]; [reflexivity|].
  destruct (Z.leb_spec 0 e) as [He|He]; [apply binary_normalize_valid|].
  set (d := 10 ^ (- e)).
  set (k := Z.max 0 (Z.log2 d + prec + 2 - Z.log2 n)).
  assert (Hd : 0 < d) by (apply Z.pow_pos_nonneg; lia).
  assert (Hk : 0 <= k) by lia.
  pose proof (Z_div_mod (Z.shiftl n k) d ltac:(lia)) as Hdiv.
  destruct (Z.div_eucl (Z.shiftl n k) d) as [q r].
  destruct Hdiv as [Hq Hr].
  rewrite Z.shiftl_mul_pow2 in Hq by exact Hk.
  assert (Hbig : 2 ^ 54 <= q).
  { pose proof (Z.log2_spec n Hn) as [Hln _].
    pose proof (Z.log2_spec d Hd) as [_ Hld].
    pose proof (Z.log2_nonneg n). pose proof (Z.log2_nonneg d).
    assert (Hpow : 2 ^ (Z.log2 d + 55) <= 2 ^ (Z.log2 n + k))
      by (apply Z.pow_le_mono_r; unfold prec in k; lia).
    rewrite Z.pow_add_r in Hpow by lia.
    rewrite (Z.pow_add_r 2 (Z.log2 n) k) in Hpow by lia.
    assert (2 ^ Z.log2 n * 2 ^ k <= n * 2 ^ k).
    { apply Z.mul_le_mono_nonneg_r; [apply Z.pow_nonneg; lia|exact Hln]. }
    replace (2 ^ 55) with (2 ^ 54 * 2) in Hpow by reflexivity.
    rewrite Z.pow_succ_r in Hld by lia.
    assert (Hdq : 2 ^ 54 * d < d * q + d) by nia.
    nia. }
  apply binary_round_aux_valid; [lia|].
  assert (Hdig : 55 <= Zdigits2 q).
  { change 55 with (Zdigits2 (2 ^ 54)). apply Zdigits2_mono; [reflexivity|exact Hbig]. }
  unfold fexp, emin, prec, emax. lia.
Qed.

Lemma parseFloat_valid (s : jsstring) : valid_binary prec emax (parseFloat s) = true.
Proof.
  unfold parseFloat.
  destruct (take_sign (trimStart s)) as [neg s1].
  destruct (starts_with (lit "Infinity") s1); [reflexivity|].
  destruct (span_digits s1) as [ip s2].
  destruct (match s2 with 46 :: r => span_digits r | _ => ([], s2) end) as [fp s3].
  destruct (is_empty ip && is_empty fp); [reflexivity|apply of_decimal_valid].
Qed.

(** ** Rounding to an integer *)

Lemma half_below (n a D : Z) :
  0 < D -> ((2 * n - 1) * D <= 2 * a <-> (inject_Z n - (1#2) <= a # Z.to_pos D)%Q).
Proof.
  intros HD. unfold Qle, Qminus, Qplus, Qopp, inject_Z. cbn [Qnum Qden].
  rewrite Z2Pos.id by exact HD. lia.
Qed.

Lemma half_above (n a D : Z) :
  0 < D -> (2 * a < (2 * n + 1) * D <-> (a # Z.to_pos D < inject_Z n + (1#2))%Q).
Proof.
  intros HD. unfold Qlt, Qplus, inject_Z. cbn [Qnum Qden].
  rewrite Z2Pos.id by exact HD. lia.
Qed.

Lemma round_half_up_spec (s : bool) (m : positive) (e : Z) :
  e < 0 ->
  (2 * round_half_up s m e - 1) * 2 ^ (- e) <= 2 * cond_Zopp s (Zpos m)
  /\ 2 * cond_Zopp s (Zpos m) < (2 * round_half_up s m e + 1) * 2 ^ (- e).
Proof.
  intros He. unfold round_half_up.
  assert (HD : 0 < 2 ^ (- e)) by (apply Z.pow_pos_nonneg; lia).
  replace (1 - e) with (Z.succ (- e)) by lia. rewrite Z.pow_succ_r by lia.
  set (D := 2 ^ (- e)) in *. set (a := cond_Zopp s (Zpos m)).
  pose proof (Z.div_mod (2 * a + D) (2 * D) ltac:(lia)) as Hdm.
  pose proof (Z.mod_pos_bound (2 * a + D) (2 * D) ltac:(lia)) as Hmod.
  nia.
Qed.

Lemma value_of_integer (s : bool) (p m' : positive) (e' : Z) :
  e' <= 0 -> Zpos m' = Zpos p * 2 ^ (- e') ->
  (value (S754_finite s m' e') == inject_Z (cond_Zopp s (Zpos p)))%Q.
Proof.
  intros He Hm. unfold value.
  destruct (Z.leb_spec 0 e') as [H0|H0].
  - assert (e' = 0) by lia. subst e'. simpl in Hm.
    replace (cond_Zopp s (Zpos m') * 2 ^ 0) with (cond_Zopp s (Zpos p)); [reflexivity|].
    destruct s; simpl; lia.
  - assert (HD : 0 < 2 ^ (- e')) by (apply Z.pow_pos_nonneg; lia).
    unfold Qeq, inject_Z. cbn [Qnum Qden]. rewrite Z2Pos.id by exact HD.
    destruct s; cbn [cond_Zopp]; lia.
Qed.

(** A non-zero integer below [2^53] is a number, of its own sign. *)
Lemma binary_normalize_integer (n : Z) (s : bool) :
  n <> 0 -> Z.abs n < 2 ^ 53 ->
  exists m' e',
    binary_normalize prec emax n 0 s = S754_finite (n <? 0) m' e' /\
    (value (S754_finite (n <? 0) m' e') == inject_Z n)%Q.
Proof.
  intros Hn Hb. destruct n as [|p|p]; [contradiction| |].
  - destruct (binary_round_small false p ltac:(lia)) as (m' & e' & Hr & He & Hm).
    exists m', e'. simpl binary_normalize. rewrite Hr. split; [reflexivity|].
    apply (value_of_integer false p m' e' He Hm).
  - destruct (binary_round_small true p ltac:(lia)) as (m' & e' & Hr & He & Hm).
    exists m', e'. simpl binary_normalize. rewrite Hr. split; [reflexivity|].
    apply (value_of_integer true p m' e' He Hm).
Qed.

(** [Math.round] of a finite number: the nearest integer, the upper one
    of two that are equally near. *)
Lemma Math_round_nearest (x : number) :
  valid_binary prec emax x = true -> is_finite x = true ->
  exists n : Z,
    (value (Math_round x) == inject_Z n)%Q /\
    (inject_Z n - (1#2) <= value x)%Q /\
    (value x < inject_Z n + (1#2))%Q /\
    is_finite (Math_round x) = true /\
    lt (Math_round x) (of_Z 0) = (n <? 0) /\
    lt (of_Z 0) (Math_round x) = (0 <? n).
Proof.
  intros Hv Hf. destruct x as [s|s| |s m e]; try discriminate.
  - exists 0. simpl. repeat split; try reflexivity; unfold Qle, Qlt; simpl; lia.
  - unfold Math_round. destruct (Z.leb_spec 0 e) as [He|He].
    + exists (cond_Zopp s (Zpos m) * 2 ^ e).
      assert (Hp : 0 < 2 ^ e) by (apply Z.pow_pos_nonneg; lia).
      unfold value. destruct (Z.leb_spec 0 e); [|lia].
      split; [reflexivity|].
      split; [unfold Qle, Qminus, Qplus, Qopp, inject_Z; simpl; lia|].
      split; [unfold Qlt, Qplus, inject_Z; simpl; lia|].
      split; [reflexivity|].
      destruct s; simpl cond_Zopp.
      * split; [symmetry; apply Z.ltb_lt; nia|symmetry; apply Z.ltb_ge; nia].
      * split; [symmetry; apply Z.ltb_ge; nia|symmetry; apply Z.ltb_lt; nia].
    + pose proof (round_half_up_spec s m e He) as [Hlo Hhi].
      set (n := round_half_up s m e) in *.
      assert (HD : 0 < 2 ^ (- e)) by (apply Z.pow_pos_nonneg; lia).
      exists n.
      assert (Hx1 : (inject_Z n - (1#2) <= value (S754_finite s m e))%Q).
      { unfold value. destruct (Z.leb_spec 0 e); [lia|]. apply half_below; assumption. }
      assert (Hx2 : (value (S754_finite s m e) < inject_Z n + (1#2))%Q).
      { unfold value. destruct (Z.leb_spec 0 e); [lia|]. apply half_above; assumption. }
      assert (Hbound : Z.abs n < 2 ^ 53).
      { simpl in Hv. apply bounded_canonical in Hv. destruct Hv as [Hc _].
        pose proof (digits2_pos_bounds m) as [_ Hm].
        assert (Hdig : Zpos (digits2_pos m) <= 53)
          by (unfold fexp, emin, prec, emax in Hc; lia).
        assert (Hm53 : Zpos m < 2 ^ 53).
        { apply Z.lt_le_trans with (1 := Hm). apply Z.pow_le_mono_r; lia. }
        assert (H2D : 2 <= 2 ^ (- e)).
        { change 2 with (2 ^ 1) at 1. apply Z.pow_le_mono_r; lia. }
        destruct s; simpl cond_Zopp in Hlo, Hhi; nia. }
      destruct (Z.eq_dec n 0) as [Hz|Hnz].
      * rewrite Hz in *. simpl binary_normalize.
        repeat split; try reflexivity; assumption.
      * destruct (binary_normalize_integer n s Hnz Hbound) as (m' & e' & Hr & Hval).
        rewrite Hr. split; [exact Hval|]. split; [exact Hx1|]. split; [exact Hx2|].
        split; [reflexivity|].
        destruct (Z.ltb_spec n 0) as [Hneg|Hpos]; simpl.
        -- split; [reflexivity|]. symmetry. apply Z.ltb_ge. lia.
        -- split; [reflexivity|]. symmetry. apply Z.ltb_lt. lia.
Qed.

(** The sign of a product by 100. *)
Lemma mul_100_shape (v : number) :
  match v with
  | S754_nan => mul v (of_Z 100) = S754_nan
  | S754_zero s => mul v (of_Z 100) = S754_zero s
  | S754_infinity s => mul v (of_Z 100) = S754_infinity s
  | S754_finite s m e =>
      mul v (of_Z 100) = S754_zero s \/
      mul v (of_Z 100) = S754_infinity s \/
      exists m' e', mul v (of_Z 100) = S754_finite s m' e'
  end.
Proof.
  destruct v as [[|]|[|]| |s m e]; try reflexivity.
  change (of_Z 100) with (S754_finite false 7036874417766400 (-46)).
  unfold mul. simpl SFmul. rewrite xorb_false_r.
  apply binary_round_aux_sign. lia.
Qed.

Lemma value_finite_sign (s : bool) (m : positive) (e : Z) :
  if s then (value (S754_finite s m e) < 0)%Q else (0 < value (S754_finite s m e))%Q.
Proof.
  unfold value. destruct (Z.leb_spec 0 e) as [He|He].
  - assert (0 < 2 ^ e) by (apply Z.pow_pos_nonneg; lia).
    destruct s; unfold Qlt, inject_Z; cbn [Qnum Qden cond_Zopp]; nia.
  - destruct s; unfold Qlt; cbn [Qnum Qden cond_Zopp]; lia.
Qed.

(** The sign of the rounded product, from the sign of the product. *)
Lemma Math_round_sign (x : number) :
  valid_binary prec emax x = true ->
  match x with
  | S754_nan => True
  | S754_zero _ => is_zero (Math_round x) = true
  | S754_infinity s => Math_round x = x
  | S754_finite s _ _ =>
      if s then lt (of_Z 0) (Math_round x) = false
      else lt (Math_round x) (of_Z 0) = false
  end.
Proof.
  intros Hv. destruct x as [s|s| |s m e]; try reflexivity; try exact I.
  destruct (Math_round_nearest _ Hv eq_refl) as (n & _ & Hlo & Hhi & _ & Hneg & Hpos).
  destruct s.
  - pose proof (value_finite_sign true m e) as Hs. cbv beta iota in Hs.
    rewrite Hpos. apply Z.ltb_ge.
    destruct (Z_lt_le_dec 0 n) as [Hn|Hn]; [exfalso|exact Hn].
    assert (H1 : (1 <= n)%Z) by lia. rewrite Zle_Qle in H1.
    change (inject_Z 1) with 1%Q in H1. lra.
  - pose proof (value_finite_sign false m e) as Hs. cbv beta iota in Hs.
    rewrite Hneg. apply Z.ltb_ge.
    destruct (Z_lt_le_dec n 0) as [Hn|Hn]; [exfalso|exact Hn].
    assert (H1 : (n <= -1)%Z) by lia. rewrite Zle_Qle in H1.
    change (inject_Z (-1)) with (-1)%Q in H1. lra.
Qed.

Lemma amountToInteger_sign (v : number) :
  valid_binary prec emax v = true ->
  (lt (of_Z 0) v = true -> lt (amountToInteger v) (of_Z 0) = false) /\
  (lt v (of_Z 0) = true -> lt (of_Z 0) (amountToInteger v) = false) /\
  (is_zero v = true -> is_zero (amountToInteger v) = true).
Proof.
  intros Hv. unfold amountToInteger.
  pose proof (mul_valid v (of_Z 100) Hv eq_refl) as Hx.
  pose proof (Math_round_sign _ Hx) as Hr.
  pose proof (mul_100_shape v) as Hshape.
  destruct v as [s|s| |s m e].
  - rewrite Hshape in *. repeat split; intros H; discriminate.
  - rewrite Hshape in *. destruct s; repeat split; intros H; try discriminate; reflexivity.
  - repeat split; intros; discriminate.
  - destruct Hshape as [E|[E|(m' & e' & E)]]; rewrite E in *;
      destruct s; repeat split; intros H; try discriminate; try reflexivity;
      try exact Hr.
Qed.

Lemma amountToInteger_nonzero (v : number) :
  valid_binary prec emax v = true -> is_finite (mul v (of_Z 100)) = true ->
  (lt (of_Z 0) (amountToInteger v) = true <-> (1#2 <= value (mul v (of_Z 100)))%Q) /\
  (lt (amountToInteger v) (of_Z 0) = true <-> (value (mul v (of_Z 100)) < -(1#2))%Q).
Proof.
  intros Hv Hf. unfold amountToInteger.
  pose proof (mul_valid v (of_Z 100) Hv eq_refl) as Hx.
  destruct (Math_round_nearest _ Hx Hf) as (n & _ & Hlo & Hhi & _ & Hneg & Hpos).
  rewrite Hneg, Hpos. split; split; intros H.
  - apply Z.ltb_lt in H. assert (H1 : (1 <= n)%Z) by lia. rewrite Zle_Qle in H1.
    change (inject_Z 1) with 1%Q in H1. lra.
  - apply Z.ltb_lt. rewrite Zlt_Qlt. change (inject_Z 0) with 0%Q. lra.
  - apply Z.ltb_lt in H. assert (H1 : (n <= -1)%Z) by lia. rewrite Zle_Qle in H1.
    change (inject_Z (-1)) with (-1)%Q in H1. lra.
  - apply Z.ltb_lt. rewrite Zlt_Qlt. change (inject_Z 0) with 0%Q. lra.
Qed.

Lemma binary_round_not_NaN (s : bool) (m : positive) (e : Z) :
  isNaN (binary_round prec emax s m e) = false.
Proof.
  unfold binary_round.
  destruct (shl_align m e (fexp prec emax (Zpos (digits2_pos m) + e))) as [mz ez].
  destruct (binary_round_aux_sign s (Zpos mz) ez loc_Exact ltac:(lia))
    as [E|[E|(m' & e' & E)]]; rewrite E; reflexivity.
Qed.

Lemma amountToInteger_not_NaN (v : number) :
  isNaN v = false -> isNaN (amountToInteger v) = false.
Proof.
  intros Hv. unfold amountToInteger. pose proof (mul_100_shape v) as Hshape.
  destruct v as [s|s| |s m e]; try discriminate.
  - rewrite Hshape. reflexivity.
  - rewrite Hshape. reflexivity.
  - assert (Hfin : forall m' e', isNaN (Math_round (S754_finite s m' e')) = false).
    { intros m' e'. unfold Math_round. destruct (0 <=? e'); [reflexivity|].
      destruct (round_half_up s m' e') as [|p|p]; simpl;
        [reflexivity|apply binary_round_not_NaN|apply binary_round_not_NaN]. }
    destruct Hshape as [E|[E|(m' & e' & E)]]; rewrite E;
      [reflexivity|reflexivity|apply Hfin].
Qed.

Lemma parseGermanDecimal_number (raw : jsstring) (v : number) :
  parseGermanDecimal raw = Ok v ->
  valid_binary prec emax v = true /\ isNaN v = false.
Proof.
  unfold parseGermanDecimal.
  set (cleaned := replace_first 44 46 (remove_all 46 raw)).
  destruct (isNaN (parseFloat cleaned)) eqn:E; [discriminate|].
  intros H. injection H as <-. split; [apply parseFloat_valid|exact E].
Qed.

(** ** The integer amount *)

(** C4, as amended. amountToInteger is Math.round of the product of the
    value and 100 in binary64 arithmetic: for every value whose product with
    100 is finite, the result is the integer nearest to that product, and of
    two integers that are equally near the one towards +Infinity (for a
    negative tie, the one nearer to zero).  amountToInteger(-12.50) is
    -1250. *)
Theorem amountToInteger_rounds_to_nearest_ties_up :
  (forall v : number,
      valid_binary prec emax v = true ->
      is_finite (mul v (of_Z 100)) = true ->
      exists n : Z,
        (value (amountToInteger v) == inject_Z n)%Q /\
        (inject_Z n - (1#2) <= value (mul v (of_Z 100)))%Q /\
        (value (mul v (of_Z 100)) < inject_Z n + (1#2))%Q) /\
  (forall v : number, amountToInteger v = Math_round (mul v (of_Z 100))) /\
  parseGermanDecimal (lit "-12,50") = Ok (of_decimal true 1250 (-2)) /\
  amountToInteger (of_decimal true 1250 (-2)) = of_Z (-1250).
Proof.
  split; [|split; [reflexivity|split; reflexivity]].
  intros v Hv Hf. unfold amountToInteger.
  pose proof (mul_valid v (of_Z 100) Hv eq_refl) as Hx.
  destruct (Math_round_nearest _ Hx Hf) as (n & Hval & Hlo & Hhi & _).
  exists n. repeat split; assumption.
Qed.

(** The value -0.125: its product with 100 is -12.5, half-way between -13
    and -12, and the amount is -12. *)
Lemma amountToInteger_rounds_to_nearest_ties_up_witness :
  valid_binary prec emax (of_decimal true 125 (-3)) = true /\
  is_finite (mul (of_decimal true 125 (-3)) (of_Z 100)) = true /\
  amountToInteger (of_decimal true 125 (-3)) = of_Z (-12) /\
  exists n : Z,
    (value (amountToInteger (of_decimal true 125 (-3))) == inject_Z n)%Q /\
    (inject_Z n - (1#2) <= value (mul (of_decimal true 125 (-3)) (of_Z 100)))%Q /\
    (value (mul (of_decimal true 125 (-3)) (of_Z 100)) < inject_Z n + (1#2))%Q.
Proof.
  split; [reflexivity|]. split; [reflexivity|]. split; [reflexivity|].
  exact (proj1 amountToInteger_rounds_to_nearest_ties_up
           (of_decimal true 125 (-3)) eq_refl eq_refl).
Defined.

(** C4 as stated fails: the amount field -0,125 parses to -0.125, whose
    product with 100 is exactly -12.5; rounding ties away from zero would
    give -13, and amountToInteger gives -12. *)
Lemma amountToInteger_rounds_to_nearest_ties_up_counterexample :
  parseGermanDecimal (lit "-0,125") = Ok (of_decimal true 125 (-3)) /\
  (value (mul (of_decimal true 125 (-3)) (of_Z 100)) == - (25#2))%Q /\
  amountToInteger (of_decimal true 125 (-3)) = of_Z (-12) /\
  SFeqb (amountToInteger (of_decimal true 125 (-3))) (of_Z (-13)) = false.
Proof. repeat split; reflexivity. Qed.

(** C8, as amended. The integer amount of a pushed transaction never has
    the sign opposite to the parsed value: a positive value gives an amount
    that is not negative, a negative value one that is not positive, and a
    zero gives zero.  The amount is positive exactly when the product of the
    value and 100 is at least one half, and negative exactly when it is
    below minus one half; in between it is zero. *)
Theorem amount_sign_follows_parsed_value
    (up : jsstring -> jsstring) (acct : jsstring) (own : list jsstring)
    (row : DkbRawRow) (t : ActualTransaction) :
  transformRow up acct own row = Ok (Some t) ->
  exists v : number,
    parseGermanDecimal (or_empty (Betrag row)) = Ok v /\
    amount t = amountToInteger v /\
    isNaN (amount t) = false /\
    (lt (of_Z 0) v = true -> lt (amount t) (of_Z 0) = false) /\
    (lt v (of_Z 0) = true -> lt (of_Z 0) (amount t) = false) /\
    (is_zero v = true -> is_zero (amount t) = true) /\
    (is_finite (mul v (of_Z 100)) = true ->
       (lt (of_Z 0) (amount t) = true <-> (1#2 <= value (mul v (of_Z 100)))%Q) /\
       (lt (amount t) (of_Z 0) = true <-> (value (mul v (of_Z 100)) < - (1#2))%Q)).
Proof.
  intros Ht.
  destruct (transformRow_pushed up acct own row t Ht)
    as (_ & v & d & Hv & _ & _ & _ & Ha & _).
  destruct (parseGermanDecimal_number _ v Hv) as [Hvalid Hnan].
  destruct (amountToInteger_sign v Hvalid) as (Hpos & Hneg & Hzero).
  exists v. rewrite Ha.
  split; [exact Hv|]. split; [reflexivity|].
  split; [apply amountToInteger_not_NaN; exact Hnan|].
  split; [exact Hpos|]. split; [exact Hneg|]. split; [exact Hzero|].
  intros Hf. apply amountToInteger_nonzero; assumption.
Qed.

(** A payment of 12,50: the parsed value is negative, and so is the
    amount, -1250. *)
Lemma amount_sign_follows_parsed_value_witness :
  exists t,
    transformRow toUpperCase_ascii (lit "acct") []
      (example_row None (Some (lit "Bob")) None (Some (lit "-12,50")) None) = Ok (Some t) /\
    amount t = of_Z (-1250) /\
    lt (of_Z 0) (amount t) = false /\
    lt (amount t) (of_Z 0) = true.
Proof.
  run_row (transformRow toUpperCase_ascii (lit "acct") []
              (example_row None (Some (lit "Bob")) None (Some (lit "-12,50")) None))
    as t Ht.
  exists t. split; [reflexivity|].
  destruct (amount_sign_follows_parsed_value toUpperCase_ascii (lit "acct") [] _ t Ht)
    as (v & Hv & Ha & _ & _ & Hneg & _).
  vm_compute in Hv. injection Hv as <-.
  split; [rewrite Ha; reflexivity|].
  split; [apply Hneg; reflexivity|rewrite Ha; reflexivity].
Defined.

(** C8 as stated fails: the amount field 0,001 parses to a positive
    value, and the amount of the transaction is zero. *)
Lemma amount_sign_follows_parsed_value_counterexample :
  exists t,
    (forall up,
       transformRow up (lit "acct") []
         (example_row (Some (lit "Alice")) None None (Some (lit "0,001")) None)
         = Ok (Some t)) /\
    parseGermanDecimal (lit "0,001") = Ok (of_decimal false 1 (-3)) /\
    lt (of_Z 0) (of_decimal false 1 (-3)) = true /\
    amount t = of_Z 0 /\
    lt (of_Z 0) (amount t) = false.
Proof.
  eexists. split; [intros up; vm_compute; reflexivity|].
  repeat split; reflexivity.
Qed.

(** * Further properties *)

(** ** Trimming *)

(** What [trimStart] removes is white space, and what it leaves does not
    start with white space. *)
Lemma trimStart_split (s : jsstring) :
  exists p,
    s = p ++ trimStart s /\
    Forall (fun c => is_white_space c = true) p /\
    match trimStart s with
    | c :: _ => is_white_space c = false
    | [] => True
    end.
Proof.
  induction s as [|c s (p & Hs & Hp & Hhead)]; simpl.
  - exists []. repeat split. constructor.
  - destruct (is_white_space c) eqn:E.
    + exists (c :: p). simpl. rewrite <- Hs. repeat split; [constructor; assumption|exact Hhead].
    + exists []. simpl. repeat split; [constructor|exact E].
Qed.

Lemma trimStart_fixed (s : jsstring) :
  match s with c :: _ => is_white_space c = false | [] => True end ->
  trimStart s = s.
Proof. destruct s as [|c r]; simpl; [reflexivity|]. intros ->. reflexivity. Qed.

(** The ends of a trimmed string are not white space. *)
Lemma trim_ends (s : jsstring) :
  match trim s with c :: _ => is_white_space c = false | [] => True end /\
  match rev (trim s) with c :: _ => is_white_space c = false | [] => True end.
Proof.
  unfold trim, trimEnd.
  destruct (trimStart_split s) as (p1 & _ & _ & Hhead).
  set (u := trimStart s) in *.
  destruct (trimStart_split (rev u)) as (p2 & Hu & Hp2 & Hlast).
  set (w := trimStart (rev u)) in *.
  split; [|rewrite rev_involutive; exact Hlast].
  (* the first character of [rev w] is the first character of [u] *)
  assert (Hrev : u = rev w ++ rev p2).
  { rewrite <- rev_app_distr, <- Hu, rev_involutive. reflexivity. }
  destruct (rev w) as [|c r] eqn:Ew; [exact I|].
  rewrite Hrev in Hhead. simpl in Hhead. exact Hhead.
Qed.

(** [trim] changes nothing in a string it has trimmed. *)
Lemma trim_idempotent (s : jsstring) : trim (trim s) = trim s.
Proof.
  destruct (trim_ends s) as [Hfirst Hlast].
  unfold trim at 1. unfold trimEnd.
  rewrite (trimStart_fixed (trim s) Hfirst).
  rewrite (trimStart_fixed (rev (trim s)) Hlast).
  apply rev_involutive.
Qed.

(** ** The loop as a whole *)

Section LoopFacts.

Variable up : jsstring -> jsstring.
Variable acct : jsstring.
Variable own : list jsstring.

(** The transactions pushed before a run only come first in its result. *)
Lemma transformLoop_pushed_before (rows : list DkbRawRow)
    (pushed : list ActualTransaction) :
  transformLoop up acct own rows pushed =
    try txs <- transformLoop up acct own rows []; Ok (pushed ++ txs).
Proof.
  revert pushed. induction rows as [|row rows IH]; intros pushed; simpl.
  - rewrite app_nil_r. reflexivity.
  - destruct (transformRow up acct own row) as [[t|]|m]; simpl.
    + rewrite (IH (pushed ++ [t])), (IH [t]).
      destruct (transformLoop up acct own rows []) as [txs|m]; simpl;
        [rewrite <- app_assoc|]; reflexivity.
    + apply IH.
    + reflexivity.
Qed.

(** One turn of the loop, then the rest of it. *)
Lemma transformLoop_cons (row : DkbRawRow) (rows : list DkbRawRow) :
  transformLoop up acct own (row :: rows) [] =
    try r <- transformRow up acct own row;
    try txs <- transformLoop up acct own rows [];
    Ok (pushed_of (Ok r) ++ txs).
Proof.
  simpl. destruct (transformRow up acct own row) as [[t|]|m]; simpl.
  - rewrite (transformLoop_pushed_before rows [t]). reflexivity.
  - destruct (transformLoop up acct own rows []); reflexivity.
  - reflexivity.
Qed.

(** Every transaction of the result was pushed for one of the rows. *)
Lemma transformLoop_In (rows : list DkbRawRow) (txs : list ActualTransaction)
    (t : ActualTransaction) :
  transformLoop up acct own rows [] = Ok txs -> In t txs ->
  exists row, In row rows /\ transformRow up acct own row = Ok (Some t).
Proof.
  revert txs. induction rows as [|row rows IH]; intros txs Hloop Hin.
  - injection Hloop as <-. contradiction.
  - rewrite transformLoop_cons in Hloop.
    destruct (transformRow up acct own row) as [r|m] eqn:Hrow; [|discriminate].
    cbn [bind] in Hloop.
    destruct (transformLoop up acct own rows []) as [txs'|m]; [|discriminate].
    cbn [bind] in Hloop. injection Hloop as <-.
    apply in_app_iff in Hin. destruct Hin as [Hin|Hin].
    + destruct r as [t'|]; [|contradiction]. destruct Hin as [<-|[]].
      exists row. split; [left; reflexivity|exact Hrow].
    + destruct (IH txs' eq_refl Hin) as (row' & Hin' & Hrow').
      exists row'. split; [right; exact Hin'|exact Hrow'].
Qed.

End LoopFacts.

(** X1. Transforming a concatenation of row lists gives the concatenation
    of the outputs of the parts; it throws what the first part throws, if it
    throws, and otherwise what the second part throws. *)
Theorem transform_of_concatenation
    (up : jsstring -> jsstring) (acct : jsstring) (own : list jsstring)
    (rows1 rows2 : list DkbRawRow) :
  transformToActualTransactions up acct own (rows1 ++ rows2) =
    try txs1 <- transformToActualTransactions up acct own rows1;
    try txs2 <- transformToActualTransactions up acct own rows2;
    Ok (txs1 ++ txs2).
Proof.
  unfold transformToActualTransactions.
  induction rows1 as [|row rows1 IH].
  - simpl. destruct (transformLoop up acct own rows2 []); reflexivity.
  - rewrite <- app_comm_cons, !transformLoop_cons, IH.
    destruct (transformRow up acct own row) as [r|m]; simpl; [|reflexivity].
    destruct (transformLoop up acct own rows1 []) as [txs1|m]; simpl; [|reflexivity].
    destruct (transformLoop up acct own rows2 []) as [txs2|m]; simpl; [|reflexivity].
    rewrite app_assoc. reflexivity.
Qed.

(** X2. transformToActualTransactions returns exactly when no row throws;
    the output then holds the transactions of the rows that are not skipped,
    one each, in the order of the rows. *)
Theorem output_keeps_the_order_of_the_rows
    (up : jsstring -> jsstring) (acct : jsstring) (own : list jsstring)
    (rows : list DkbRawRow) (txs : list ActualTransaction) :
  transformToActualTransactions up acct own rows = Ok txs <->
  forallb (fun row => negb (throws (transformRow up acct own row))) rows = true /\
  txs = flat_map (fun row => pushed_of (transformRow up acct own row)) rows.
Proof.
  unfold transformToActualTransactions.
  revert txs. induction rows as [|row rows IH]; intros txs.
  - simpl. split; [intros H; injection H as <-; auto|intros [_ ->]; reflexivity].
  - rewrite transformLoop_cons. simpl forallb. simpl flat_map.
    destruct (transformRow up acct own row) as [r|m]; simpl.
    + destruct (transformLoop up acct own rows []) as [txs'|m]; simpl.
      * destruct (IH txs') as [IH1 _]. destruct (IH1 eq_refl) as [Hall Htxs].
        split; [intros H; injection H as <-; rewrite <- Htxs; auto|].
        intros [_ ->]. rewrite <- Htxs. reflexivity.
      * split; [discriminate|]. intros [Hall ->].
        destruct (IH (flat_map (fun row => pushed_of (transformRow up acct own row)) rows))
          as [_ IH2].
        discriminate (IH2 (conj Hall eq_refl)).
    + split; [discriminate|intros [H _]; discriminate].
Qed.

(** X3. transformToActualTransactions throws exactly the error of the
    first row that throws: the rows after it are not looked at, and the
    transactions of the rows before it are lost with the call. *)
Theorem first_failing_row_ends_the_call
    (up : jsstring -> jsstring) (acct : jsstring) (own : list jsstring)
    (rows : list DkbRawRow) (msg : jsstring) :
  transformToActualTransactions up acct own rows = Throw msg <->
  exists before row after,
    rows = before ++ row :: after /\
    forallb (fun r => negb (throws (transformRow up acct own r))) before = true /\
    transformRow up acct own row = Throw msg.
Proof.
  unfold transformToActualTransactions. split.
  - revert msg. induction rows as [|row rows IH]; intros msg H; [discriminate|].
    rewrite transformLoop_cons in H.
    destruct (transformRow up acct own row) as [r|m] eqn:Hrow; simpl in H.
    + destruct (transformLoop up acct own rows []) as [txs|m] eqn:Hloop; simpl in H;
        [discriminate|].
      injection H as ->.
      destruct (IH msg eq_refl) as (before & row' & after & -> & Hbefore & Hrow').
      exists (row :: before), row', after. simpl. rewrite Hrow. auto.
    + injection H as ->. exists [], row, rows. auto.
  - intros (before & row & after & -> & Hbefore & Hrow).
    induction before as [|b before IH]; cbn [app].
    + rewrite transformLoop_cons, Hrow. reflexivity.
    + cbn [forallb] in Hbefore. apply andb_true_iff in Hbefore.
      destruct Hbefore as [Hb Hbefore].
      rewrite transformLoop_cons, (IH Hbefore).
      destruct (transformRow up acct own b) as [r|m]; [reflexivity|discriminate].
Qed.

(** ** What every transaction looks like *)

(** X4. Every transaction of an output carries the account id the caller
    passed and is marked cleared, and neither its payee_name nor its
    imported_payee starts or ends with white space, whatever the fields of
    the export hold. *)
Theorem every_transaction_is_well_formed
    (up : jsstring -> jsstring) (acct : jsstring) (own : list jsstring)
    (rows : list DkbRawRow) (txs : list ActualTransaction) :
  transformToActualTransactions up acct own rows = Ok txs ->
  Forall (well_formed_for acct) txs.
Proof.
  intros H. apply Forall_forall. intros t' Hin.
  destruct (transformLoop_In up acct own rows txs t' H Hin) as (row & _ & Hrow).
  destruct (transformRow_pushed up acct own row t' Hrow)
    as (_ & v & d & _ & _ & Hacct & _ & _ & Hp & Hip & _ & _ & Hc).
  unfold well_formed_for, no_outer_white_space.
  rewrite Hacct, Hc, Hp, Hip.
  split; [reflexivity|]. split; [reflexivity|]. split; apply trim_ends.
Qed.

(** A payer written with white space around the name. *)
Lemma every_transaction_is_well_formed_witness :
  exists t,
    transformToActualTransactions toUpperCase_ascii (lit "acct") []
      [example_row (Some (lit "  Alice ")) None None (Some (lit "5,00")) None] = Ok [t] /\
    payee_name t = lit "Alice" /\
    Forall (well_formed_for (lit "acct")) [t].
Proof.
  eexists. split; [vm_compute; reflexivity|]. split; [reflexivity|].
  apply (every_transaction_is_well_formed toUpperCase_ascii (lit "acct") []
           [example_row (Some (lit "  Alice ")) None None (Some (lit "5,00")) None]).
  vm_compute. reflexivity.
Defined.

(** ** What the transformation does not look at *)

Lemma transformRow_read_columns (up : jsstring -> jsstring) (acct : jsstring)
    (own : list jsstring) (r1 r2 : DkbRawRow) :
  same_read_columns r1 r2 ->
  transformRow up acct own r1 = transformRow up acct own r2.
Proof.
  intros H. destruct r1, r2. unfold same_read_columns in H. simpl in H.
  destruct H as (Hd & Hp & Hr & Hn & Hi & Ha). subst. reflexivity.
Qed.

(** X5. Of the twelve columns of a row the transformation reads six: the
    booking date, the payer, the recipient, the purpose, the IBAN and the
    amount.  Rows that agree on these have the same outcome, and one can
    stand for the other anywhere in the input: the value date, the status,
    the transaction type, the creditor id, the mandate reference and the
    customer reference never reach the output. *)
Theorem six_columns_are_never_read
    (up : jsstring -> jsstring) (acct : jsstring) (own : list jsstring)
    (r1 r2 : DkbRawRow) :
  same_read_columns r1 r2 ->
  transformRow up acct own r1 = transformRow up acct own r2 /\
  forall before after,
    transformToActualTransactions up acct own (before ++ r1 :: after) =
    transformToActualTransactions up acct own (before ++ r2 :: after).
Proof.
  intros H. pose proof (transformRow_read_columns up acct own r1 r2 H) as Heq.
  split; [exact Heq|]. intros before after.
  apply transformLoop_exchange. exact Heq.
Qed.

(** A booked direct debit and the same line as a pending card payment. *)
Lemma six_columns_are_never_read_witness :
  same_read_columns
    (example_row None (Some (lit "Bob")) None (Some (lit "-12,50")) None)
    {| Buchungsdatum := Some (lit "05.03.24");
       Wertstellung := None;
       Status := Some (lit "Vorgemerkt");
       Zahlungspflichtige_r := None;
       Zahlungsempfaenger_in := Some (lit "Bob");
       Verwendungszweck := Some (lit "Miete");
       Umsatztyp := Some (lit "Kartenzahlung");
       IBAN := None;
       Betrag := Some (lit "-12,50");
       Glaeubiger_ID := Some (lit "DE98ZZZ09999999999");
       Mandatsreferenz := Some (lit "M-1");
       Kundenreferenz := Some (lit "K-1") |} /\
  transformRow toUpperCase_ascii (lit "acct") []
    (example_row None (Some (lit "Bob")) None (Some (lit "-12,50")) None) =
  transformRow toUpperCase_ascii (lit "acct") []
    {| Buchungsdatum := Some (lit "05.03.24");
       Wertstellung := None;
       Status := Some (lit "Vorgemerkt");
       Zahlungspflichtige_r := None;
       Zahlungsempfaenger_in := Some (lit "Bob");
       Verwendungszweck := Some (lit "Miete");
       Umsatztyp := Some (lit "Kartenzahlung");
       IBAN := None;
       Betrag := Some (lit "-12,50");
       Glaeubiger_ID := Some (lit "DE98ZZZ09999999999");
       Mandatsreferenz := Some (lit "M-1");
       Kundenreferenz := Some (lit "K-1") |}.
Proof.
  assert (H : same_read_columns
    (example_row None (Some (lit "Bob")) None (Some (lit "-12,50")) None)
    {| Buchungsdatum := Some (lit "05.03.24");
       Wertstellung := None;
       Status := Some (lit "Vorgemerkt");
       Zahlungspflichtige_r := None;
       Zahlungsempfaenger_in := Some (lit "Bob");
       Verwendungszweck := Some (lit "Miete");
       Umsatztyp := Some (lit "Kartenzahlung");
       IBAN := None;
       Betrag := Some (lit "-12,50");
       Glaeubiger_ID := Some (lit "DE98ZZZ09999999999");
       Mandatsreferenz := Some (lit "M-1");
       Kundenreferenz := Some (lit "K-1") |}).
  { repeat split. }
  split; [exact H|].
  exact (proj1 (six_columns_are_never_read toUpperCase_ascii (lit "acct") [] _ _ H)).
Defined.

(** ** The own IBANs *)

(** The counterpart IBAN of a row is a trimmed string. *)
Lemma counterpartIban_trimmed (row : DkbRawRow) :
  trim (counterpartIban row) = counterpartIban row.
Proof.
  unfold counterpartIban, trim_or_empty.
  destruct (IBAN row) as [s|]; [apply trim_idempotent|reflexivity].
Qed.

Lemma isOwnAccount_members (own1 own2 : list jsstring) (row : DkbRawRow) :
  (forall e, trim e = e -> e <> [] -> (In e own1 <-> In e own2)) ->
  isOwnAccount own1 row = isOwnAccount own2 row.
Proof.
  intros Hsame. unfold isOwnAccount.
  destruct (JsString.eqb (counterpartIban row) []) eqn:E; [reflexivity|].
  simpl. assert (Hne : counterpartIban row <> []).
  { intros H. apply eqb_eq in H. congruence. }
  specialize (Hsame _ (counterpartIban_trimmed row) Hne).
  destruct (includes own1 (counterpartIban row)) eqn:E1;
    destruct (includes own2 (counterpartIban row)) eqn:E2; try reflexivity.
  - apply includes_In, Hsame, includes_In in E1. congruence.
  - apply includes_In, Hsame, includes_In in E2. congruence.
Qed.

(** The loop sees the own IBANs only through [isOwnAccount]. *)
Lemma transformLoop_own (up : jsstring -> jsstring) (acct : jsstring)
    (own1 own2 : list jsstring) (rows : list DkbRawRow) :
  (forall row, isOwnAccount own1 row = isOwnAccount own2 row) ->
  forall pushed,
    transformLoop up acct own1 rows pushed = transformLoop up acct own2 rows pushed.
Proof.
  intros Hown.
  assert (Hrow : forall row, transformRow up acct own1 row = transformRow up acct own2 row).
  { intros row. unfold transformRow, importedPayee, payeeName.
    rewrite (Hown row). reflexivity. }
  induction rows as [|row rows IH]; intros pushed; simpl; [reflexivity|].
  rewrite (Hrow row).
  destruct (transformRow up acct own2 row) as [[t|]|m]; simpl; auto.
Qed.

(** X6. The array of own IBANs counts only as a set of trimmed, non-empty
    strings: two arrays that hold the same such strings give the same output.
    The order of the entries and their repetition change nothing, and an
    entry that is empty or has white space at one of its ends matches no
    row. *)
Theorem own_ibans_count_as_a_set_of_trimmed_strings
    (up : jsstring -> jsstring) (acct : jsstring) (own1 own2 : list jsstring)
    (rows : list DkbRawRow) :
  (forall e, trim e = e -> e <> [] -> (In e own1 <-> In e own2)) ->
  transformToActualTransactions up acct own1 rows =
  transformToActualTransactions up acct own2 rows.
Proof.
  intros Hsame. apply transformLoop_own.
  intros row. apply isOwnAccount_members. exact Hsame.
Qed.

(** An own IBAN entered with a leading blank is as good as absent: the
    transfer is not masked. *)
Lemma own_ibans_count_as_a_set_of_trimmed_strings_witness :
  (forall up rows,
     transformToActualTransactions up (lit "acct") [[]; padded_iban; plain_iban; plain_iban] rows =
     transformToActualTransactions up (lit "acct") [plain_iban] rows) /\
  exists t,
    transformToActualTransactions toUpperCase_ascii (lit "acct") [padded_iban; []]
      [example_row None (Some (lit "Bob")) (Some padded_iban) (Some (lit "-12,50")) None]
    = Ok [t] /\
    payee_name t = lit "Bob".
Proof.
  split.
  - intros up rows.
    apply (own_ibans_count_as_a_set_of_trimmed_strings up (lit "acct")
             [[]; padded_iban; plain_iban; plain_iban] [plain_iban] rows).
    intros e Htrim Hne. split.
    + intros [H|[H|[H|[H|[]]]]].
      * congruence.
      * subst e. vm_compute in Htrim. discriminate.
      * left. exact H.
      * left. exact H.
    + intros [H|[]]. right. right. left. exact H.
  - eexists. split; vm_compute; reflexivity.
Defined.

(** ** The booking date *)

Lemma split_length (sep : Z) (s : jsstring) :
  List.length (split sep s) = S (count_occ Z.eq_dec s sep).
Proof.
  induction s as [|c r IH]; simpl; [reflexivity|].
  destruct (Z.eqb_spec c sep) as [->|Hc].
  - destruct (Z.eq_dec sep sep) as [_|H]; [|contradiction]. simpl. rewrite IH. reflexivity.
  - destruct (Z.eq_dec c sep) as [H|_]; [contradiction|].
    destruct (split sep r) as [|h t]; [discriminate|]. exact IH.
Qed.

Lemma split_whole (sep : Z) (s : jsstring) : ~ In sep s -> split sep s = [s].
Proof.
  induction s as [|c r IH]; intros Hnot; simpl; [reflexivity|].
  destruct (Z.eqb_spec c sep) as [->|Hc].
  - exfalso. apply Hnot. left. reflexivity.
  - rewrite IH; [reflexivity|]. intros Hin. apply Hnot. right. exact Hin.
Qed.

(** X7. parseGermanDate accepts exactly the values with two full stops,
    whatever stands between them, and throws for every other value an error
    that quotes the value. *)
Theorem parseGermanDate_accepts_exactly_two_full_stops (value : jsstring) :
  if Nat.eqb (count_occ Z.eq_dec value 46) 2
  then exists iso, parseGermanDate value = Ok iso
  else parseGermanDate value = Throw (lit "Cannot parse date: " ++ [34] ++ value ++ [34]).
Proof.
  pose proof (split_length 46 value) as Hlen. unfold parseGermanDate.
  destruct (Nat.eqb_spec (count_occ Z.eq_dec value 46) 2) as [E|E].
  - rewrite E in Hlen.
    destruct (split 46 value) as [|dd [|mm [|yy [|x rest]]]]; try discriminate.
    eexists. reflexivity.
  - destruct (split 46 value) as [|dd [|mm [|yy [|x rest]]]]; try reflexivity.
    exfalso. apply E. simpl in Hlen. lia.
Qed.

(** X8. For a value of three parts separated by full stops, the date is
    the year, the month and the day joined by hyphens: a year of two
    characters is prefixed with 20, any other year is taken as it is, and
    day and month are padded with zeros to two characters.  The parts are not
    looked at otherwise. *)
Theorem parseGermanDate_reorders_day_month_year (dd mm yy : jsstring) :
  ~ In 46 dd -> ~ In 46 mm -> ~ In 46 yy ->
  parseGermanDate (dd ++ 46 :: mm ++ 46 :: yy) =
    Ok ((if (List.length yy =? 2)%nat then lit "20" ++ yy else yy)
        ++ lit "-" ++ padStart 2 48 mm ++ lit "-" ++ padStart 2 48 dd).
Proof.
  intros Hdd Hmm Hyy. unfold parseGermanDate.
  rewrite (split_line 46 dd _ Hdd), (split_line 46 mm _ Hmm), (split_whole 46 yy Hyy).
  reflexivity.
Qed.

(** The fifth of March 2024, written with two and with four digits of
    the year, and without leading zeros. *)
Lemma parseGermanDate_reorders_day_month_year_witness :
  parseGermanDate (lit "5.3.24") = Ok (lit "2024-03-05") /\
  parseGermanDate (lit "05.03.2024") = Ok (lit "2024-03-05").
Proof.
  split.
  - exact (parseGermanDate_reorders_day_month_year (lit "5") (lit "3") (lit "24")
             ltac:(vm_compute; intuition lia) ltac:(vm_compute; intuition lia)
             ltac:(vm_compute; intuition lia)).
  - exact (parseGermanDate_reorders_day_month_year (lit "05") (lit "03") (lit "2024")
             ltac:(vm_compute; intuition lia) ltac:(vm_compute; intuition lia)
             ltac:(vm_compute; intuition lia)).
Defined.

(** ** Collisions of the deduplication key *)



(** ** The file that is looked for *)

Lemma range_check (f : Z -> bool) (lo n : Z) :
  forallb f (range lo n) = true ->
  forall k, lo <= k < lo + n -> f k = true.
Proof.
  intros Hall k Hk. rewrite forallb_forall in Hall. apply Hall.
  unfold range. apply in_map_iff. exists (Z.to_nat (k - lo)).
  split; [lia|]. apply in_seq. lia.
Qed.

(** The days of a month, the months and the years of four digits print
    as their decimal digits. *)
Lemma day_text (k : Z) :
  0 <= k <= 99 -> padStart 2 48 (Number_toString (of_Z k)) = two_digits k.
Proof.
  intros Hk. apply eqb_eq.
  apply (range_check
           (fun k => JsString.eqb (padStart 2 48 (Number_toString (of_Z k))) (two_digits k))
           0 100); [vm_compute; reflexivity|lia].
Qed.

Lemma month_text (m : Z) :
  0 <= m <= 11 ->
  padStart 2 48 (Number_toString (number_add (of_Z m) (of_Z 1))) = two_digits (m + 1).
Proof.
  intros Hm. apply eqb_eq.
  apply (range_check
           (fun m => JsString.eqb
                       (padStart 2 48 (Number_toString (number_add (of_Z m) (of_Z 1))))
                       (two_digits (m + 1)))
           0 12); [vm_compute; reflexivity|lia].
Qed.

Lemma year_text (y : Z) :
  1000 <= y <= 9999 -> Number_toString (of_Z y) = four_digits y.
Proof.
  intros Hy. apply eqb_eq.
  apply (range_check
           (fun y => JsString.eqb (Number_toString (of_Z y)) (four_digits y))
           1000 9000); [vm_compute; reflexivity|lia].
Qed.

(** X10. For a date of a year of four digits, findDkbFile looks in the
    Downloads directory of the home directory for the file named
    DD-MM-YYYY_Umsatzliste_Girokonto_IBAN.csv, day and month with two digits
    and the month counted from 1, and then for the same name with Tagesgeld;
    it returns the path of the first of the two that exists, the Girokonto
    file when both exist, and null when neither exists.  Without a date
    argument the date is the current one. *)
Theorem findDkbFile_looks_for_the_export_of_the_day
    (now : JsDate) (homedir : jsstring) (path_join : jsstring -> jsstring -> jsstring)
    (existsSync : jsstring -> bool) (iban : jsstring) (date : option JsDate)
    (day month year : Z) :
  getDate (match date with Some d => d | None => now end) = of_Z day ->
  getMonth (match date with Some d => d | None => now end) = of_Z month ->
  getFullYear (match date with Some d => d | None => now end) = of_Z year ->
  1 <= day <= 31 -> 0 <= month <= 11 -> 1000 <= year <= 9999 ->
  findDkbFile now homedir path_join existsSync iban date =
    if existsSync (path_join (path_join homedir (lit "Downloads"))
                     (export_name (lit "Girokonto") iban day month year))
    then Some (path_join (path_join homedir (lit "Downloads"))
                 (export_name (lit "Girokonto") iban day month year))
    else if existsSync (path_join (path_join homedir (lit "Downloads"))
                          (export_name (lit "Tagesgeld") iban day month year))
    then Some (path_join (path_join homedir (lit "Downloads"))
                 (export_name (lit "Tagesgeld") iban day month year))
    else None.
Proof.
  intros Hday Hmonth Hyear Hd Hm Hy.
  unfold findDkbFile, patterns, dateStr.
  rewrite Hday, Hmonth, Hyear.
  rewrite (day_text day) by lia. rewrite (month_text month Hm), (year_text year Hy).
  unfold firstExisting, export_name. rewrite <- !app_assoc. reflexivity.
Qed.

(** The fifth of March 2024 with only the Tagesgeld export downloaded. *)
Lemma findDkbFile_looks_for_the_export_of_the_day_witness :
  findDkbFile {| getDate := of_Z 5; getMonth := of_Z 2; getFullYear := of_Z 2024 |}
    (lit "/home/u") join_with_slash
    (only_file tagesgeld_export)
    (lit "DE02120300000000202051") None
  = Some tagesgeld_export.
Proof.
  rewrite (findDkbFile_looks_for_the_export_of_the_day
             {| getDate := of_Z 5; getMonth := of_Z 2; getFullYear := of_Z 2024 |}
             (lit "/home/u") join_with_slash
             (only_file tagesgeld_export)
             (lit "DE02120300000000202051") None 5 2 2024
             eq_refl eq_refl eq_refl ltac:(lia) ltac:(lia) ltac:(lia)).
  reflexivity.
Defined.

(** ** The accounts of the environment *)

Lemma range_succ (i : Z) (n : nat) :
  range i (Z.of_nat (S n)) = i :: range (i + 1) (Z.of_nat n).
Proof.
  unfold range. rewrite !Nat2Z.id. cbn [seq map]. f_equal; [lia|].
  rewrite <- seq_shift, map_map. apply map_ext. intros x. lia.
Qed.

Lemma missing_variables_account (env : Config.Env) (i : Z) :
  Config.missing_variables
    [ (env (Config.account_variable i (lit "NAME")), Config.account_variable i (lit "NAME"));
      (env (Config.account_variable i (lit "IBAN")), Config.account_variable i (lit "IBAN"));
      (env (Config.account_variable i (lit "SYNC_ID")),
       Config.account_variable i (lit "SYNC_ID")) ]
  = account_missing env i.
Proof.
  unfold Config.missing_variables, account_missing. simpl filter.
  destruct (truthy (env (Config.account_variable i (lit "NAME"))));
    destruct (truthy (env (Config.account_variable i (lit "IBAN"))));
    destruct (truthy (env (Config.account_variable i (lit "SYNC_ID")))); reflexivity.
Qed.

(** One turn of the loop on a complete account. *)
Lemma loadAccountsFrom_step (env : Config.Env) (fuel : nat) (i : Z)
    (accounts : list Config.DkbAccount) :
  account_complete env i = true ->
  Config.loadAccountsFrom (S fuel) env i accounts =
  Config.loadAccountsFrom fuel env (i + 1) (accounts ++ [account_at env i]).
Proof.
  intros Hi. cbn [Config.loadAccountsFrom].
  rewrite missing_variables_account. unfold account_missing.
  unfold account_complete in Hi.
  apply andb_true_iff in Hi. destruct Hi as [Hi Hs].
  apply andb_true_iff in Hi. destruct Hi as [Hn Hb].
  rewrite Hn, Hb, Hs. reflexivity.
Qed.

(** The loop of [loadAccounts] over [n] complete accounts that are
    followed by an index with no variable set. *)
Lemma loadAccountsFrom_complete (env : Config.Env) (n : nat) :
  forall (i : Z) (accounts : list Config.DkbAccount) (fuel : nat),
    (forall j, i <= j < i + Z.of_nat n -> account_complete env j = true) ->
    account_unset env (i + Z.of_nat n) = true ->
    (n < fuel)%nat ->
    Config.loadAccountsFrom fuel env i accounts =
      Some (match accounts ++ map (account_at env) (range i (Z.of_nat n)) with
            | [] => Throw Config.no_accounts_message
            | all => Ok all
            end).
Proof.
  induction n as [|n IH]; intros i accounts fuel Hcomplete Hunset Hfuel.
  - destruct fuel as [|fuel]; [lia|]. cbn [Config.loadAccountsFrom].
    replace (i + Z.of_nat 0) with i in Hunset by lia.
    unfold account_unset in Hunset. rewrite Hunset.
    change (range i (Z.of_nat 0)) with (@nil Z). cbn [map]. rewrite app_nil_r.
    destruct accounts; reflexivity.
  - destruct fuel as [|fuel]; [lia|].
    rewrite range_succ, loadAccountsFrom_step by (apply Hcomplete; lia).
    rewrite (IH (i + 1)).
    + cbn [map]. rewrite <- app_assoc. reflexivity.
    + intros j Hj. apply Hcomplete. lia.
    + replace (i + 1 + Z.of_nat n) with (i + Z.of_nat (S n)) by lia. exact Hunset.
    + lia.
Qed.

(** The loop over [n] complete accounts that are followed by an account
    with some variable set and some not. *)
Lemma loadAccountsFrom_incomplete (env : Config.Env) (n : nat) :
  forall (i : Z) (accounts : list Config.DkbAccount) (fuel : nat),
    (forall j, i <= j < i + Z.of_nat n -> account_complete env j = true) ->
    account_unset env (i + Z.of_nat n) = false ->
    account_complete env (i + Z.of_nat n) = false ->
    (n < fuel)%nat ->
    Config.loadAccountsFrom fuel env i accounts =
      Some (Throw (lit "Incomplete account config, missing: "
                   ++ join (lit ", ") (account_missing env (i + Z.of_nat n)))).
Proof.
  induction n as [|n IH]; intros i accounts fuel Hcomplete Hunset Hpartial Hfuel.
  - destruct fuel as [|fuel]; [lia|]. cbn [Config.loadAccountsFrom].
    replace (i + Z.of_nat 0) with i in * by lia.
    unfold account_unset in Hunset. rewrite Hunset.
    rewrite missing_variables_account.
    unfold account_complete in Hpartial. unfold account_missing.
    destruct (truthy (env (Config.account_variable i (lit "NAME"))));
      destruct (truthy (env (Config.account_variable i (lit "IBAN"))));
      destruct (truthy (env (Config.account_variable i (lit "SYNC_ID"))));
      try discriminate; reflexivity.
  - destruct fuel as [|fuel]; [lia|].
    rewrite loadAccountsFrom_step by (apply Hcomplete; lia).
    replace (i + Z.of_nat (S n)) with (i + 1 + Z.of_nat n) in * by lia.
    apply IH; [|assumption|assumption|lia].
    intros j Hj. apply Hcomplete. lia.
Qed.

(** X11. loadAccounts reads the accounts numbered from 0 up to the first
    index at which none of the three variables is set: when the accounts
    before that index are complete, it returns them in the order of their
    numbers, and it throws when there is none.  Accounts numbered after the
    gap are not read. *)
Theorem loadAccounts_reads_up_to_the_first_gap
    (env : Config.Env) (n fuel : nat) :
  (forall j, 0 <= j < Z.of_nat n -> account_complete env j = true) ->
  account_unset env (Z.of_nat n) = true ->
  (n < fuel)%nat ->
  Config.loadAccounts fuel env =
    Some (if Nat.eqb n 0 then Throw Config.no_accounts_message
          else Ok (map (account_at env) (range 0 (Z.of_nat n)))).
Proof.
  intros Hcomplete Hunset Hfuel. unfold Config.loadAccounts.
  rewrite (loadAccountsFrom_complete env n 0 [] fuel Hcomplete Hunset Hfuel).
  cbn [app]. destruct n as [|n]; [reflexivity|].
  rewrite range_succ. reflexivity.
Qed.

(** Accounts 0 and 1 are read, account 3 is not: index 2 is not set. *)
Lemma loadAccounts_reads_up_to_the_first_gap_witness :
  Config.loadAccounts 3 example_env =
    Some (Ok [ {| Config.name := lit "Giro";
                  Config.iban := lit "DE02120300000000202051";
                  Config.syncId := lit "budget-1" |};
               {| Config.name := lit "Tagesgeld";
                  Config.iban := lit "DE02500105170137075030";
                  Config.syncId := lit "budget-1" |} ]) /\
  account_complete example_env 3 = true.
Proof.
  split; [|reflexivity].
  rewrite (loadAccounts_reads_up_to_the_first_gap example_env 2 3).
  - reflexivity.
  - intros j Hj. assert (Hcases : j = 0 \/ j = 1) by lia.
    destruct Hcases as [-> | ->]; reflexivity.
  - reflexivity.
  - lia.
Defined.

(** X12. An account with some of its three variables set and some not
    ends loadAccounts with an error that names the variables that are not
    set, in the order NAME, IBAN, SYNC_ID; the complete accounts before it
    are not returned. *)
Theorem loadAccounts_rejects_an_incomplete_account
    (env : Config.Env) (n fuel : nat) :
  (forall j, 0 <= j < Z.of_nat n -> account_complete env j = true) ->
  account_unset env (Z.of_nat n) = false ->
  account_complete env (Z.of_nat n) = false ->
  (n < fuel)%nat ->
  Config.loadAccounts fuel env =
    Some (Throw (lit "Incomplete account config, missing: "
                 ++ join (lit ", ") (account_missing env (Z.of_nat n)))).
Proof.
  intros Hcomplete Hunset Hpartial Hfuel. unfold Config.loadAccounts.
  apply (loadAccountsFrom_incomplete env n 0 [] fuel); assumption.
Qed.

(** The second account has a name, an empty IBAN and no sync id. *)
Lemma loadAccounts_rejects_an_incomplete_account_witness :
  Config.loadAccounts 2 incomplete_env =
    Some (Throw (lit "Incomplete account config, missing: ACCOUNT_1_IBAN, ACCOUNT_1_SYNC_ID")).
Proof.
  rewrite (loadAccounts_rejects_an_incomplete_account incomplete_env 1 2).
  - reflexivity.
  - intros j Hj. assert (j = 0) as -> by lia. reflexivity.
  - reflexivity.
  - reflexivity.
  - lia.
Defined.

(** ** The own IBANs of a configuration *)

Lemma includes_false (arr : list jsstring) (s : jsstring) :
  includes arr s = false <-> ~ In s arr.
Proof.
  split.
  - intros H Hin. apply includes_In in Hin. congruence.
  - intros H. destruct (includes arr s) eqn:E; [|reflexivity].
    apply includes_In in E. contradiction.
Qed.

Lemma setOf_In (values seen : list jsstring) (e : jsstring) :
  In e (Config.setOf seen values) <-> In e seen \/ In e values.
Proof.
  revert seen. induction values as [|v values IH]; intros seen; simpl.
  - tauto.
  - rewrite IH. destruct (includes seen v) eqn:E.
    + apply includes_In in E. split; [tauto|].
      intros [H|[H|H]]; auto. subst v. auto.
    + rewrite in_app_iff. simpl. tauto.
Qed.

Lemma setOf_NoDup (values seen : list jsstring) :
  NoDup seen -> NoDup (Config.setOf seen values).
Proof.
  revert seen. induction values as [|v values IH]; intros seen Hnd; simpl.
  - exact Hnd.
  - apply IH. destruct (includes seen v) eqn:E; [exact Hnd|].
    apply includes_false in E.
    apply NoDup_app; [exact Hnd|repeat constructor; intros []|].
    intros x Hx [<-|[]]. contradiction.
Qed.

(** The accounts [loadAccounts] returns have all three fields filled. *)
Lemma loadAccountsFrom_filled (env : Config.Env) (fuel : nat) :
  forall (i : Z) (accounts all : list Config.DkbAccount),
    Config.loadAccountsFrom fuel env i accounts = Some (Ok all) ->
    Forall (fun a => Config.iban a <> []) accounts ->
    Forall (fun a => Config.iban a <> []) all.
Proof.
  induction fuel as [|fuel IH]; intros i accounts all H Hacc; [discriminate|].
  cbn [Config.loadAccountsFrom] in H.
  destruct (negb (truthy (env (Config.account_variable i (lit "NAME"))))
            && negb (truthy (env (Config.account_variable i (lit "IBAN"))))
            && negb (truthy (env (Config.account_variable i (lit "SYNC_ID"))))).
  - destruct accounts; [discriminate|]. injection H as <-. exact Hacc.
  - rewrite missing_variables_account in H. unfold account_missing in H.
    destruct (env (Config.account_variable i (lit "IBAN"))) as [[|c r]|] eqn:Eiban;
      cbn [truthy] in H.
    + destruct (truthy (env (Config.account_variable i (lit "NAME"))));
        destruct (truthy (env (Config.account_variable i (lit "SYNC_ID"))));
        discriminate.
    + destruct (truthy (env (Config.account_variable i (lit "NAME"))));
        destruct (truthy (env (Config.account_variable i (lit "SYNC_ID"))));
        try discriminate.
      cbn [app] in H. apply IH in H; [exact H|].
      apply Forall_app. split; [exact Hacc|].
      constructor; [|constructor]. cbn. discriminate.
    + destruct (truthy (env (Config.account_variable i (lit "NAME"))));
        destruct (truthy (env (Config.account_variable i (lit "SYNC_ID"))));
        discriminate.
Qed.

Lemma extraIbans_trimmed (env : Config.Env) (e : jsstring) :
  In e (Config.extraIbans env) -> trim e = e /\ e <> [].
Proof.
  unfold Config.extraIbans. intros H. apply filter_In in H. destruct H as [Hin Hne].
  apply in_map_iff in Hin. destruct Hin as (s & <- & _).
  split; [apply trim_idempotent|].
  intros E. rewrite E in Hne. discriminate.
Qed.

Lemma loadConfig_ownIbans (fuel : nat) (env : Config.Env) (cfg : Config.Config) :
  Config.loadConfig fuel env = Some (Ok cfg) ->
  Config.ownIbans cfg =
    Config.setOf [] (map Config.iban (Config.accounts cfg) ++ Config.extraIbans env) /\
  Forall (fun a => Config.iban a <> []) (Config.accounts cfg).
Proof.
  unfold Config.loadConfig, Config.loadAccounts.
  destruct (negb (truthy (env (lit "ACTUAL_SERVER_URL")))
            || negb (truthy (env (lit "ACTUAL_PASSWORD")))); [discriminate|].
  destruct (Config.loadAccountsFrom fuel env 0 []) as [[all|m]|] eqn:E; try discriminate.
  intros H. injection H as <-. cbn [Config.ownIbans Config.accounts].
  split; [reflexivity|].
  apply (loadAccountsFrom_filled env fuel 0 [] all E). constructor.
Qed.

Lemma loadConfig_no_empty_own_iban (fuel : nat) (env : Config.Env) (cfg : Config.Config) :
  Config.loadConfig fuel env = Some (Ok cfg) -> ~ In [] (Config.ownIbans cfg).
Proof.
  intros H Hin. destruct (loadConfig_ownIbans fuel env cfg H) as [Hown Hfilled].
  rewrite Hown in Hin. apply setOf_In in Hin. destruct Hin as [[]|Hin].
  apply in_app_iff in Hin. destruct Hin as [Hin|Hin].
  - apply in_map_iff in Hin. destruct Hin as (a & Ha & Hin).
    rewrite Forall_forall in Hfilled. exact (Hfilled a Hin Ha).
  - apply extraIbans_trimmed in Hin. destruct Hin as [_ Hne]. apply Hne. reflexivity.
Qed.

(** X13. The own IBANs of a loaded configuration are the IBANs of its
    accounts and the entries of OWN_IBANS, separated by commas, trimmed, the
    empty ones dropped: each of them once, none of them empty.  The IBANs of
    the accounts are taken as they are set, untrimmed. *)
Theorem loadConfig_collects_the_own_ibans
    (fuel : nat) (env : Config.Env) (cfg : Config.Config) :
  Config.loadConfig fuel env = Some (Ok cfg) ->
  NoDup (Config.ownIbans cfg) /\
  ~ In [] (Config.ownIbans cfg) /\
  forall e,
    In e (Config.ownIbans cfg) <->
    (exists a, In a (Config.accounts cfg) /\ Config.iban a = e) \/
    (e <> [] /\
     exists s, In s (split 44 (match env (lit "OWN_IBANS") with
                               | Some s => s
                               | None => []
                               end)) /\ trim s = e).
Proof.
  intros H. destruct (loadConfig_ownIbans fuel env cfg H) as [Hown Hfilled].
  split; [rewrite Hown; apply setOf_NoDup; constructor|].
  split; [exact (loadConfig_no_empty_own_iban fuel env cfg H)|].
  intros e. rewrite Hown, setOf_In, in_app_iff, in_map_iff.
  unfold Config.extraIbans. rewrite filter_In, in_map_iff.
  split.
  - intros [[]|[(a & Ha & Hin)|((s & Hs & Hin) & Hne)]].
    + left. exists a. auto.
    + right. split; [intros E; rewrite E in Hne; discriminate|]. exists s. auto.
  - intros [(a & Hin & Ha)|(Hne & s & Hin & Hs)].
    + right. left. exists a. auto.
    + right. right. split; [exists s; auto|]. destruct e; [contradiction|reflexivity].
Qed.

(** The IBAN of the first account is listed in OWN_IBANS as well, and
    counts once; the padded entry is trimmed and the empty one dropped. *)
Lemma loadConfig_collects_the_own_ibans_witness :
  exists cfg,
    Config.loadConfig 3 example_env = Some (Ok cfg) /\
    Config.ownIbans cfg =
      [ lit "DE02120300000000202051"; lit "DE02500105170137075030";
        lit "DE02300209000106531065" ] /\
    NoDup (Config.ownIbans cfg).
Proof.
  eexists. split; [vm_compute; reflexivity|]. split; [reflexivity|].
  exact (proj1 (loadConfig_collects_the_own_ibans 3 example_env _
                  ltac:(vm_compute; reflexivity))).
Defined.



(** ** Grouping by budget *)

Lemma eqb_refl (a : jsstring) : JsString.eqb a a = true.
Proof. apply eqb_eq. reflexivity. Qed.

Lemma eqb_neq (a b : jsstring) : JsString.eqb a b = false <-> a <> b.
Proof.
  split.
  - intros H E. apply eqb_eq in E. congruence.
  - intros H. destruct (JsString.eqb a b) eqn:E; [|reflexivity].
    apply eqb_eq in E. contradiction.
Qed.

Lemma eqb_sym (a b : jsstring) : JsString.eqb a b = JsString.eqb b a.
Proof.
  destruct (JsString.eqb b a) eqn:E.
  - apply eqb_eq in E. subst. apply eqb_refl.
  - apply eqb_neq in E. apply eqb_neq. congruence.
Qed.

Lemma setOf_app (v1 v2 seen : list jsstring) :
  Config.setOf seen (v1 ++ v2) = Config.setOf (Config.setOf seen v1) v2.
Proof.
  revert seen. induction v1 as [|v v1 IH]; intros seen; simpl; [reflexivity|apply IH].
Qed.

Section MapFacts.

Variable V : Type.
Variable g : jsstring -> V.

Lemma map_get_tabulated (keys : list jsstring) (key : jsstring) :
  Main.map_get (map (fun k => (k, g k)) keys) key =
    if includes keys key then Some (g key) else None.
Proof.
  unfold includes. induction keys as [|k keys IH]; simpl; [reflexivity|].
  rewrite (eqb_sym key k). destruct (JsString.eqb k key) eqn:E.
  - apply eqb_eq in E. subst k. reflexivity.
  - exact IH.
Qed.

Lemma map_set_new (keys : list jsstring) (key : jsstring) (v : V) :
  ~ In key keys ->
  Main.map_set (map (fun k => (k, g k)) keys) key v =
    map (fun k => (k, g k)) keys ++ [(key, v)].
Proof.
  induction keys as [|k keys IH]; intros Hnot; simpl; [reflexivity|].
  destruct (JsString.eqb k key) eqn:E.
  - apply eqb_eq in E. exfalso. apply Hnot. left. exact E.
  - rewrite IH; [reflexivity|]. intros Hin. apply Hnot. right. exact Hin.
Qed.

Lemma map_set_old (keys : list jsstring) (key : jsstring) (v : V) :
  NoDup keys -> In key keys ->
  Main.map_set (map (fun k => (k, g k)) keys) key v =
    map (fun k => (k, if JsString.eqb k key then v else g k)) keys.
Proof.
  induction keys as [|k keys IH]; intros Hnd Hin; [contradiction|].
  inversion Hnd as [|k' keys' Hk Hnd']; subst. simpl.
  destruct (JsString.eqb k key) eqn:E.
  - apply eqb_eq in E. subst k. f_equal.
    apply map_ext_in. intros k' Hk'.
    destruct (JsString.eqb k' key) eqn:E'; [|reflexivity].
    apply eqb_eq in E'. subst k'. contradiction.
  - f_equal. apply IH; [exact Hnd'|].
    destruct Hin as [Hin|Hin]; [|exact Hin].
    apply eqb_neq in E. contradiction.
Qed.

End MapFacts.

Lemma budgets_In (accounts : list Config.DkbAccount) (k : jsstring) :
  In k (budgets accounts) <-> exists a, In a accounts /\ Config.syncId a = k.
Proof.
  unfold budgets. rewrite setOf_In, in_map_iff. split.
  - intros [[]|(a & Ha & Hin)]. exists a. auto.
  - intros (a & Hin & Ha). right. exists a. auto.
Qed.

Lemma filter_none (k : jsstring) (accounts : list Config.DkbAccount) :
  ~ In k (budgets accounts) -> filter (in_budget k) accounts = [].
Proof.
  intros Hnot. induction accounts as [|a accounts IH]; [reflexivity|].
  simpl. destruct (in_budget k a) eqn:E.
  - exfalso. apply Hnot. apply budgets_In. exists a. split; [left; reflexivity|].
    apply eqb_eq. exact E.
  - apply IH. intros Hin. apply Hnot. apply budgets_In.
    apply budgets_In in Hin. destruct Hin as (b & Hb & Hk). exists b. split; [right|]; auto.
Qed.

Lemma byBudget_groups (accounts : list Config.DkbAccount) :
  Main.byBudget accounts =
    map (fun k => (k, filter (in_budget k) accounts)) (budgets accounts).
Proof.
  induction accounts as [|a accounts IH] using rev_ind; [reflexivity|].
  unfold Main.byBudget in *. rewrite fold_left_app, IH. cbn [fold_left].
  set (k := Config.syncId a).
  assert (Hnd : NoDup (budgets accounts)) by (apply setOf_NoDup; constructor).
  unfold budgets at 3. rewrite map_app, setOf_app. fold (budgets accounts).
  cbn [map Config.setOf]. fold k.
  rewrite (map_get_tabulated _ (fun k => filter (in_budget k) accounts)).
  destruct (includes (budgets accounts) k) eqn:E.
  - apply includes_In in E.
    rewrite (map_set_old _ (fun k => filter (in_budget k) accounts)) by assumption.
    apply map_ext. intros k'. f_equal. rewrite filter_app. cbn [filter].
    unfold in_budget at 4. fold k. rewrite (eqb_sym k k').
    destruct (JsString.eqb k' k) eqn:E'.
    + apply eqb_eq in E'. subst k'. reflexivity.
    + rewrite app_nil_r. reflexivity.
  - apply includes_false in E.
    rewrite (map_set_new _ (fun k => filter (in_budget k) accounts)) by assumption.
    rewrite map_app. cbn [map]. f_equal.
    + apply map_ext_in. intros k' Hk'. f_equal. rewrite filter_app. cbn [filter].
      unfold in_budget at 3. fold k.
      destruct (JsString.eqb k k') eqn:E'; [|rewrite app_nil_r; reflexivity].
      apply eqb_eq in E'. subst k'. contradiction.
    + f_equal. f_equal. rewrite filter_app, (filter_none k accounts E). cbn [filter].
      unfold in_budget, k. rewrite eqb_refl. reflexivity.
Qed.

(** X15. The map main builds from the accounts has one entry for each
    sync id that occurs among them, in the order in which the sync ids first
    occur, and the entry of a sync id holds all accounts of that sync id, in
    the order of the configuration.  So each budget is met once, no group is
    empty, and every account is in the group of its budget and in no
    other. *)
Theorem byBudget_groups_the_accounts_by_sync_id (accounts : list Config.DkbAccount) :
  Main.byBudget accounts =
    map (fun k => (k, filter (in_budget k) accounts)) (budgets accounts) /\
  NoDup (map fst (Main.byBudget accounts)) /\
  (forall k group, In (k, group) (Main.byBudget accounts) -> group <> []) /\
  (forall a, In a accounts ->
     exists group, In (Config.syncId a, group) (Main.byBudget accounts) /\ In a group).
Proof.
  pose proof (byBudget_groups accounts) as H.
  split; [exact H|]. rewrite H.
  split; [|split].
  - rewrite map_map. cbn [fst]. rewrite map_id. apply setOf_NoDup. constructor.
  - intros k group Hin. apply in_map_iff in Hin. destruct Hin as (k' & Heq & Hk).
    injection Heq as -> <-. apply budgets_In in Hk. destruct Hk as (a & Hin & Ha).
    intros Hnil. assert (Hf : In a (filter (in_budget k) accounts)).
    { apply filter_In. split; [exact Hin|]. apply eqb_eq. exact Ha. }
    rewrite Hnil in Hf. contradiction.
  - intros a Hin. exists (filter (in_budget (Config.syncId a)) accounts). split.
    + apply in_map_iff. exists (Config.syncId a). split; [reflexivity|].
      apply budgets_In. exists a. auto.
    + apply filter_In. split; [exact Hin|]. apply eqb_refl.
Qed.

(** ** Looking up the account *)

(** X16. getActualAccountId returns the id of the first account whose
    name is equal to the given name once both are in lower case, and throws
    exactly when the budget has no such account; the error names the account
    that was looked for and lists the names of all accounts of the budget. *)
Theorem getActualAccountId_takes_the_first_match_ignoring_case
    (toLowerCase : jsstring -> jsstring)
    (accounts : list (jsstring * jsstring)) (name : jsstring) :
  (forall id,
     getActualAccountId toLowerCase accounts name = Ok id <->
     exists before a after,
       accounts = before ++ a :: after /\
       fst a = id /\
       toLowerCase (snd a) = toLowerCase name /\
       Forall (fun b => toLowerCase (snd b) <> toLowerCase name) before) /\
  ((forall a, In a accounts -> toLowerCase (snd a) <> toLowerCase name) <->
   getActualAccountId toLowerCase accounts name =
     Throw (lit "Konto " ++ [34] ++ name ++ [34]
            ++ lit " nicht in Actual Budget gefunden. Verf" ++ [252] ++ lit "gbare Konten: "
            ++ join (lit ", ") (map (fun a => [34] ++ snd a ++ [34]) accounts))).
Proof.
  unfold getActualAccountId.
  set (matches := fun a : jsstring * jsstring =>
                    JsString.eqb (toLowerCase (snd a)) (toLowerCase name)).
  assert (Hfind : forall a,
            find matches accounts = Some a <->
            exists before after,
              accounts = before ++ a :: after /\
              toLowerCase (snd a) = toLowerCase name /\
              Forall (fun b => toLowerCase (snd b) <> toLowerCase name) before).
  { intros a. induction accounts as [|b accounts IH]; simpl.
    - split; [discriminate|]. intros (before & after & H & _). destruct before; discriminate.
    - destruct (matches b) eqn:E; unfold matches in E.
      + apply eqb_eq in E. split.
        * intros H. injection H as <-. exists [], accounts. repeat split; auto.
        * intros ([|b' before] & after & H & Ha & Hbefore).
          -- injection H as <- _. reflexivity.
          -- injection H as <- _. inversion Hbefore. contradiction.
      + apply eqb_neq in E. rewrite IH. split.
        * intros (before & after & -> & Ha & Hbefore).
          exists (b :: before), after. repeat split; auto.
        * intros ([|b' before] & after & H & Ha & Hbefore).
          -- injection H as <- _. contradiction.
          -- injection H as <- ->. inversion Hbefore. exists before, after. auto. }
  split.
  - intros id. destruct (find matches accounts) as [a|] eqn:E.
    + destruct (proj1 (Hfind a) eq_refl) as (before & after & Hacc & Ha & Hbefore). split.
      * intros H. injection H as <-. exists before, a, after. auto.
      * intros (before' & a' & after' & Hacc' & Hid & Ha' & Hbefore').
        assert (Hsame : Some a = Some a').
        { apply Hfind. exists before', after'. auto. }
        injection Hsame as <-. rewrite Hid. reflexivity.
    + split; [discriminate|].
      intros (before & a & after & Hacc & _ & Ha & Hbefore).
      assert (Hsome : None = Some a).
      { apply Hfind. exists before, after. auto. }
      discriminate.
  - clear Hfind. destruct (find matches accounts) as [a|] eqn:E.
    + split; [|discriminate]. intros Hnone. apply find_some in E. destruct E as [Hin Hm].
      unfold matches in Hm. apply eqb_eq in Hm. exfalso. exact (Hnone a Hin Hm).
    + split; [reflexivity|]. intros _ a Hin Ha.
      pose proof (find_none _ _ E a Hin) as Hm. unfold matches in Hm.
      apply eqb_neq in Hm. contradiction.
Qed.

(** ** Rounding within one unit in the last place *)

Lemma pow2_pos (n : Z) : 0 <= n -> 0 < 2 ^ n.
Proof. intros. apply Z.pow_pos_nonneg; lia. Qed.

Lemma pow2_split (a b : Z) : 0 <= a -> 0 <= b -> 2 ^ (a + b) = 2 ^ a * 2 ^ b.
Proof. intros. apply Z.pow_add_r; assumption. Qed.

(** The result of rounding a mantissa of at least 53 bits, away from the
    ends of the exponent range: a mantissa of 53 bits, at most one unit of
    its last place away from the mantissa that was given. *)
Lemma binary_round_aux_within_ulp (s : bool) (m e : Z) (l : location) :
  0 < m ->
  53 <= Zdigits2 m ->
  - 1074 <= e + Zdigits2 m - 53 ->
  e + Zdigits2 m <= 1023 ->
  exists mr er,
    binary_round_aux prec emax s m e l = S754_finite s mr er /\
    e + Zdigits2 m - 53 <= er <= e + Zdigits2 m - 52 /\
    2 ^ 52 <= Zpos mr < 2 ^ 53 /\
    Zpos mr * 2 ^ (er - e) - 2 ^ (Zdigits2 m - 53) <= m
      < Zpos mr * 2 ^ (er - e) + 2 ^ (Zdigits2 m - 53).
Proof.
  intros Hm Hd Hlo Hhi.
  set (d := Zdigits2 m) in *.
  set (n1 := d - 53).
  assert (Hn1 : Z.max 0 (fexp prec emax (d + e) - e) = n1)
    by (unfold fexp, emin, prec, emax, n1; lia).
  pose proof (pow2_pos n1 ltac:(unfold n1; lia)) as Hu.
  unfold binary_round_aux.
  pose proof (shr_fexp_spec m e l (Z.lt_le_incl _ _ Hm)) as [H1 H1e].
  fold d in H1, H1e. rewrite Hn1 in H1, H1e.
  destruct (shr_fexp prec emax m e l) as [mrs' e'] eqn:E1.
  simpl fst in *; simpl snd in *.
  set (m' := shr_m mrs') in *.
  pose proof (Zdigits2_bounds m Hm) as [Hmlo Hmhi]. fold d in Hmlo, Hmhi.
  assert (Hdiv : m' * 2 ^ n1 <= m < (m' + 1) * 2 ^ n1).
  { rewrite H1. pose proof (Z.div_mod m (2 ^ n1) ltac:(lia)).
    pose proof (Z.mod_pos_bound m (2 ^ n1) Hu). lia. }
  assert (Hm' : 2 ^ 52 <= m' < 2 ^ 53).
  { replace (d - 1) with (52 + n1) in Hmlo by (unfold n1; lia).
    replace d with (53 + n1) in Hmhi by (unfold n1; lia).
    rewrite pow2_split in Hmlo, Hmhi by (unfold n1; lia). nia. }
  set (m1 := round_nearest_even m' (loc_of_shr_record mrs')).
  assert (Hm1 : m1 = m' \/ m1 = m' + 1) by apply round_nearest_even_cases.
  assert (Hm1p : 0 <= m1) by lia.
  pose proof (shr_fexp_spec m1 e' loc_Exact Hm1p) as [H2 H2e].
  destruct (Z.eq_dec m1 (2 ^ 53)) as [Hover|Hin].
  - (* the mantissa was carried into a 54th bit *)
    assert (Hd1 : Zdigits2 m1 = 54) by (rewrite Hover; reflexivity).
    rewrite Hd1 in H2, H2e.
    assert (Hn2 : Z.max 0 (fexp prec emax (54 + e') - e') = 1)
      by (unfold fexp, emin, prec, emax; unfold n1 in *; lia).
    rewrite Hn2 in H2, H2e.
    destruct (shr_fexp prec emax m1 e' loc_Exact) as [mrs'' e''] eqn:E2.
    simpl fst in *; simpl snd in *.
    rewrite H2, Hover. change (2 ^ 53 / 2 ^ 1) with (Zpos (Z.to_pos (2 ^ 52))).
    destruct (Z.leb_spec e'' (emax - prec)) as [Hle|Hgt];
      [|unfold emax, prec, n1 in *; lia].
    exists (Z.to_pos (2 ^ 52)), e''.
    split; [reflexivity|]. split; [unfold n1 in *; lia|].
    split; [change (Zpos (Z.to_pos (2 ^ 52))) with (2 ^ 52); lia|].
    change (Zpos (Z.to_pos (2 ^ 52))) with (2 ^ 52).
    replace (e'' - e) with (1 + n1) by lia.
    rewrite pow2_split by (unfold n1; lia).
    change (2 ^ 1) with 2. change (2 ^ 53) with (2 ^ 52 * 2) in Hover. nia.
  - assert (Hm1r : 2 ^ 52 <= m1 < 2 ^ 53) by lia.
    assert (Hd1 : Zdigits2 m1 = 53) by (apply Zdigits2_unique; [lia|exact Hm1r]).
    rewrite Hd1 in H2, H2e.
    assert (Hn2 : Z.max 0 (fexp prec emax (53 + e') - e') = 0)
      by (unfold fexp, emin, prec, emax; unfold n1 in *; lia).
    rewrite Hn2 in H2, H2e.
    destruct (shr_fexp prec emax m1 e' loc_Exact) as [mrs'' e''] eqn:E2.
    simpl fst in *; simpl snd in *.
    rewrite H2. change (2 ^ 0) with 1. rewrite Z.div_1_r.
    destruct m1 as [|p|p] eqn:Ep; try lia.
    destruct (Z.leb_spec e'' (emax - prec)) as [Hle|Hgt];
      [|unfold emax, prec, n1 in *; lia].
    exists p, e''.
    split; [reflexivity|]. split; [unfold n1 in *; lia|].
    split; [exact Hm1r|].
    replace (e'' - e) with n1 by lia. nia.
Qed.

(** ** Amounts in cents *)

Lemma Zdigits2_between (z lo : Z) :
  0 <= lo -> 2 ^ lo <= z < 2 ^ (lo + 2) -> lo + 1 <= Zdigits2 z <= lo + 2.
Proof.
  intros Hlo [H1 H2].
  assert (Hz : 0 < z) by (pose proof (pow2_pos lo Hlo); lia).
  destruct (Z_lt_le_dec z (2 ^ (lo + 1))) as [Hlt|Hge].
  - rewrite (Zdigits2_unique z (lo + 1) Hz); [lia|].
    replace (lo + 1 - 1) with lo by lia. lia.
  - rewrite (Zdigits2_unique z (lo + 2) Hz); [lia|].
    replace (lo + 2 - 1) with (lo + 1) by lia. lia.
Qed.

(** The number nearest to [n / 100]: its mantissa, scaled to the
    exponent of the quotient, is within 9 of the exact quotient. *)
Lemma of_decimal_cents (neg : bool) (n : Z) :
  0 < n < 2 ^ 47 ->
  exists mv ev,
    of_decimal neg n (- 2) = S754_finite neg mv ev /\
    2 ^ 52 <= Zpos mv < 2 ^ 53 /\
    2 <= ev + (61 - Z.log2 n) <= 4 /\
    - 900 <= 100 * (Zpos mv * 2 ^ (ev + (61 - Z.log2 n))) - n * 2 ^ (61 - Z.log2 n) <= 900.
Proof.
  intros [Hn Hn47]. unfold of_decimal.
  destruct (Z.leb_spec n 0) as [H0|_]; [lia|].
  change (0 <=? - 2) with false. cbv iota.
  change (10 ^ (- - 2)) with 100. change (Z.log2 100) with 6.
  pose proof (Z.log2_spec n Hn) as [Hl1 Hl2].
  pose proof (Z.log2_nonneg n) as Hl0.
  assert (Hl46 : Z.log2 n < 47) by (apply Z.log2_lt_pow2; lia).
  replace (Z.max 0 (6 + prec + 2 - Z.log2 n)) with (61 - Z.log2 n)
    by (unfold prec; lia).
  set (k := 61 - Z.log2 n) in *.
  assert (Hk : 15 <= k <= 61) by (unfold k; lia).
  pose proof (pow2_pos k ltac:(lia)) as HK.
  pose proof (Z_div_mod (Z.shiftl n k) 100 ltac:(lia)) as Hdiv.
  destruct (Z.div_eucl (Z.shiftl n k) 100) as [q r].
  destruct Hdiv as [Hq Hr].
  rewrite Z.shiftl_mul_pow2 in Hq by lia.
  assert (Hrange : 2 ^ 61 <= n * 2 ^ k < 2 ^ 62).
  { replace 61 with (Z.log2 n + k) at 1 by (unfold k; lia).
    replace 62 with (Z.succ (Z.log2 n) + k) by (unfold k; lia).
    rewrite !pow2_split by lia. nia. }
  assert (Hqr : 2 ^ 54 <= q < 2 ^ 56).
  { change (2 ^ 61) with (128 * 2 ^ 54) in Hrange.
    change (2 ^ 62) with (64 * 2 ^ 56) in Hrange. lia. }
  pose proof (Zdigits2_between q 54 ltac:(lia) Hqr) as Hdq.
  destruct (binary_round_aux_within_ulp neg q (- k) (new_location 100 r))
    as (mv & ev & Hv & Hev & Hmv & Hnear); try lia.
  exists mv, ev. split; [exact Hv|]. split; [exact Hmv|].
  split; [lia|].
  replace (ev - - k) with (ev + k) in Hnear by lia.
  assert (Hu : 2 ^ (Zdigits2 q - 53) <= 8).
  { change 8 with (2 ^ 3). apply Z.pow_le_mono_r; lia. }
  lia.
Qed.

(** The product by 100 of a number with a full mantissa: its mantissa,
    scaled to the exponent of the exact product, is within [2^53] of it. *)
Lemma mul_100_within_ulp (s : bool) (mv : positive) (ev : Z) :
  2 ^ 52 <= Zpos mv < 2 ^ 53 -> - 100 <= ev <= 100 ->
  exists mx ex,
    mul (S754_finite s mv ev) (of_Z 100) = S754_finite s mx ex /\
    52 <= ex - (ev - 46) <= 54 /\
    - 2 ^ 53 <= Zpos mx * 2 ^ (ex - (ev - 46)) - Zpos mv * (100 * 2 ^ 46) <= 2 ^ 53.
Proof.
  intros Hmv Hev.
  change (of_Z 100) with (S754_finite false 7036874417766400 (-46)).
  unfold mul. simpl SFmul. rewrite xorb_false_r.
  rewrite Pos2Z.inj_mul. change (Zpos 7036874417766400) with (100 * 2 ^ 46).
  set (P := Zpos mv * (100 * 2 ^ 46)).
  assert (HP : 2 ^ 104 <= P < 2 ^ 106).
  { unfold P. change (2 ^ 104) with (2 ^ 52 * (64 * 2 ^ 46)).
    change (2 ^ 106) with (2 ^ 53 * (128 * 2 ^ 46)).
    pose proof (pow2_pos 46 ltac:(lia)). nia. }
  pose proof (Zdigits2_between P 104 ltac:(lia) HP) as HdP.
  destruct (binary_round_aux_within_ulp s P (ev + -46) loc_Exact)
    as (mx & ex & Hx & Hex & Hmx & Hnear); try lia.
  exists mx, ex. split; [exact Hx|].
  replace (ex - (ev + -46)) with (ex - (ev - 46)) in Hnear by lia.
  split; [lia|].
  assert (Hu : 2 ^ (Zdigits2 P - 53) <= 2 ^ 53) by (apply Z.pow_le_mono_r; lia).
  lia.
Qed.

(** [amountToInteger] of the number nearest to [n / 100] is [n]. *)
Lemma amountToInteger_cents (neg : bool) (n : Z) :
  0 < n < 2 ^ 47 ->
  amountToInteger (of_decimal neg n (- 2)) = of_Z (cond_Zopp neg n).
Proof.
  intros Hn.
  destruct (of_decimal_cents neg n Hn) as (mv & ev & Hv & Hmv & Ha & H1).
  pose proof (Z.log2_nonneg n) as Hl0.
  assert (Hl46 : Z.log2 n < 47) by (apply Z.log2_lt_pow2; lia).
  set (k := 61 - Z.log2 n) in *.
  destruct (mul_100_within_ulp neg mv ev Hmv ltac:(lia)) as (mx & ex & Hx & Hb & H2).
  unfold amountToInteger. rewrite Hv, Hx. unfold Math_round.
  set (a := ev + k) in *. set (b := ex - (ev - 46)) in *.
  assert (Hex : ex < 0) by (unfold a, b, k in *; lia).
  destruct (Z.leb_spec 0 ex) as [Hge|_]; [lia|].
  assert (Hround : round_half_up neg mx ex = cond_Zopp neg n).
  { unfold round_half_up.
    replace (1 - ex) with (1 + - ex) by lia. rewrite pow2_split by lia.
    change (2 ^ 1) with 2.
    pose proof (pow2_pos (- ex) ltac:(lia)) as HD.
    pose proof (pow2_pos a ltac:(lia)) as HA.
    pose proof (pow2_pos b ltac:(lia)) as HB.
    assert (HA16 : 2 ^ a <= 16) by (change 16 with (2 ^ 4); apply Z.pow_le_mono_r; lia).
    assert (HK15 : 2 ^ 15 <= 2 ^ k) by (apply Z.pow_le_mono_r; unfold k; lia).
    assert (Hsum : 2 ^ (- ex) * (2 ^ b * 2 ^ a) = 2 ^ 46 * 2 ^ k).
    { rewrite <- !pow2_split by lia. f_equal. unfold a, b. lia. }
    set (D := 2 ^ (- ex)) in *. set (A := 2 ^ a) in *. set (B := 2 ^ b) in *.
    set (K := 2 ^ k) in *.
    set (E := Zpos mx * B - Zpos mv * (100 * 2 ^ 46)) in *.
    set (F := 100 * (Zpos mv * A) - n * K) in *.
    assert (Hid : (Zpos mx - n * D) * (B * A) = E * A + 2 ^ 46 * F).
    { unfold E, F. replace (n * D * (B * A)) with (n * (D * (B * A))) by ring.
      transitivity (Zpos mx * B * A - n * (D * (B * A))); [ring|].
      rewrite Hsum. ring. }
    assert (HEA : - (2 ^ 53 * 16) <= E * A <= 2 ^ 53 * 16) by nia.
    assert (HBA : 0 < B * A) by nia.
    assert (Hup : 2 * (Zpos mx - n * D) < D).
    { apply (Z.mul_lt_mono_pos_r (B * A)); [exact HBA|].
      replace (2 * (Zpos mx - n * D) * (B * A))
        with (2 * ((Zpos mx - n * D) * (B * A))) by ring.
      rewrite Hid, Hsum. change (2 ^ 15) with 32768 in HK15.
      change (2 ^ 53) with (2 ^ 46 * 128) in HEA.
      pose proof (pow2_pos 46 ltac:(lia)). nia. }
    assert (Hdown : - D < 2 * (Zpos mx - n * D)).
    { apply (Z.mul_lt_mono_pos_r (B * A)); [exact HBA|].
      replace (2 * (Zpos mx - n * D) * (B * A))
        with (2 * ((Zpos mx - n * D) * (B * A))) by ring.
      replace (- D * (B * A)) with (- (D * (B * A))) by ring.
      rewrite Hid, Hsum. change (2 ^ 15) with 32768 in HK15.
      change (2 ^ 53) with (2 ^ 46 * 128) in HEA.
      pose proof (pow2_pos 46 ltac:(lia)). nia. }
    symmetry.
    destruct neg; cbn [cond_Zopp].
    - apply (Z.div_unique _ _ _ (2 * - Zpos mx + D - - n * (2 * D))); [lia|ring].
    - apply (Z.div_unique _ _ _ (2 * Zpos mx + D - n * (2 * D))); [lia|ring]. }
  rewrite Hround. unfold of_Z.
  destruct neg; cbn [cond_Zopp]; destruct n; try lia; reflexivity.
Qed.

(** ** Reading an amount of two decimals *)

Lemma is_digit_range (c : Z) : is_digit c = true <-> 48 <= c <= 57.
Proof.
  unfold is_digit. rewrite andb_true_iff, !Z.leb_le. tauto.
Qed.

Lemma digit_not_white_space (c : Z) : 45 <= c <= 57 -> is_white_space c = false.
Proof.
  intros Hc. apply negb_true_iff.
  apply (range_check (fun c => negb (is_white_space c)) 45 13); [reflexivity|lia].
Qed.

Lemma span_digits_app (ds rest : jsstring) :
  forallb is_digit ds = true ->
  match rest with c :: _ => is_digit c = false | [] => True end ->
  span_digits (ds ++ rest) = (ds, rest).
Proof.
  intros Hds Hrest. induction ds as [|d ds IH]; simpl.
  - destruct rest as [|c r]; [reflexivity|]. simpl. rewrite Hrest. reflexivity.
  - simpl in Hds. apply andb_true_iff in Hds. destruct Hds as [Hd Hds].
    rewrite Hd, (IH Hds). reflexivity.
Qed.

Lemma replace_first_app (c d : Z) (p r : jsstring) :
  ~ In c p -> replace_first c d (p ++ c :: r) = p ++ d :: r.
Proof.
  induction p as [|x p IH]; intros Hnot; simpl.
  - rewrite Z.eqb_refl. reflexivity.
  - destruct (Z.eqb_spec x c) as [->|Hx].
    + exfalso. apply Hnot. left. reflexivity.
    + rewrite IH; [reflexivity|]. intros Hin. apply Hnot. right. exact Hin.
Qed.

Lemma digits_value_from (ds : jsstring) (acc : Z) :
  forallb is_digit ds = true -> 0 <= acc ->
  0 <= fold_left (fun acc c => 10 * acc + (c - 48)) ds acc.
Proof.
  revert acc. induction ds as [|d ds IH]; intros acc Hds Hacc; cbn [fold_left];
    [exact Hacc|].
  cbn [forallb] in Hds. apply andb_true_iff in Hds. destruct Hds as [Hd Hds].
  apply is_digit_range in Hd. apply IH; [exact Hds|lia].
Qed.

(** What [parseFloat] reads from a sign, digits, a point, digits, and a
    rest that does not go on with a digit. *)
Lemma parseFloat_decimal (neg : bool) (ip fp rest : jsstring) :
  forallb is_digit ip = true -> forallb is_digit fp = true ->
  match rest with c :: _ => is_digit c = false | [] => True end ->
  parseFloat ((if neg then [45] else []) ++ ip ++ 46 :: fp ++ rest) =
    if is_empty ip && is_empty fp then NaN
    else of_decimal neg (digits_value (ip ++ fp))
           (exponent_part rest - Z.of_nat (List.length fp)).
Proof.
  intros Hip Hfp Hrest. unfold parseFloat.
  assert (Hsign : take_sign (trimStart ((if neg then [45] else []) ++ ip ++ 46 :: fp ++ rest))
                  = (neg, ip ++ 46 :: fp ++ rest)).
  { destruct neg; [reflexivity|]. cbn [app].
    destruct ip as [|d ds]; [reflexivity|].
    cbn [forallb] in Hip. apply andb_true_iff in Hip. destruct Hip as [Hd _].
    apply is_digit_range in Hd.
    rewrite trimStart_fixed.
    - cbn [app]. unfold take_sign.
      destruct d as [|p|p]; try lia.
      do 6 (destruct p as [p|p|]; try lia; try reflexivity).
    - cbn [app]. apply digit_not_white_space. lia. }
  rewrite Hsign.
  assert (Hinf : starts_with (lit "Infinity") (ip ++ 46 :: fp ++ rest) = false).
  { destruct ip as [|d ds]; [reflexivity|].
    cbn [forallb] in Hip. apply andb_true_iff in Hip. destruct Hip as [Hd _].
    apply is_digit_range in Hd. cbn [app].
    change (lit "Infinity") with (73 :: lit "nfinity"). cbn [starts_with].
    destruct (Z.eqb_spec 73 d); [lia|reflexivity]. }
  rewrite Hinf.
  rewrite (span_digits_app ip (46 :: fp ++ rest) Hip eq_refl).
  rewrite (span_digits_app fp rest Hfp Hrest).
  reflexivity.
Qed.

(** The same for two digits after the point and nothing after them. *)
Lemma parseFloat_two_decimals (neg : bool) (ip : jsstring) (c1 c2 : Z) :
  forallb is_digit ip = true -> is_digit c1 = true -> is_digit c2 = true ->
  parseFloat ((if neg then [45] else []) ++ ip ++ [46; c1; c2]) =
    of_decimal neg (digits_value (ip ++ [c1; c2])) (- 2).
Proof.
  intros Hip H1 H2.
  pose proof (parseFloat_decimal neg ip [c1; c2] [] Hip) as H.
  cbn [forallb app] in H. rewrite H1, H2 in H. specialize (H eq_refl I).
  rewrite H. replace (is_empty ip && is_empty [c1; c2]) with false
    by (destruct ip; reflexivity).
  reflexivity.
Qed.

Lemma of_Z_not_NaN (n : Z) : isNaN (of_Z n) = false.
Proof.
  unfold of_Z. destruct n; simpl; [reflexivity| |]; apply binary_round_not_NaN.
Qed.

Lemma amountToInteger_not_NaN_inv (v : number) :
  isNaN (amountToInteger v) = false -> isNaN v = false.
Proof. destruct v; try reflexivity. intros H. discriminate. Qed.

(** X17. An amount field that is, once its full stops are removed, an
    optional minus sign, digits, a comma and two digits, and that stands for
    less than [2^47] cents, is read exactly: the amount of the transaction is
    the integer that the digits spell with the comma left out, with the sign
    of the field.  Neither the conversion of the decimal to binary nor the
    multiplication by 100 loses a cent.  A field of zeros gives a zero of the
    sign of the field. *)
Theorem amounts_of_two_decimals_are_exact_cents
    (raw : jsstring) (neg : bool) (ip : jsstring) (c1 c2 : Z) :
  forallb is_digit ip = true -> is_digit c1 = true -> is_digit c2 = true ->
  remove_all 46 raw = (if neg then [45] else []) ++ ip ++ [44; c1; c2] ->
  digits_value (ip ++ [c1; c2]) < 2 ^ 47 ->
  (exists v,
     parseGermanDecimal raw = Ok v /\
     amountToInteger v = cents neg (ip ++ [c1; c2])) /\
  (forall up acct own row t,
     Betrag row = Some raw ->
     transformRow up acct own row = Ok (Some t) ->
     amount t = cents neg (ip ++ [c1; c2])).
Proof.
  intros Hip H1 H2 Hraw Hbound.
  assert (Hparse : parseFloat (replace_first 44 46 (remove_all 46 raw)) =
                   of_decimal neg (digits_value (ip ++ [c1; c2])) (- 2)).
  { rewrite Hraw, app_assoc, replace_first_app.
    - rewrite <- app_assoc. apply parseFloat_two_decimals; assumption.
    - intros Hin. apply in_app_iff in Hin. destruct Hin as [Hin|Hin].
      + destruct neg; [destruct Hin as [Hin|[]]; discriminate|contradiction].
      + rewrite forallb_forall in Hip. apply Hip, is_digit_range in Hin. lia. }
  assert (Hn : 0 <= digits_value (ip ++ [c1; c2])).
  { apply digits_value_from; [|lia].
    rewrite forallb_app, Hip. simpl. rewrite H1, H2. reflexivity. }
  assert (Hamount : amountToInteger (of_decimal neg (digits_value (ip ++ [c1; c2])) (- 2))
                    = cents neg (ip ++ [c1; c2])).
  { unfold cents. destruct (Z.eqb_spec (digits_value (ip ++ [c1; c2])) 0) as [E|E].
    - rewrite E. destruct neg; reflexivity.
    - apply amountToInteger_cents. lia. }
  assert (Hnan : isNaN (of_decimal neg (digits_value (ip ++ [c1; c2])) (- 2)) = false).
  { apply amountToInteger_not_NaN_inv. rewrite Hamount. unfold cents.
    destruct (digits_value (ip ++ [c1; c2]) =? 0); [reflexivity|].
    apply of_Z_not_NaN. }
  assert (Hv : parseGermanDecimal raw =
               Ok (of_decimal neg (digits_value (ip ++ [c1; c2])) (- 2))).
  { unfold parseGermanDecimal. rewrite Hparse, Hnan. reflexivity. }
  split.
  - eexists. split; [exact Hv|exact Hamount].
  - intros up acct own row t Hrow Ht.
    destruct (transformRow_pushed up acct own row t Ht)
      as (_ & v & d & Hv' & _ & _ & _ & Ha & _).
    rewrite Hrow in Hv'.
    assert (Hraw' : or_empty (Some raw) = raw).
    { destruct raw; reflexivity. }
    rewrite Hraw', Hv in Hv'. injection Hv' as <-. rewrite Ha. exact Hamount.
Qed.

(** A payment of 1.234,56: minus 123456 cents. *)
Lemma amounts_of_two_decimals_are_exact_cents_witness :
  exists v,
    parseGermanDecimal (lit "-1.234,56") = Ok v /\
    amountToInteger v = of_Z (- 123456).
Proof.
  exact (proj1 (amounts_of_two_decimals_are_exact_cents
                  (lit "-1.234,56") true (lit "1234") 53 54
                  eq_refl eq_refl eq_refl eq_refl ltac:(vm_compute; reflexivity))).
Defined.

(** ** What follows the number *)

Lemma of_decimal_not_NaN (neg : bool) (n e : Z) : isNaN (of_decimal neg n e) = false.
Proof.
  unfold of_decimal.
  destruct (Z.leb_spec n 0) as [Hn|Hn]; [reflexivity|].
  destruct (Z.leb_spec 0 e) as [He|He].
  - destruct (cond_Zopp neg (n * 10 ^ e)); simpl;
      [reflexivity|apply binary_round_not_NaN|apply binary_round_not_NaN].
  - set (d := 10 ^ (- e)).
    set (k := Z.max 0 (Z.log2 d + prec + 2 - Z.log2 n)).
    assert (Hd : 0 < d) by (apply Z.pow_pos_nonneg; lia).
    pose proof (Z_div_mod (Z.shiftl n k) d ltac:(lia)) as Hdiv.
    destruct (Z.div_eucl (Z.shiftl n k) d) as [q r]. destruct Hdiv as [Hq Hr].
    assert (Hs : 0 <= Z.shiftl n k) by (apply Z.shiftl_nonneg; lia).
    assert (Hq0 : 0 <= q) by nia.
    destruct (binary_round_aux_sign neg q (- k) (new_location d r) Hq0)
      as [E|[E|(m' & e' & E)]]; rewrite E; reflexivity.
Qed.

(** X18. parseGermanDecimal reads a number from the start of the value
    and ignores what follows it: for a value that is, once its full stops
    are removed, an optional minus sign, digits, a comma, digits, and then
    any text that does not go on with a digit or an exponent, the result is
    the number the two groups of digits give, and nothing is thrown.  A
    second comma and what follows it are dropped. *)
Theorem parseGermanDecimal_ignores_what_follows_the_number
    (raw : jsstring) (neg : bool) (ip fp rest : jsstring) :
  forallb is_digit ip = true -> forallb is_digit fp = true ->
  ip ++ fp <> [] ->
  match rest with
  | c :: _ => is_digit c = false /\ c <> 101 /\ c <> 69
  | [] => True
  end ->
  remove_all 46 raw = (if neg then [45] else []) ++ ip ++ 44 :: fp ++ rest ->
  parseGermanDecimal raw =
    Ok (of_decimal neg (digits_value (ip ++ fp)) (- Z.of_nat (List.length fp))).
Proof.
  intros Hip Hfp Hne Hrest Hraw. unfold parseGermanDecimal.
  assert (Hparse : parseFloat (replace_first 44 46 (remove_all 46 raw)) =
                   of_decimal neg (digits_value (ip ++ fp)) (- Z.of_nat (List.length fp))).
  { rewrite Hraw, app_assoc, replace_first_app.
    - rewrite <- app_assoc, parseFloat_decimal; try assumption.
      + replace (is_empty ip && is_empty fp) with false
          by (destruct ip; [destruct fp; [contradiction|]|]; reflexivity).
        replace (exponent_part rest) with 0; [reflexivity|].
        destruct rest as [|c r]; [reflexivity|]. destruct Hrest as (_ & H1 & H2).
        unfold exponent_part.
        destruct (Z.eqb_spec c 101); [contradiction|].
        destruct (Z.eqb_spec c 69); [contradiction|reflexivity].
      + destruct rest as [|c r]; [exact I|]. apply Hrest.
    - intros Hin. apply in_app_iff in Hin. destruct Hin as [Hin|Hin].
      + destruct neg; [destruct Hin as [Hin|[]]; discriminate|contradiction].
      + rewrite forallb_forall in Hip. apply Hip, is_digit_range in Hin. lia. }
  rewrite Hparse, of_decimal_not_NaN. reflexivity.
Qed.

(** An amount written with commas for the thousands, and an amount
    followed by the currency: 1.234 and 12.5. *)
Lemma parseGermanDecimal_ignores_what_follows_the_number_witness :
  parseGermanDecimal (lit "1,234,56") = Ok (of_decimal false 1234 (- 3)) /\
  amountToInteger (of_decimal false 1234 (- 3)) = of_Z 123 /\
  parseGermanDecimal (lit "12,50 EUR") = Ok (of_decimal false 1250 (- 2)).
Proof.
  split; [|split; [reflexivity|]].
  - exact (parseGermanDecimal_ignores_what_follows_the_number
             (lit "1,234,56") false (lit "1") (lit "234") (lit ",56")
             eq_refl eq_refl ltac:(discriminate)
             ltac:(vm_compute; repeat split; discriminate) eq_refl).
  - exact (parseGermanDecimal_ignores_what_follows_the_number
             (lit "12,50 EUR") false (lit "12") (lit "50") (lit " EUR")
             eq_refl eq_refl ltac:(discriminate)
             ltac:(vm_compute; repeat split; discriminate) eq_refl).
Defined.

(** ** The run *)

Section RunFacts.

Variable World : Type.
Variable host : Run.Host World.

Lemma bindM_run {A B : Type} (m : Run.M World A) (k : A -> Run.M World B)
    (st : Run.State World) :
  Run.bindM World m k st =
    match m st with
    | (Ok a, st') => k a st'
    | (Throw msg, st') => (Throw msg, st')
    end.
Proof. reflexivity. Qed.

Lemma emits_weaken {A : Type} (P Q : Run.Event -> bool) (m : Run.M World A) :
  (forall e, P e = true -> Q e = true) -> emits P m -> emits Q m.
Proof.
  intros HPQ Hm st. destruct (Hm st) as (evs & Htrace & Hall).
  exists evs. split; [exact Htrace|].
  rewrite forallb_forall in *. auto.
Qed.

Lemma emits_ret {A : Type} (P : Run.Event -> bool) (a : A) :
  emits P (Run.ret World a).
Proof. intros st. exists []. simpl. rewrite app_nil_r. auto. Qed.

Lemma emits_lift {A : Type} (P : Run.Event -> bool) (r : result A) :
  emits P (Run.lift World r).
Proof. intros st. exists []. simpl. rewrite app_nil_r. auto. Qed.

Lemma emits_read {A : Type} (P : Run.Event -> bool) (f : World -> A) :
  emits P (Run.read World f).
Proof. intros st. exists []. simpl. rewrite app_nil_r. auto. Qed.

Lemma emits_emit (P : Run.Event -> bool) (e : Run.Event) :
  P e = true -> emits P (Run.emit World e).
Proof. intros He st. exists [e]. simpl. rewrite He. auto. Qed.

Lemma emits_call {A : Type} (P : Run.Event -> bool) (e : Run.Event)
    (f : World -> result A * World) :
  P e = true -> emits P (Run.call World e f).
Proof.
  intros He st. exists [e]. unfold Run.call.
  destruct (f (Run.world st)) as [r w]. simpl. rewrite He. auto.
Qed.

Lemma emits_bind {A B : Type} (P : Run.Event -> bool) (m : Run.M World A)
    (k : A -> Run.M World B) :
  emits P m -> (forall a, emits P (k a)) -> emits P (Run.bindM World m k).
Proof.
  intros Hm Hk st. unfold Run.bindM.
  destruct (Hm st) as (evs1 & Ht1 & Hall1).
  destruct (m st) as [[a|msg] st1]; simpl in Ht1.
  - destruct (Hk a st1) as (evs2 & Ht2 & Hall2).
    exists (evs1 ++ evs2). rewrite Ht2, Ht1, app_assoc, forallb_app, Hall1, Hall2. auto.
  - exists evs1. simpl. auto.
Qed.

Lemma emits_forEach {A : Type} (P : Run.Event -> bool) (body : A -> Run.M World unit)
    (items : list A) :
  (forall x, emits P (body x)) -> emits P (Run.forEach World body items).
Proof.
  intros Hbody. induction items as [|x items IH]; simpl.
  - apply emits_ret.
  - apply emits_bind; [apply Hbody|intros _; exact IH].
Qed.

Lemma emits_readFile (P : Run.Event -> bool) (filePath : jsstring) :
  emits P (fun st : Run.State World =>
             (Run.readFileSync host (Run.world st) filePath, st)).
Proof. intros st. exists []. simpl. rewrite app_nil_r. auto. Qed.

Lemma processAccount_emits (config : Config.Config) (account : Config.DkbAccount) :
  emits account_event (Run.processAccount World host config account).
Proof.
  unfold Run.processAccount, Run.log, Run.readDkbCsv, Run.fetchActualAccountId,
    Run.importToAccount.
  apply emits_bind; [apply emits_emit; reflexivity|intros _].
  apply emits_bind; [apply emits_read|intros found].
  destruct found as [[|c p]|]; try (apply emits_emit; reflexivity).
  apply emits_bind; [apply emits_emit; reflexivity|intros _].
  apply emits_bind;
    [apply emits_bind; [apply emits_readFile|intros content; apply emits_lift]|intros rows].
  apply emits_bind; [apply emits_emit; reflexivity|intros _].
  destruct rows as [|row rows]; [apply emits_emit; reflexivity|].
  apply emits_bind;
    [apply emits_bind; [apply emits_call; reflexivity|intros accounts; apply emits_lift]
    |intros actualAccountId].
  apply emits_bind; [apply emits_emit; reflexivity|intros _].
  apply emits_bind; [apply emits_lift|intros transactions].
  apply emits_bind; [apply emits_emit; reflexivity|intros _].
  apply emits_bind; [|intros result; apply emits_emit; reflexivity].
  apply emits_bind; [apply emits_call; reflexivity|intros result].
  apply emits_bind; [|intros _; apply emits_ret].
  destruct (Run.errors result) as [[|e rest]|];
    [apply emits_ret|apply emits_emit; reflexivity|apply emits_ret].
Qed.

(** A call of the API followed by steps of one kind: the event of the
    call, and then events of that kind. *)
Lemma emits_after_call {A B C : Type} (P : Run.Event -> bool) (e : Run.Event)
    (f : World -> result A * World) (k1 : A -> Run.M World B) (k2 : B -> Run.M World C)
    (st : Run.State World) :
  (forall a, emits P (k1 a)) -> (forall b, emits P (k2 b)) ->
  exists events,
    Run.trace (snd (Run.bindM World (Run.bindM World (Run.call World e f) k1) k2 st)) =
      Run.trace st ++ e :: events /\
    forallb P events = true.
Proof.
  intros Hk1 Hk2.
  pose proof (fun a => emits_bind P (k1 a) k2 (Hk1 a) Hk2) as Hk.
  unfold Run.bindM, Run.call in *.
  destruct (f (Run.world st)) as [[a|msg] w].
  - destruct (Hk a {| Run.world := w; Run.trace := Run.trace st ++ [e] |})
      as (evs & Ht & Hall).
    exists evs. rewrite Ht. cbn [Run.trace]. rewrite <- app_assoc. auto.
  - exists []. cbn [snd Run.trace]. auto.
Qed.

(** The work on a budget: a line, the download, and then events of the
    budget with no other download. *)
Lemma processBudget_emits (config : Config.Config)
    (budget : jsstring * list Config.DkbAccount) (st : Run.State World) :
  exists line events,
    Run.trace (snd (Run.processBudget World host config budget st)) =
      Run.trace st ++ Run.ConsoleLog line :: Run.ApiDownloadBudget (fst budget) :: events /\
    forallb budget_event events = true.
Proof.
  unfold Run.processBudget, Run.connectToBudget.
  unfold Run.bindM at 1. unfold Run.log at 1. unfold Run.emit at 1.
  match goal with
  | |- context [snd (Run.bindM World (Run.bindM World (Run.call World ?e ?f) ?k1) ?k2 ?s)] =>
      destruct (emits_after_call budget_event e f k1 k2 s) as (evs & Ht & Hall)
  end.
  - intros _. apply emits_bind; [apply emits_call; reflexivity|intros _].
    apply emits_emit. reflexivity.
  - intros _. apply emits_bind.
    + apply emits_forEach. intros account.
      apply (emits_weaken account_event); [|apply processAccount_emits].
      intros e He. destruct e; try discriminate; reflexivity.
    + intros _. apply emits_bind; [apply emits_call; reflexivity|intros _].
      apply emits_emit. reflexivity.
  - eexists. exists evs. rewrite Ht. cbn [Run.trace]. rewrite <- app_assoc.
    split; [reflexivity|exact Hall].
Qed.

Lemma downloaded_none (events : list Run.Event) :
  forallb budget_event events = true -> downloaded events = [].
Proof.
  induction events as [|e events IH]; [reflexivity|].
  cbn [forallb]. intros H. apply andb_true_iff in H. destruct H as [He Hall].
  unfold downloaded in *. cbn [flat_map]. rewrite (IH Hall).
  destruct e; try discriminate; reflexivity.
Qed.

Lemma budget_event_inside (events : list Run.Event) :
  forallb budget_event events = true -> forallb inside_a_run events = true.
Proof.
  intros H. rewrite forallb_forall in *. intros e He. specialize (H e He).
  destruct e; try discriminate; reflexivity.
Qed.

(** The loop over the budgets: its events are those of a run, and the
    budgets downloaded are the first of the budgets given, all of them when
    the loop returns. *)
Lemma budgets_loop_emits (config : Config.Config)
    (groups : list (jsstring * list Config.DkbAccount)) :
  forall st, exists events n,
    Run.trace (snd (Run.forEach World (Run.processBudget World host config) groups st)) =
      Run.trace st ++ events /\
    forallb inside_a_run events = true /\
    downloaded events = firstn n (map fst groups) /\
    (fst (Run.forEach World (Run.processBudget World host config) groups st) = Ok tt ->
     downloaded events = map fst groups).
Proof.
  induction groups as [|g groups IH]; intros st.
  - exists [], 0%nat. simpl. rewrite app_nil_r. auto.
  - cbn [Run.forEach]. rewrite bindM_run.
    destruct (processBudget_emits config g st) as (line & evs1 & Ht1 & Hall1).
    destruct (Run.processBudget World host config g st) as [[[]|msg] st1];
      cbn [snd] in Ht1.
    + destruct (IH st1) as (evs2 & n & Ht2 & Hall2 & Hd2 & Hok2).
      exists (Run.ConsoleLog line :: Run.ApiDownloadBudget (fst g) :: evs1 ++ evs2), (S n).
      rewrite Ht2, Ht1, <- app_assoc. cbn [app].
      split; [reflexivity|].
      split; [cbn [forallb inside_a_run]; rewrite forallb_app, (budget_event_inside _ Hall1),
                Hall2; reflexivity|].
      unfold downloaded in *. cbn [flat_map app map firstn].
      rewrite flat_map_app. fold (downloaded evs1). rewrite (downloaded_none _ Hall1).
      cbn [app]. split; [rewrite Hd2; reflexivity|].
      intros Hok. rewrite (Hok2 Hok). reflexivity.
    + exists (Run.ConsoleLog line :: Run.ApiDownloadBudget (fst g) :: evs1), 1%nat.
      cbn [snd fst]. split; [exact Ht1|].
      split; [cbn [forallb inside_a_run]; apply (budget_event_inside _ Hall1)|].
      unfold downloaded. cbn [flat_map app map firstn].
      fold (downloaded evs1). rewrite (downloaded_none _ Hall1).
      split; [reflexivity|discriminate].
Qed.

End RunFacts.

(** The loop stops at the first body that throws. *)
Lemma forEach_throws {World A : Type} (body : A -> Run.M World unit)
    (before : list A) (x : A) (after : list A) (st st1 st2 : Run.State World)
    (msg : jsstring) :
  Run.forEach World body before st = (Ok tt, st1) ->
  body x st1 = (Throw msg, st2) ->
  Run.forEach World body (before ++ x :: after) st = (Throw msg, st2).
Proof.
  revert st. induction before as [|b before IH]; intros st Hbefore Hx.
  - injection Hbefore as <-. cbn [app Run.forEach]. rewrite bindM_run, Hx. reflexivity.
  - cbn [app Run.forEach] in *. rewrite bindM_run in *.
    destruct (body b st) as [[[]|m] st']; [|discriminate].
    apply IH; assumption.
Qed.

Lemma budgets_of_byBudget (accounts : list Config.DkbAccount) :
  map fst (Main.byBudget accounts) = budgets accounts.
Proof. rewrite byBudget_groups, map_map. cbn [fst]. apply map_id. Qed.

Lemma finally_run {World A : Type} (body : Run.M World A) (cleanup : Run.M World unit)
    (st : Run.State World) :
  Run.finally World body cleanup st =
    match cleanup (snd (body st)) with
    | (Ok _, st2) => (fst (body st), st2)
    | (Throw msg, st2) => (Throw msg, st2)
    end.
Proof. unfold Run.finally. destruct (body st) as [r st1]. reflexivity. Qed.

(** The shutdown: the call, and a line on the console when it returns. *)
Lemma shutdown_run {World : Type} (host : Run.Host World) (st : Run.State World) :
  exists events,
    Run.trace (snd (Run.shutdown World host st)) = Run.trace st ++ Run.ApiShutdown :: events /\
    forallb (fun e => negb (is_api_call e)) events = true /\
    ~ In (Run.ProcessExit 1) events.
Proof.
  unfold Run.shutdown. rewrite bindM_run. unfold Run.call, Run.log, Run.emit.
  destruct (Run.api_shutdown host (Run.world st)) as [[[]|msg] w]; cbn [snd Run.trace].
  - eexists. rewrite <- app_assoc. cbn [app]. split; [reflexivity|].
    split; [reflexivity|]. intros [H|[]]. discriminate.
  - exists []. split; [reflexivity|]. split; [reflexivity|]. intros [].
Qed.

(** X19. Once the configuration is loaded and the API initialised, every
    run ends with one call of shutdown, whatever is thrown in between: the
    events of the run are the initialisation, the work on the budgets with no
    further initialisation or shutdown, the shutdown, and after it only lines
    on the console and the exit.  The budgets are downloaded in the order in
    which their sync ids first occur among the accounts, none of them twice;
    all of them when the process does not exit with code 1. *)
Theorem every_initialised_run_is_shut_down_once
    (World : Type) (host : Run.Host World) (fuel : nat) (config : Config.Config)
    (st0 : Run.State World) (w1 : World) :
  Config.loadConfig fuel (Run.env host) = Some (Ok config) ->
  Run.api_init host (Config.dataDir config) (Config.serverURL config)
    (Config.password config) (Run.world st0) = (Ok tt, w1) ->
  exists st' inside tail,
    Run.program World host fuel st0 = Some st' /\
    Run.trace st' =
      Run.trace st0
      ++ Run.ApiInit (Config.dataDir config) (Config.serverURL config)
           (Config.password config)
         :: inside ++ Run.ApiShutdown :: tail /\
    forallb inside_a_run inside = true /\
    forallb (fun e => negb (is_api_call e)) tail = true /\
    (exists n, downloaded inside = firstn n (budgets (Config.accounts config))) /\
    NoDup (downloaded inside) /\
    (~ In (Run.ProcessExit 1) tail ->
     downloaded inside = budgets (Config.accounts config)).
Proof.
  intros Hconfig Hinit.
  unfold Run.program, Run.main. rewrite Hconfig. unfold Run.mainWith.
  rewrite bindM_run. unfold Run.init, Run.call. rewrite Hinit.
  set (st1 := {| Run.world := w1;
                 Run.trace := Run.trace st0
                   ++ [Run.ApiInit (Config.dataDir config) (Config.serverURL config)
                         (Config.password config)] |}).
  destruct (budgets_loop_emits World host config (Main.byBudget (Config.accounts config)) st1)
    as (inside & n & Ht & Hinside & Hprefix & Hall).
  rewrite budgets_of_byBudget in Hprefix, Hall.
  assert (Hnodup : NoDup (downloaded inside)).
  { rewrite Hprefix.
    apply (NoDup_app_remove_r _ (skipn n (budgets (Config.accounts config)))).
    rewrite firstn_skipn. apply setOf_NoDup. constructor. }
  rewrite bindM_run, finally_run.
  destruct (Run.forEach World (Run.processBudget World host config)
              (Main.byBudget (Config.accounts config)) st1) as [r st2].
  cbn [fst snd] in *.
  destruct (shutdown_run host st2) as (evs & Hs & Hevs & Hnoexit).
  assert (Hshape : forall final,
            Run.trace st2 ++ Run.ApiShutdown :: evs ++ final =
            Run.trace st0
            ++ Run.ApiInit (Config.dataDir config) (Config.serverURL config)
                 (Config.password config)
               :: inside ++ Run.ApiShutdown :: evs ++ final).
  { intros final. rewrite Ht. unfold st1. cbn [Run.trace].
    rewrite <- !app_assoc. reflexivity. }
  destruct (Run.shutdown World host st2) as [[[]|msg2] st3]; cbn [snd] in Hs.
  - destruct r as [[]|msg].
    + unfold Run.log, Run.emit. cbn [Run.world Run.trace].
      exists {| Run.world := Run.world st3;
                Run.trace := Run.trace st3 ++ [Run.ConsoleLog (10 :: lit "Fertig.")] |},
             inside, (evs ++ [Run.ConsoleLog (10 :: lit "Fertig.")]).
      split; [reflexivity|]. cbn [Run.trace].
      split; [rewrite Hs, <- app_assoc; apply Hshape|].
      split; [exact Hinside|].
      split; [rewrite forallb_app, Hevs; reflexivity|].
      split; [exists n; exact Hprefix|]. split; [exact Hnodup|].
      intros _. apply Hall. reflexivity.
    + exists {| Run.world := Run.world st3;
                Run.trace := Run.trace st3
                             ++ [Run.ConsoleError (lit "Fataler Fehler:") [msg];
                                 Run.ProcessExit 1] |},
             inside, (evs ++ [Run.ConsoleError (lit "Fataler Fehler:") [msg];
                              Run.ProcessExit 1]).
      split; [reflexivity|]. cbn [Run.trace].
      split; [rewrite Hs, <- app_assoc; apply Hshape|].
      split; [exact Hinside|].
      split; [rewrite forallb_app, Hevs; reflexivity|].
      split; [exists n; exact Hprefix|]. split; [exact Hnodup|].
      intros Hnot. exfalso. apply Hnot. apply in_app_iff. right. right. left. reflexivity.
  - exists {| Run.world := Run.world st3;
              Run.trace := Run.trace st3
                           ++ [Run.ConsoleError (lit "Fataler Fehler:") [msg2];
                               Run.ProcessExit 1] |},
           inside, (evs ++ [Run.ConsoleError (lit "Fataler Fehler:") [msg2];
                            Run.ProcessExit 1]).
    split; [reflexivity|]. cbn [Run.trace].
    split; [rewrite Hs, <- app_assoc; apply Hshape|].
    split; [exact Hinside|].
    split; [rewrite forallb_app, Hevs; reflexivity|].
    split; [exists n; exact Hprefix|]. split; [exact Hnodup|].
    intros Hnot. exfalso. apply Hnot. apply in_app_iff. right. right. left. reflexivity.
Qed.

(** The export of the first account is imported into the account found
    by its name, the second account has no export and is passed over, and
    the run ends after the shutdown: the calls of the API, in their order. *)
Lemma every_initialised_run_is_shut_down_once_witness :
  exists st' inside tail t,
    Run.program unit (example_host [(lit "id-giro", lit "GIRO")]) 3 initial_state = Some st' /\
    Run.trace st' =
      Run.ApiInit (lit "./cache") (lit "https://budget.example") (lit "secret")
      :: inside ++ Run.ApiShutdown :: tail /\
    forallb inside_a_run inside = true /\
    filter is_api_call (Run.trace st') =
      [ Run.ApiInit (lit "./cache") (lit "https://budget.example") (lit "secret");
        Run.ApiDownloadBudget (lit "budget-1");
        Run.ApiSync;
        Run.ApiGetAccounts;
        Run.ApiImportTransactions (lit "id-giro") [t];
        Run.ApiSync;
        Run.ApiShutdown ].
Proof.
  destruct (Config.loadConfig 3 example_env) as [[config|msg]|] eqn:Hconfig;
    [|exfalso; vm_compute in Hconfig; discriminate
     |exfalso; vm_compute in Hconfig; discriminate].
  destruct (every_initialised_run_is_shut_down_once unit
              (example_host [(lit "id-giro", lit "GIRO")]) 3 config initial_state tt
              Hconfig eq_refl)
    as (st' & inside & tail & Hrun & Htrace & Hinside & _).
  vm_compute in Hconfig. injection Hconfig as <-.
  exists st', inside, tail. eexists.
  split; [exact Hrun|]. split; [exact Htrace|]. split; [exact Hinside|].
  vm_compute in Hrun. injection Hrun as <-. vm_compute. reflexivity.
Defined.

(** X20. main has no handler around the work on an account: when the
    work on one account throws (no account of that name in the budget, an
    amount or a date that does not parse, a call of the API that fails), the
    accounts after it are not processed, neither in its budget nor in the
    budgets after, its budget is not synchronised, and the run ends with the
    shutdown and the exit of the process with code 1. *)
Theorem an_account_that_throws_ends_the_run
    (World : Type) (host : Run.Host World) (fuel : nat) (config : Config.Config)
    (groups1 groups2 : list (jsstring * list Config.DkbAccount)) (syncId : jsstring)
    (accounts1 accounts2 : list Config.DkbAccount) (account : Config.DkbAccount)
    (st0 st1 st2 st3 st4 st5 : Run.State World) (msg : jsstring) :
  Config.loadConfig fuel (Run.env host) = Some (Ok config) ->
  Main.byBudget (Config.accounts config) =
    groups1 ++ (syncId, accounts1 ++ account :: accounts2) :: groups2 ->
  Run.init World host config st0 = (Ok tt, st1) ->
  Run.forEach World (Run.processBudget World host config) groups1 st1 = (Ok tt, st2) ->
  Run.connectToBudget World host syncId
    (snd (Run.log World (10 :: lit "=== Budget: " ++ syncId ++ lit " ===") st2))
    = (Ok tt, st3) ->
  Run.forEach World (Run.processAccount World host config) accounts1 st3 = (Ok tt, st4) ->
  Run.processAccount World host config account st4 = (Throw msg, st5) ->
  exists st' tail,
    Run.program World host fuel st0 = Some st' /\
    Run.trace st' = Run.trace st5 ++ Run.ApiShutdown :: tail /\
    forallb (fun e => negb (is_api_call e)) tail = true /\
    last tail Run.ApiShutdown = Run.ProcessExit 1.
Proof.
  intros Hconfig Hgroups Hinit Hbefore Hconnect Haccounts Haccount.
  assert (Hbudget : Run.processBudget World host config
                      (syncId, accounts1 ++ account :: accounts2) st2 = (Throw msg, st5)).
  { unfold Run.processBudget. cbn [fst snd]. rewrite bindM_run.
    change (Run.log World (10 :: lit "=== Budget: " ++ syncId ++ lit " ===") st2)
      with (Ok tt, snd (Run.log World (10 :: lit "=== Budget: " ++ syncId ++ lit " ===") st2)).
    cbv iota. rewrite bindM_run, Hconnect, bindM_run.
    rewrite (forEach_throws _ accounts1 account accounts2 st3 st4 st5 msg Haccounts Haccount).
    reflexivity. }
  pose proof (forEach_throws _ groups1 _ groups2 st1 st2 st5 msg Hbefore Hbudget) as Hloop.
  rewrite <- Hgroups in Hloop.
  unfold Run.program, Run.main. rewrite Hconfig. unfold Run.mainWith.
  rewrite bindM_run, Hinit, bindM_run, finally_run, Hloop. cbn [fst snd].
  destruct (shutdown_run host st5) as (evs & Hs & Hevs & _).
  destruct (Run.shutdown World host st5) as [[[]|msg2] st6]; cbn [snd] in Hs.
  - eexists. exists (evs ++ [Run.ConsoleError (lit "Fataler Fehler:") [msg]; Run.ProcessExit 1]).
    split; [reflexivity|]. cbn [Run.trace].
    split; [rewrite Hs, <- app_assoc; reflexivity|].
    split; [rewrite forallb_app, Hevs; reflexivity|].
    match goal with
    | |- last (_ ++ [?a; ?b]) _ = _ => change [a; b] with ([a] ++ [b])
    end.
    rewrite app_assoc. apply last_last.
  - eexists. exists (evs ++ [Run.ConsoleError (lit "Fataler Fehler:") [msg2]; Run.ProcessExit 1]).
    split; [reflexivity|]. cbn [Run.trace].
    split; [rewrite Hs, <- app_assoc; reflexivity|].
    split; [rewrite forallb_app, Hevs; reflexivity|].
    match goal with
    | |- last (_ ++ [?a; ?b]) _ = _ => change [a; b] with ([a] ++ [b])
    end.
    rewrite app_assoc. apply last_last.
Qed.

(** The budget has no account of the name of the first account: the
    lookup throws, nothing is imported, the second account is not looked at,
    the budget is not synchronised after its download, and the process exits
    with code 1 after the shutdown. *)
Lemma an_account_that_throws_ends_the_run_witness :
  exists st',
    Run.program unit (example_host []) 3 initial_state = Some st' /\
    filter is_api_call (Run.trace st') =
      [ Run.ApiInit (lit "./cache") (lit "https://budget.example") (lit "secret");
        Run.ApiDownloadBudget (lit "budget-1");
        Run.ApiSync;
        Run.ApiGetAccounts;
        Run.ApiShutdown ] /\
    last (Run.trace st') Run.ApiShutdown = Run.ProcessExit 1.
Proof.
  destruct (Config.loadConfig 3 example_env) as [[config|msg]|] eqn:Hconfig;
    [|exfalso; vm_compute in Hconfig; discriminate
     |exfalso; vm_compute in Hconfig; discriminate].
  pose proof Hconfig as Hvalue. vm_compute in Hvalue. injection Hvalue as Hvalue.
  subst config.
  match type of Hconfig with
  | _ = Some (Ok ?c) => set (config := c) in *
  end.
  pose (st1 := snd (Run.init unit (example_host []) config initial_state)).
  pose (st3 := snd (Run.connectToBudget unit (example_host []) (lit "budget-1")
                      (snd (Run.log unit (10 :: lit "=== Budget: " ++ lit "budget-1"
                                          ++ lit " ===") st1)))).
  pose (st5 := snd (Run.processAccount unit (example_host []) config
                      (account_at example_env 0) st3)).
  pose (msg := match fst (Run.processAccount unit (example_host []) config
                            (account_at example_env 0) st3) with
               | Throw m => m
               | Ok _ => []
               end).
  destruct (an_account_that_throws_ends_the_run unit (example_host []) 3 config
              [] [] (lit "budget-1") [] [account_at example_env 1] (account_at example_env 0)
              initial_state st1 st1 st3 st3 st5 msg
              Hconfig ltac:(vm_compute; reflexivity) ltac:(vm_compute; reflexivity)
              eq_refl ltac:(vm_compute; reflexivity) eq_refl
              ltac:(vm_compute; reflexivity))
    as (st' & tail & Hrun & _).
  exists st'. split; [exact Hrun|].
  vm_compute in Hrun. injection Hrun as <-.
  split; vm_compute; reflexivity.
Defined.
